(** * truchain: the matching and verdict engine

    A shallow embedding of the clip-verification code of the repository:

    - [VideoVerifier]         : verification.py (bit-packed fingerprints)
    - [Difflib]               : the part of Python's difflib that
                                sliding_window_matcher.py calls
    - [SlidingWindowMatcher]  : ai-layer/sliding_window_matcher.py
    - [SpeakerVerifier]       : ai-layer/speaker_verification.py
    - [ApiServer]             : ai-layer/api_server.py, the /verify endpoint
    - [HybridVerifier]        : hybrid_verification.py, stages 3 and 4
    - [FrankensteinTests]     : legacy_chromaprint/run_frankenstein_tests.py

    Python floats are modelled by exact rationals ([Q]); Python integers
    by [Z]; a Python exception by the [Raise] branch of [Py.result]. *)

From Stdlib Require Import ZArith QArith Qabs List String Ascii Bool Lia Lqa.
From Stdlib Require Import Sorted Permutation.
Import ListNotations.

Local Open Scope Z_scope.

(* ================================================================== *)
(** * Python values and control *)
(* ================================================================== *)

Module Py.

(** The exceptions the modelled code can raise or catch. *)
Inductive exn : Type :=
| ZeroDivisionError
| IndexError
| ValueError
| ProviderError               (* ffmpeg / Whisper / embedding model failure *)
| HTTPException (status_code : Z).

Inductive result (A : Type) : Type :=
| Ok (a : A)
| Raise (e : exn).
Arguments Ok {A} a.
Arguments Raise {A} e.

Definition bind {A B : Type} (c : result A) (k : A -> result B) : result B :=
  match c with
  | Ok a => k a
  | Raise e => Raise e
  end.

(** [len(l)] *)
Definition len {A : Type} (l : list A) : Z := Z.of_nat (List.length l).

(** [l[i]]: a negative index counts from the end, an index outside
    [-len, len) raises [IndexError]. *)
Definition getitem {A : Type} (l : list A) (i : Z) : result A :=
  let j := if i <? 0 then i + len l else i in
  if (j <? 0) || (len l <=? j) then Raise IndexError
  else match nth_error l (Z.to_nat j) with
       | Some x => Ok x
       | None => Raise IndexError
       end.

(** Slice bounds: negative bounds count from the end, then clamp. *)
Definition clamp {A : Type} (l : list A) (i : Z) : Z :=
  let j := if i <? 0 then i + len l else i in
  Z.max 0 (Z.min j (len l)).

(** [l[start:stop]] *)
Definition slice {A : Type} (l : list A) (start stop : Z) : list A :=
  let lo := clamp l start in
  let hi := clamp l stop in
  firstn (Z.to_nat (hi - lo)) (skipn (Z.to_nat lo) l).

(** [l[start:]] *)
Definition slice_from {A : Type} (l : list A) (start : Z) : list A :=
  skipn (Z.to_nat (clamp l start)) l.

(** [range(lo, hi)] *)
Definition range (lo hi : Z) : list Z :=
  map (fun k => lo + Z.of_nat k) (seq 0 (Z.to_nat (hi - lo))).

(** [enumerate(l)] *)
Fixpoint enumerate_from {A : Type} (i : Z) (l : list A) : list (Z * A) :=
  match l with
  | [] => []
  | x :: l' => (i, x) :: enumerate_from (i + 1) l'
  end.
Definition enumerate {A : Type} (l : list A) : list (Z * A) :=
  enumerate_from 0 l.

(** [a / b] on integers: true division. *)
Definition truediv (a b : Z) : result Q :=
  if b =? 0 then Raise ZeroDivisionError
  else Ok (inject_Z a / inject_Z b)%Q.

(** [x < y] on floats, as a boolean. *)
Definition Qlt_bool (x y : Q) : bool := negb (Qle_bool y x).

(** [s.count(c)] for a one-character needle. *)
Fixpoint count (c : ascii) (s : string) : Z :=
  match s with
  | EmptyString => 0
  | String d s' => (if Ascii.eqb c d then 1 else 0) + count c s'
  end.

Fixpoint bin_digits (p : positive) : string :=
  match p with
  | xH => "1"
  | xO p' => bin_digits p' ++ "0"
  | xI p' => bin_digits p' ++ "1"
  end.

(** [bin(z)]: ['0b101'], ['-0b101'], ['0b0']. *)
Definition bin (z : Z) : string :=
  match z with
  | Z0 => "0b0"
  | Zpos p => "0b" ++ bin_digits p
  | Zneg p => "-0b" ++ bin_digits p
  end.

(** [l.sort(key=key, reverse=True)]: descending and stable (items with
    equal keys keep their order). *)
Section Sort.
Context {A : Type} (key : A -> Q).

Fixpoint insert_desc (x : A) (l : list A) : list A :=
  match l with
  | [] => [x]
  | y :: l' => if Qle_bool (key y) (key x) then x :: y :: l'
               else y :: insert_desc x l'
  end.

Definition sort_desc (l : list A) : list A :=
  fold_right insert_desc [] l.
End Sort.

End Py.

Import Py.

Declare Scope py_scope.
Delimit Scope py_scope with py.
Notation "x <- c ;; k" := (Py.bind c (fun x => k))
  (at level 61, c at next level, right associativity) : py_scope.
Local Open Scope py_scope.

(* ================================================================== *)
(** * verification.py *)
(* ================================================================== *)

Module VideoVerifier.

(** A fingerprint dict as AudioFingerprinter builds it.  The code reads
    ['fingerprint'] and ['hash'] with [dict.get] and a default of [[]]
    and [''], so an absent key is the empty value here. *)
Record fingerprint : Type := mkFingerprint {
  timestamp : Q;
  hash : string;
  fingerprint_array : list Z
}.

Definition is_empty {A : Type} (l : list A) : bool :=
  match l with [] => true | _ => false end.

(** [sum(c1 != c2 for c1, c2 in zip(hash1, hash2))] *)
Fixpoint differences (hash1 hash2 : string) : Z :=
  match hash1, hash2 with
  | String c1 h1, String c2 h2 =>
      (if Ascii.eqb c1 c2 then 0 else 1) + differences h1 h2
  | _, _ => 0
  end.

Definition strlen (s : string) : Z := Z.of_nat (String.length s).

(** The [for i in range(min_len)] loop of lines 85-91. *)
Fixpoint bit_loop (arr1 arr2 : list Z) (idxs : list Z)
         (total_bits different_bits : Z) : result (Z * Z) :=
  match idxs with
  | [] => Ok (total_bits, different_bits)
  | i :: rest =>
      x <- getitem arr1 i ;;
      y <- getitem arr2 i ;;
      let xor_result := Z.lxor x y in
      let different_bits := different_bits + count "1" (bin xor_result) in
      let total_bits := total_bits + 32 in
      bit_loop arr1 arr2 rest total_bits different_bits
  end.

(** [VideoVerifier.calculate_similarity], lines 51-98. *)
Definition calculate_similarity (fp1 fp2 : fingerprint) : result Q :=
  let arr1 := fingerprint_array fp1 in
  let arr2 := fingerprint_array fp2 in
  if is_empty arr1 || is_empty arr2 then
    (* Fallback to hash comparison if no arrays *)
    let hash1 := hash fp1 in
    let hash2 := hash fp2 in
    if negb (strlen hash1 =? strlen hash2) then Ok 0%Q
    else
      d <- truediv (differences hash1 hash2) (strlen hash1) ;;
      Ok (1 - d)%Q
  else
    let min_len := Z.min (len arr1) (len arr2) in
    if min_len =? 0 then Ok 0%Q
    else
      tb <- bit_loop arr1 arr2 (range 0 min_len) 0 0 ;;
      let '(total_bits, different_bits) := tb in
      if total_bits =? 0 then Ok 0%Q
      else
        d <- truediv different_bits total_bits ;;
        Ok (1 - d)%Q.

(** The [Match] dataclass. *)
Record Match : Type := mkMatch {
  video_id : string;
  video_title : string;
  clip_timestamp : Q;
  original_timestamp : Q;
  confidence : Q;
  fingerprint_matches : Z
}.

(** A database entry: [video['id']], [video['title']],
    [video['fingerprints']]. *)
Record video : Type := mkVideo {
  id : string;
  title : string;
  fingerprints : list fingerprint
}.

(** Lines 131-143: the best reference index for one clip fingerprint. *)
Fixpoint best_match_scan (clip_fp : fingerprint)
         (todo : list (Z * fingerprint))
         (best_match_similarity : Q) (best_match_idx : Z)
  : result (Q * Z) :=
  match todo with
  | [] => Ok (best_match_similarity, best_match_idx)
  | (video_idx, video_fp) :: rest =>
      similarity <- calculate_similarity clip_fp video_fp ;;
      if Qlt_bool best_match_similarity similarity
      then best_match_scan clip_fp rest similarity video_idx
      else best_match_scan clip_fp rest best_match_similarity best_match_idx
  end.

(** Lines 152-168: extend the match over the following fingerprints,
    stopping at the first one under the threshold. *)
Fixpoint consecutive_scan (clip_fingerprints video_fps : list fingerprint)
         (clip_idx best_match_idx : Z) (threshold : Q)
         (offsets : list Z)
         (consecutive_matches : Z) (total_similarity : Q)
  : result (Z * Q) :=
  match offsets with
  | [] => Ok (consecutive_matches, total_similarity)
  | offset :: rest =>
      next_clip_fp <- getitem clip_fingerprints (clip_idx + offset) ;;
      next_video_fp <- getitem video_fps (best_match_idx + offset) ;;
      similarity <- calculate_similarity next_clip_fp next_video_fp ;;
      if Qle_bool threshold similarity
      then consecutive_scan clip_fingerprints video_fps clip_idx
             best_match_idx threshold rest
             (consecutive_matches + 1) (total_similarity + similarity)%Q
      else Ok (consecutive_matches, total_similarity)
  end.

(** Lines 130-187: the loop over the clip for one video.  It ends at the
    first recorded match ([break]) and hands back the match together
    with the re-bound [clip_fingerprints]; [None] when the loop runs to
    its end. *)
Fixpoint clip_loop (v : video) (clip_fingerprints : list fingerprint)
         (threshold : Q) (min_consecutive_matches : Z)
         (todo : list (Z * fingerprint))
  : result (option (Match * list fingerprint)) :=
  match todo with
  | [] => Ok None
  | (clip_idx, clip_fp) :: rest =>
      let video_fps := fingerprints v in
      best <- best_match_scan clip_fp (enumerate video_fps) 0%Q (-1) ;;
      let '(best_match_similarity, best_match_idx) := best in
      if Qle_bool threshold best_match_similarity then
        run <- consecutive_scan clip_fingerprints video_fps clip_idx
                 best_match_idx threshold
                 (range 1 (Z.min (len clip_fingerprints - clip_idx)
                                 (len video_fps - best_match_idx)))
                 1 best_match_similarity ;;
        let '(consecutive_matches, total_similarity) := run in
        if min_consecutive_matches <=? consecutive_matches then
          let avg_confidence :=
            (total_similarity / inject_Z consecutive_matches)%Q in
          original_fp <- getitem video_fps best_match_idx ;;
          let m := mkMatch (id v) (title v) (timestamp clip_fp)
                     (timestamp original_fp) avg_confidence
                     consecutive_matches in
          Ok (Some (m, slice_from clip_fingerprints
                         (clip_idx + consecutive_matches)))
        else clip_loop v clip_fingerprints threshold
               min_consecutive_matches rest
      else clip_loop v clip_fingerprints threshold
             min_consecutive_matches rest
  end.

(** Lines 125-187: the loop over the database. *)
Fixpoint video_loop (all_videos : list video)
         (clip_fingerprints : list fingerprint)
         (threshold : Q) (min_consecutive_matches : Z)
         (matches : list Match) : result (list Match) :=
  match all_videos with
  | [] => Ok matches
  | v :: rest =>
      r <- clip_loop v clip_fingerprints threshold min_consecutive_matches
             (enumerate clip_fingerprints) ;;
      match r with
      | Some (m, clip_fingerprints') =>
          video_loop rest clip_fingerprints' threshold
            min_consecutive_matches (matches ++ [m])
      | None =>
          video_loop rest clip_fingerprints threshold
            min_consecutive_matches matches
      end
  end.

(** [VideoVerifier.find_matches], lines 100-192; [all_videos] is
    [self.db.get_all_videos()]. *)
Definition find_matches (all_videos : list video)
           (clip_fingerprints : list fingerprint)
           (threshold : Q) (min_consecutive_matches : Z)
  : result (list Match) :=
  matches <- video_loop all_videos clip_fingerprints threshold
               min_consecutive_matches [] ;;
  Ok (sort_desc confidence matches).

End VideoVerifier.

(* ================================================================== *)
(** * difflib.SequenceMatcher(None, a, b).ratio() *)
(* ================================================================== *)

(** sliding_window_matcher.py computes text similarity with Python's
    standard difflib.  This module follows CPython's Lib/difflib.py for
    the call the repository makes: no [isjunk] function, [autojunk] left
    at its default.  The general results on the matcher below take the
    ratio as a parameter; this model serves the concrete runs. *)
Module Difflib.

Section Matcher.
Variables a b : list ascii.

(** [__chain_b]: with [autojunk], in a [b] of 200 elements or more,
    an element that occurs more than [n // 100 + 1] times is
    "popular" and is dropped from the index [b2j]. *)
Definition popular (x : ascii) : bool :=
  let n := len b in
  (200 <=? n) && (n / 100 + 1 <? len (filter (Ascii.eqb x) b)).

(** One pass of the inner loop of [find_longest_match]: the new
    [j2len] row for the element [x] of [a]; [diag] is the previous
    row at [j - 1]. *)
Fixpoint new_row (x : ascii) (blo bhi j : nat) (bs : list ascii)
         (diag : nat) (j2len : list nat) : list nat :=
  match bs with
  | [] => []
  | y :: bs' =>
      let k := if Ascii.eqb x y && negb (popular x)
                  && (blo <=? j)%nat && (j <? bhi)%nat
               then S diag else O in
      k :: new_row x blo bhi (S j) bs' (hd O j2len) (tl j2len)
  end.

(** [if k > bestsize: besti, bestj, bestsize = i-k+1, j-k+1, k] *)
Fixpoint scan_row (i j : nat) (row : list nat) (best : nat * nat * nat)
  : nat * nat * nat :=
  match row with
  | [] => best
  | k :: row' =>
      let '(_, _, bestsize) := best in
      scan_row i (S j) row'
        (if (bestsize <? k)%nat then (i + 1 - k, j + 1 - k, k)%nat
         else best)
  end.

Fixpoint longest_loop (blo bhi i : nat) (xs : list ascii)
         (j2len : list nat) (best : nat * nat * nat)
  : nat * nat * nat :=
  match xs with
  | [] => best
  | x :: xs' =>
      let row := new_row x blo bhi O b O j2len in
      longest_loop blo bhi (S i) xs' row (scan_row i O row best)
  end.

Definition same_at (i j : nat) : bool :=
  match nth_error a i, nth_error b j with
  | Some x, Some y => Ascii.eqb x y
  | _, _ => false
  end.

(** The two [while] loops that extend the best block by elements
    that are not junk (there is no junk without [isjunk]). *)
Fixpoint extend_left (fuel alo blo : nat) (best : nat * nat * nat)
  : nat * nat * nat :=
  match fuel with
  | O => best
  | S fuel' =>
      let '(besti, bestj, bestsize) := best in
      if (alo <? besti)%nat && (blo <? bestj)%nat
         && same_at (besti - 1) (bestj - 1)
      then extend_left fuel' alo blo
             (besti - 1, bestj - 1, S bestsize)%nat
      else best
  end.

Fixpoint extend_right (fuel ahi bhi : nat) (best : nat * nat * nat)
  : nat * nat * nat :=
  match fuel with
  | O => best
  | S fuel' =>
      let '(besti, bestj, bestsize) := best in
      if (besti + bestsize <? ahi)%nat && (bestj + bestsize <? bhi)%nat
         && same_at (besti + bestsize) (bestj + bestsize)
      then extend_right fuel' ahi bhi (besti, bestj, S bestsize)
      else best
  end.

Definition find_longest_match (alo ahi blo bhi : nat)
  : nat * nat * nat :=
  let best :=
    longest_loop blo bhi alo (firstn (ahi - alo) (skipn alo a)) []
      (alo, blo, O) in
  extend_right (List.length a) ahi bhi
    (extend_left (List.length a) alo blo best).

(** The sum of the sizes of [get_matching_blocks()]: the longest
    block, then the pieces to its left and to its right.  Every
    nested piece has a strictly shorter range of [a], so a fuel of
    [len(a) + 1] is never used up. *)
Fixpoint matched (fuel alo ahi blo bhi : nat) : nat :=
  match fuel with
  | O => O
  | S fuel' =>
      let '(i, j, k) := find_longest_match alo ahi blo bhi in
      if (k =? 0)%nat then O
      else (k
            + (if (alo <? i)%nat && (blo <? j)%nat
               then matched fuel' alo i blo j else O)
            + (if (i + k <? ahi)%nat && (j + k <? bhi)%nat
               then matched fuel' (i + k) ahi (j + k) bhi else O))%nat
  end.

Definition matches : nat :=
  matched (S (List.length a)) O (List.length a) O (List.length b).
End Matcher.

(** [_calculate_ratio]: [2.0 * matches / length], and [1.0] when both
    sequences are empty. *)
Definition ratio (text1 text2 : string) : Q :=
  let a := list_ascii_of_string text1 in
  let b := list_ascii_of_string text2 in
  let length := len a + len b in
  if length =? 0 then 1%Q
  else (inject_Z (2 * Z.of_nat (matches a b)) / inject_Z length)%Q.

End Difflib.

(* ================================================================== *)
(** * ai-layer/sliding_window_matcher.py *)
(* ================================================================== *)

Module SlidingWindowMatcher.

(** A word of a transcription: [{'word', 'start', 'end'}]. *)
Record word_entry : Type := mkWord {
  word : string;
  start : Q;
  end_ : Q
}.

(** A transcription dict as WordTranscriber builds it. *)
Record transcription : Type := mkTranscription {
  video_path : string;
  video_name : string;
  full_text : string;
  normalized_text : string;
  words : list word_entry;
  duration : Q;
  word_count : Z
}.

(** The dict [find_best_match] returns. *)
Record localized_match : Type := mkLocalizedMatch {
  m_video_path : string;
  m_video_name : string;
  start_time : Q;
  end_time : Q;
  similarity : Q;
  start_word_index : Z;
  end_word_index : Z;
  matched_text : string;
  clip_word_count : Z;
  m_duration : Q
}.

(** ASCII white space as [str.split()] sees it. *)
Definition isspace (c : ascii) : bool :=
  let n := Z.of_nat (nat_of_ascii c) in
  (n =? 32) || ((9 <=? n) && (n <=? 13)) || ((28 <=? n) && (n <=? 31)).

Definition is_empty_string (s : string) : bool :=
  match s with EmptyString => true | _ => false end.

(** [text.split()]: runs of white space separate the words and no
    empty word is produced. *)
Fixpoint split_loop (text : string) (current : string) : list string :=
  match text with
  | EmptyString => if is_empty_string current then [] else [current]
  | String c text' =>
      if isspace c then
        if is_empty_string current then split_loop text' EmptyString
        else current :: split_loop text' EmptyString
      else split_loop text' (current ++ String c EmptyString)
  end.

Definition split_into_words (text : string) : list string :=
  split_loop text EmptyString.

(** [' '.join(ws)] *)
Definition join (ws : list string) : string := String.concat " " ws.

Section Matcher.
(** [SequenceMatcher(None, text1, text2).ratio()] *)
Variable SequenceMatcher_ratio : string -> string -> Q.
(** [self.similarity_threshold] *)
Variable similarity_threshold : Q.

Definition calculate_text_similarity (text1 text2 : string) : Q :=
  SequenceMatcher_ratio text1 text2.

(** Lines 96-109: slide a window of the clip's length over the
    video's words. *)
Fixpoint window_loop (clip_words video_words : list string)
         (clip_word_count : Z) (starts : list Z)
         (best_similarity : Q) (best_position : Z) : Q * Z :=
  match starts with
  | [] => (best_similarity, best_position)
  | start_idx :: rest =>
      let end_idx := start_idx + clip_word_count in
      let window_words := slice video_words start_idx end_idx in
      let window_text := join window_words in
      let clip_text := join clip_words in
      let similarity := calculate_text_similarity clip_text window_text in
      if Qlt_bool best_similarity similarity
      then window_loop clip_words video_words clip_word_count rest
             similarity start_idx
      else window_loop clip_words video_words clip_word_count rest
             best_similarity best_position
  end.

(** The similarity line 105 computes for the window that starts at
    word [i]. *)
Definition window_similarity (clip_words video_words : list string)
           (i : nat) : Q :=
  calculate_text_similarity (join clip_words)
    (join (slice video_words (Z.of_nat i)
                 (Z.of_nat i + len clip_words))).

(** Lines 77-143 on the two word lists and the video's timestamped
    word list. *)
Definition find_best_match_words (clip_words video_words : list string)
           (video_transcription : transcription)
  : result (option localized_match) :=
  let clip_word_count := len clip_words in
  let video_word_count := len video_words in
  if (clip_word_count =? 0) || (video_word_count =? 0) then Ok None
  else if video_word_count <? clip_word_count then Ok None
  else
    let '(best_similarity, best_position) :=
      window_loop clip_words video_words clip_word_count
        (range 0 (video_word_count - clip_word_count + 1)) 0%Q (-1) in
    if Qlt_bool best_similarity similarity_threshold then Ok None
    else
      let start_word_index := best_position in
      let end_word_index := best_position + clip_word_count - 1 in
      let video_word_list := words video_transcription in
      if (len video_word_list <=? start_word_index)
         || (len video_word_list <=? end_word_index)
      then Ok None
      else
        first_word <- getitem video_word_list start_word_index ;;
        last_word <- getitem video_word_list end_word_index ;;
        let start_time := start first_word in
        let end_time := end_ last_word in
        let matched_words :=
          slice video_words start_word_index (end_word_index + 1) in
        Ok (Some (mkLocalizedMatch
                    (video_path video_transcription)
                    (video_name video_transcription)
                    start_time end_time best_similarity
                    start_word_index end_word_index
                    (join matched_words) clip_word_count
                    (end_time - start_time)%Q)).

(** [SlidingWindowMatcher.find_best_match], lines 52-143. *)
Definition find_best_match (clip_transcription video_transcription
                            : transcription)
  : result (option localized_match) :=
  find_best_match_words
    (split_into_words (normalized_text clip_transcription))
    (split_into_words (normalized_text video_transcription))
    video_transcription.

(** The loop of [search_all_videos], lines 166-175. *)
Fixpoint search_loop (clip_transcription : transcription)
         (video_transcriptions : list transcription)
         (matches : list localized_match)
  : result (list localized_match) :=
  match video_transcriptions with
  | [] => Ok matches
  | video_trans :: rest =>
      m <- find_best_match clip_transcription video_trans ;;
      match m with
      | Some x => search_loop clip_transcription rest (matches ++ [x])
      | None => search_loop clip_transcription rest matches
      end
  end.

(** [SlidingWindowMatcher.search_all_videos], lines 145-180. *)
Definition search_all_videos (clip_transcription : transcription)
           (video_transcriptions : list transcription)
  : result (list localized_match) :=
  matches <- search_loop clip_transcription video_transcriptions [] ;;
  Ok (sort_desc similarity matches).
End Matcher.

End SlidingWindowMatcher.

(* ================================================================== *)
(** * ai-layer/speaker_verification.py *)
(* ================================================================== *)

Module SpeakerVerifier.

(** [np.dot] of two one-dimensional arrays; arrays of different
    lengths raise [ValueError]. *)
Fixpoint dot_sum (u v : list Q) : Q :=
  match u, v with
  | x :: u', y :: v' => (x * y + dot_sum u' v')%Q
  | _, _ => 0%Q
  end.

Definition np_dot (u v : list Q) : result Q :=
  if len u =? len v then Ok (dot_sum u v) else Raise ValueError.

(** [SpeakerVerifier.calculate_similarity], lines 129-150. *)
Definition calculate_similarity (embedding1 embedding2 : list Q)
  : result Q :=
  similarity <- np_dot embedding1 embedding2 ;;
  Ok ((similarity + 1) / 2)%Q.

Inductive speaker_message : Type :=
| Same_speaker
| Different_speaker_possible_deepfake.

(** The dict [verify_speaker] returns. *)
Record speaker_result : Type := mkSpeakerResult {
  verified : bool;
  similarity : Q;
  threshold : Q;
  clip_embedding_dim : Z;
  original_embedding_dim : Z;
  message : speaker_message
}.

Section Providers.
(** ffmpeg: cut [duration] seconds of audio from a file at [start];
    the value is the path of the extracted audio. *)
Variable extract_audio_segment : string -> Q -> Q -> result string.
(** The pretrained speaker model: audio file to embedding. *)
Variable audio_to_embedding : string -> result (list Q).

(** [SpeakerVerifier.verify_speaker], lines 152-257. *)
Definition verify_speaker (clip_path : string)
           (clip_start clip_duration : Q) (original_path : string)
           (original_start original_duration : Q) (threshold : Q)
  : result speaker_result :=
  clip_audio_path <-
    extract_audio_segment clip_path clip_start clip_duration ;;
  original_audio_path <-
    extract_audio_segment original_path original_start
      original_duration ;;
  clip_embedding <- audio_to_embedding clip_audio_path ;;
  original_embedding <- audio_to_embedding original_audio_path ;;
  similarity <- calculate_similarity clip_embedding original_embedding ;;
  let verified := Qle_bool threshold similarity in
  Ok (mkSpeakerResult verified similarity threshold
        (len clip_embedding) (len original_embedding)
        (if verified then Same_speaker
         else Different_speaker_possible_deepfake)).
End Providers.

End SpeakerVerifier.

(* ================================================================== *)
(** * ai-layer/api_server.py: POST /verify *)
(* ================================================================== *)

Module ApiServer.
Import SlidingWindowMatcher.

Definition TEXT_THRESHOLD : Q := 80 # 100.
Definition SPEAKER_THRESHOLD : Q := 85 # 100.
Definition VIDEO_DIRECTORY : string := "download".

Inductive verification_type : Type :=
| full
| content_only
| not_verified.

Inductive speaker_verification_message : Type :=
| Message_of (m : SpeakerVerifier.speaker_message)
| Speaker_verification_failed.

(** The ["speaker_verification"] entry of the response.  The dict built
    after [verify_speaker] returned has ["similarity"] and
    ["threshold"] and no ["error"]; the one built in the [except]
    branch has ["error"] and neither of the other two. *)
Record speaker_verification : Type := mkSpeakerVerification {
  sv_verified : bool;
  sv_similarity : option Q;
  sv_threshold : option Q;
  sv_error : option exn;
  sv_message : speaker_verification_message
}.

(** The response of the endpoint (the request id, the clock reading
    and the echoed clip information are left out). *)
Record verification_result : Type := mkVerificationResult {
  verified : bool;
  verification_type_of : verification_type;
  matches : list localized_match;
  best_match : option localized_match;
  speaker_verification_of : option speaker_verification;
  text_threshold : Q;
  speaker_threshold : Q
}.

(** [min(10.0, duration)] *)
Definition py_min (x y : Q) : Q := if Qlt_bool y x then y else x.

Definition verification_type_eqb (x y : verification_type) : bool :=
  match x, y with
  | full, full | content_only, content_only
  | not_verified, not_verified => true
  | _, _ => false
  end.

Section Endpoint.
Variable SequenceMatcher_ratio : string -> string -> Q.
Variable extract_audio_segment : string -> Q -> Q -> result string.
Variable audio_to_embedding : string -> result (list Q).

(** Step 3, lines 244-251: a video whose transcription fails is
    skipped. *)
Fixpoint transcribe_all (video_files : list (result transcription))
  : list transcription :=
  match video_files with
  | [] => []
  | Ok transcription :: rest => transcription :: transcribe_all rest
  | Raise _ :: rest => transcribe_all rest
  end.

(** Lines 271-287: the speaker check on the best match. *)
Definition speaker_check (temp_file_path : string) (best : localized_match)
  : result SpeakerVerifier.speaker_result :=
  let original_video_path :=
    (VIDEO_DIRECTORY ++ "/" ++ m_video_name best)%string in
  let start_time := start_time best in
  let end_time := end_time best in
  let duration := (end_time - start_time)%Q in
  let verify_duration := py_min 10 duration in
  SpeakerVerifier.verify_speaker extract_audio_segment audio_to_embedding
    temp_file_path 0 verify_duration
    original_video_path start_time verify_duration SPEAKER_THRESHOLD.

(** Step 5, lines 262-309. *)
Definition speaker_step (temp_file_path : string)
           (best_match : option localized_match)
  : option speaker_verification * verification_type :=
  match best_match with
  | Some best =>
      match speaker_check temp_file_path best with
      | Ok speaker_result =>
          (Some (mkSpeakerVerification
                   (SpeakerVerifier.verified speaker_result)
                   (Some (SpeakerVerifier.similarity speaker_result))
                   (Some (SpeakerVerifier.threshold speaker_result))
                   None
                   (Message_of (SpeakerVerifier.message speaker_result))),
           if SpeakerVerifier.verified speaker_result then full
           else content_only)
      | Raise e =>
          (Some (mkSpeakerVerification false None None (Some e)
                   Speaker_verification_failed),
           content_only)
      end
  | None => (None, not_verified)
  end.

(** The body of the outer [try], lines 225-338.  [clip] is the
    outcome of [transcriber.transcribe_clip]; [video_files] has one
    entry per file of the video directory, the outcome of
    [transcribe_with_word_timestamps] on it. *)
Definition verify_clip_body (temp_file_path : string)
           (clip : result transcription)
           (video_files : list (result transcription))
  : result verification_result :=
  match clip with
  | Raise _ => Raise (HTTPException 400)
  | Ok clip_transcription =>
      if VideoVerifier.is_empty video_files
      then Raise (HTTPException 404)
      else
        let video_transcriptions := transcribe_all video_files in
        if VideoVerifier.is_empty video_transcriptions
        then Raise (HTTPException 500)
        else
          matches <- search_all_videos SequenceMatcher_ratio
                       TEXT_THRESHOLD clip_transcription
                       video_transcriptions ;;
          let best_match := hd_error matches in
          let '(speaker_verification, verification_type) :=
            speaker_step temp_file_path best_match in
          let fully_verified :=
            verification_type_eqb verification_type full in
          Ok (mkVerificationResult fully_verified verification_type
                matches best_match speaker_verification
                TEXT_THRESHOLD SPEAKER_THRESHOLD)
  end.

(** [verify_clip], lines 188-352: an [HTTPException] passes through,
    any other exception becomes a 500. *)
Definition verify_clip (temp_file_path : string)
           (clip : result transcription)
           (video_files : list (result transcription))
  : result verification_result :=
  match verify_clip_body temp_file_path clip video_files with
  | Ok r => Ok r
  | Raise (HTTPException status_code) =>
      Raise (HTTPException status_code)
  | Raise _ => Raise (HTTPException 500)
  end.
End Endpoint.

End ApiServer.

(* ================================================================== *)
(** * hybrid_verification.py: stages 3 and 4 of verify_clip *)
(* ================================================================== *)

Module HybridVerifier.

Definition SPEAKER_SIMILARITY_THRESHOLD : Q := 90 # 100.

(** An embedding dict: [e.get('timestamp', 0)] and [e['embedding']]. *)
Record embedding : Type := mkEmbedding {
  timestamp : Q;
  vector : list Q
}.

Inductive confidence_level : Type := high | medium | low.

(** One entry of [content_match['matches']]. *)
Record segment_match : Type := mkSegmentMatch {
  query_timestamp : Q;
  db_timestamp : Q;
  segment_similarity : Q
}.

(** What [TextMatcher.find_best_match_in_database] returned. *)
Record content_match : Type := mkContentMatch {
  video_id : string;
  matches : list segment_match;
  start_timestamp : Q;
  end_timestamp : Q;
  avg_similarity : Q;
  num_matches : Z;
  confidence : confidence_level
}.

Inductive explanation : Type :=
| Verified_high
| Verified_medium
| Content_matches_speaker_failed
| Weak_match.

(** The dict returned at lines 243-264. *)
Record verdict : Type := mkVerdict {
  verified : bool;
  final_confidence : confidence_level;
  content : content_match;
  speaker_similarity : Q;
  speaker_verified : bool;
  speaker_threshold : Q;
  explained : explanation
}.

Definition Qabs_diff (x y : Q) : Q := Qabs (x - y).

(** [min(embeddings, key=...)] on a non-empty list: the first element
    with the least key. *)
Fixpoint closest_to (t : Q) (best : embedding) (rest : list embedding)
  : embedding :=
  match rest with
  | [] => best
  | e :: rest' =>
      if Qlt_bool (Qabs_diff (timestamp e) t) (Qabs_diff (timestamp best) t)
      then closest_to t e rest'
      else closest_to t best rest'
  end.

(** [_find_embedding_at_time], lines 266-277. *)
Definition _find_embedding_at_time (embeddings : list embedding)
           (t : Q) : option embedding :=
  match embeddings with
  | [] => None
  | e :: rest =>
      let closest := closest_to t e rest in
      if Qle_bool (Qabs_diff (timestamp closest) t) 5 then Some closest
      else None
  end.

(** [AudioEmbedder.calculate_similarity], audio_embedding.py 228-248. *)
Definition calculate_similarity (emb1 emb2 : embedding) : result Q :=
  similarity <- SpeakerVerifier.np_dot (vector emb1) (vector emb2) ;;
  Ok ((similarity + 1) / 2)%Q.

(** Lines 180-195: one speaker similarity per matched segment for which
    both embeddings are found. *)
Fixpoint speaker_loop (clip_embeddings db_embeddings : list embedding)
         (todo : list segment_match) (speaker_similarities : list Q)
  : result (list Q) :=
  match todo with
  | [] => Ok speaker_similarities
  | m :: rest =>
      let clip_emb :=
        _find_embedding_at_time clip_embeddings (query_timestamp m) in
      let db_emb :=
        _find_embedding_at_time db_embeddings (db_timestamp m) in
      match clip_emb, db_emb with
      | Some c, Some d =>
          similarity <- calculate_similarity c d ;;
          speaker_loop clip_embeddings db_embeddings rest
            (speaker_similarities ++ [similarity])
      | _, _ =>
          speaker_loop clip_embeddings db_embeddings rest
            speaker_similarities
      end
  end.

(** [float(np.mean(xs))] on a non-empty list. *)
Definition np_mean (xs : list Q) : Q :=
  (fold_left Qplus xs 0 / inject_Z (len xs))%Q.

Definition is_high (c : confidence_level) : bool :=
  match c with high => true | _ => false end.
Definition is_medium (c : confidence_level) : bool :=
  match c with medium => true | _ => false end.

(** Lines 176-264 of [verify_clip], from the content match on.
    [generate_embeddings] is the outcome of
    [self.audio_embedder.generate_embeddings(clip_path)],
    [db_embeddings] is [matched_video.get('fingerprints', [])]. *)
Definition verify_speaker_stage (cm : content_match)
           (db_embeddings : list embedding)
           (generate_embeddings : result (list embedding))
  : result verdict :=
  clip_embeddings <- generate_embeddings ;;
  speaker_similarities <-
    speaker_loop clip_embeddings db_embeddings (firstn 5 (matches cm)) [] ;;
  let '(speaker_verified, speaker_similarity) :=
    if VideoVerifier.is_empty speaker_similarities then (false, 0%Q)
    else
      let speaker_similarity := np_mean speaker_similarities in
      (Qle_bool SPEAKER_SIMILARITY_THRESHOLD speaker_similarity,
       speaker_similarity) in
  let '(final_confidence, verified, explanation) :=
    if speaker_verified && is_high (confidence cm)
    then (high, true, Verified_high)
    else if speaker_verified && is_medium (confidence cm)
    then (medium, true, Verified_medium)
    else if is_high (confidence cm) && negb speaker_verified
    then (low, false, Content_matches_speaker_failed)
    else (low, false, Weak_match) in
  Ok (mkVerdict verified final_confidence cm speaker_similarity
        speaker_verified SPEAKER_SIMILARITY_THRESHOLD explanation).

End HybridVerifier.

(* ================================================================== *)
(** * legacy_chromaprint/run_frankenstein_tests.py *)
(* ================================================================== *)

Module FrankensteinTests.
Import VideoVerifier.

(** The verdict strings of lines 102-144. *)
Inductive verdict : Type :=
| No_false_positive
| Editing_detected_via_scattered_timestamps
| Appears_continuous
| Partial_detection_most_segments_rejected.

(** [max(iterable)]: the first greatest element; [ValueError] on an
    empty iterable. *)
Fixpoint max_from (best : Q) (rest : list Q) : Q :=
  match rest with
  | [] => best
  | x :: rest' => if Qlt_bool best x then max_from x rest'
                  else max_from best rest'
  end.

Definition py_max (xs : list Q) : result Q :=
  match xs with
  | [] => Raise ValueError
  | x :: rest => Ok (max_from x rest)
  end.

(** [timestamps[i+1] - timestamps[i] for i in range(len(timestamps)-1)] *)
Definition gaps (timestamps : list Q) : list Q :=
  map (fun i => (nth (S i) timestamps 0 - nth i timestamps 0)%Q)
      (seq 0 (List.length timestamps - 1)).

(** The verdict of lines 102-144 on the list [verify_clip] returned. *)
Definition analyse (matches : list Match) : result verdict :=
  if is_empty matches then Ok No_false_positive
  else if 1 <? len matches then
    let timestamps := map original_timestamp matches in
    max_gap <- py_max (gaps timestamps) ;;
    if Qlt_bool 300 max_gap
    then Ok Editing_detected_via_scattered_timestamps
    else Ok Appears_continuous
  else Ok Partial_detection_most_segments_rejected.

End FrankensteinTests.

(* ================================================================== *)
(** * The bit-packed similarity as the specification words it *)
(* ================================================================== *)

Module BitPackedSpec.

(** A fingerprint element: an unsigned 32-bit integer, as fpcalc
    prints it. *)
Definition word32 (x : Z) : Prop := 0 <= x < 2 ^ 32.

(** The number of set bits among the low [bits] bits of [x]. *)
Fixpoint popcount (bits : nat) (x : Z) : Z :=
  match bits with
  | O => 0
  | S bits' => Z.b2z (Z.odd x) + popcount bits' (Z.div2 x)
  end.

Definition sumZ (l : list Z) : Z := fold_right Z.add 0 l.

(** "XOR corresponding integers elementwise over min(len(a), len(b))
    elements, count set bits". *)
Definition differing_bits (a b : list Z) : Z :=
  sumZ (map (fun i => popcount 32 (Z.lxor (nth i a 0) (nth i b 0)))
            (seq 0 (Nat.min (List.length a) (List.length b)))).

(** "total_bits = min_len x bits_per_element (32)". *)
Definition total_bits (a b : list Z) : Z :=
  Z.min (len a) (len b) * 32.

(** "similarity = 1 - (differing_bits / total_bits)". *)
Definition similarity (a b : list Z) : Q :=
  (1 - inject_Z (differing_bits a b) / inject_Z (total_bits a b))%Q.

End BitPackedSpec.

(* ================================================================== *)
(** * Concrete inputs *)
(* ================================================================== *)

Module Inputs.
Import VideoVerifier.

(** Five-second chunks with one-element fingerprints. *)
Definition fpA (t : Q) : fingerprint := mkFingerprint t "a" [0].
Definition fpB (t : Q) : fingerprint := mkFingerprint t "b" [4294967295].
Definition fpC (t : Q) : fingerprint := mkFingerprint t "c" [65535].
Definition fpD (t : Q) : fingerprint := mkFingerprint t "d" [4294901760].
Definition fpX (t : Q) : fingerprint := mkFingerprint t "x" [16711935].

(** A chunk for which fpcalc printed no fingerprint: the array is
    empty and the hash is the SHA-256 of the empty string. *)
Definition silent_chunk (t : Q) : fingerprint :=
  mkFingerprint t
    "e3b0c44298fc1c149afbf4c8996fb92427ae41e4649b934ca495991b7852b855" [].

(** A clip spliced from two places of one original. *)
Definition spliced_clip : list fingerprint :=
  [fpA 0; fpB 5; fpC 10; fpD 15].

Definition original : video :=
  mkVideo "v0" "original"
    [fpA 200; fpB 205; fpX 210; fpC 800; fpD 805].

Definition video_one : video := mkVideo "v1" "one" [fpA 200; fpB 205].
Definition video_two : video := mkVideo "v2" "two" [fpC 800; fpD 805].

Definition match_at (t : Q) : Match :=
  mkMatch "v0" "original" 0 t 1 2.

Import SlidingWindowMatcher.

Definition reference_a_to_e : transcription :=
  mkTranscription "/download/ref.mp4" "ref.mp4" "A b c d e." "a b c d e"
    [mkWord "a" 0 1; mkWord "b" 1 2; mkWord "c" 2 3; mkWord "d" 3 4;
     mkWord "e" 4 5] 5 5.

Definition query_c_d : transcription :=
  mkTranscription "" "" "C d" "c d" [mkWord "c" 0 1; mkWord "d" 1 2] 2 2.

Definition query_x : transcription :=
  mkTranscription "" "" "X" "x" [mkWord "x" 0 1] 1 1.

(** A reference whose transcription came back without word
    timestamps: [words] is empty. *)
Definition reference_y_z_no_words : transcription :=
  mkTranscription "/download/yz.mp4" "yz.mp4" "Y z" "y z" [] 2 0.

Definition reference_y_z : transcription :=
  mkTranscription "/download/yz.mp4" "yz.mp4" "Y z" "y z"
    [mkWord "y" 0 1; mkWord "z" 1 2] 2 2.

(** Providers for the speaker check. *)
Definition ffmpeg_ok (path : string) (start duration : Q)
  : result string := Ok path.
Definition ffmpeg_fails (path : string) (start duration : Q)
  : result string := Raise ProviderError.
Definition same_voice (audio : string) : result (list Q) :=
  Ok [1%Q; 0%Q].

Import HybridVerifier.

Definition found_content : content_match :=
  mkContentMatch "cid" [mkSegmentMatch 0 120 (9 # 10)] 120 150 (9 # 10) 1
    high.

End Inputs.

(* ================================================================== *)
(** * Measures used in the statements *)
(* ================================================================== *)

Module Measures.

(** The number of clip fingerprints covered by a list of matches. *)
Definition total_fingerprint_matches (ms : list VideoVerifier.Match) : Z :=
  fold_right (fun m acc => VideoVerifier.fingerprint_matches m + acc) 0 ms.

(** Descending order of a key, the order [sort(reverse=True)] leaves. *)
Definition descending {A : Type} (key : A -> Q) (x y : A) : Prop :=
  (key y <= key x)%Q.

End Measures.

(* ================================================================== *)
(** * Shapes of words and of word lists *)
(* ================================================================== *)

Module Shapes.

(** A string without white space. *)
Definition no_space (s : string) : Prop :=
  forall c, In c (list_ascii_of_string s) ->
            SlidingWindowMatcher.isspace c = false.

(** A word: not empty and without white space. *)
Definition is_word (s : string) : Prop :=
  s <> EmptyString /\ no_space s.

(** Word timestamps in speech order: no word starts after a later word
    (or itself) has ended. *)
Definition chronological (ws : list SlidingWindowMatcher.word_entry)
  : Prop :=
  forall i j wi wj,
    (i <= j)%nat ->
    nth_error ws i = Some wi -> nth_error ws j = Some wj ->
    (SlidingWindowMatcher.start wi <= SlidingWindowMatcher.end_ wj)%Q.

End Shapes.

(* ================================================================== *)
(** * Embedding vectors *)
(* ================================================================== *)

Module Vectors.

(** The square of the Euclidean norm of an embedding. *)
Definition squared_norm (v : list Q) : Q := SpeakerVerifier.dot_sum v v.

End Vectors.

(* ================================================================== *)
(** * video_processor.py: the fingerprint database *)
(* ================================================================== *)

Module VideoDatabase.

(** A string-keyed dict with string values, in insertion order. *)
Definition dict : Type := list (string * string).

(** [d.get(key)] *)
Fixpoint dict_get (d : dict) (key : string) : option string :=
  match d with
  | [] => None
  | (k, v) :: d' => if String.eqb k key then Some v else dict_get d' key
  end.

(** [d[key] = value]: an existing key keeps its place. *)
Fixpoint dict_set (d : dict) (key value : string) : dict :=
  match d with
  | [] => [(key, value)]
  | (k, v) :: d' => if String.eqb k key then (k, value) :: d'
                    else (k, v) :: dict_set d' key value
  end.

(** An entry of [data['videos']], lines 117-124. *)
Record video_entry : Type := mkVideoEntry {
  id : string;
  ipfs_cid : string;
  title : string;
  duration : Q;
  fingerprints : list VideoVerifier.fingerprint;
  metadata : dict
}.

(** The part of an entry [VideoVerifier.find_matches] reads. *)
Definition as_video (e : video_entry) : VideoVerifier.video :=
  VideoVerifier.mkVideo (id e) (title e) (fingerprints e).

(** [self.data]: the list under ['videos']. *)
Definition data : Type := list video_entry.

(** The database file: absent, or holding the JSON form of the data.
    [json.dump] followed by [json.load] gives the data back, so the
    content of the file is modelled by the data itself. *)
Definition file : Type := option data.

(** [_load_database], lines 31-37. *)
Definition _load_database (f : file) : data :=
  match f with
  | Some d => d
  | None => []
  end.

(** [save], lines 39-42. *)
Definition save (d : data) : file := Some d.

(** [video_exists], lines 58-71. *)
Fixpoint video_exists (d : data) (video_id : string) : bool :=
  match d with
  | [] => false
  | video :: d' => if String.eqb (id video) video_id then true
                   else video_exists d' video_id
  end.

(** [get_video], lines 138-151. *)
Fixpoint get_video (d : data) (video_id : string) : option video_entry :=
  match d with
  | [] => None
  | video :: d' => if String.eqb (id video) video_id then Some video
                   else get_video d' video_id
  end.

(** [get_all_videos], lines 153-160. *)
Definition get_all_videos (d : data) : data := d.

(** The dict [get_stats] returns. *)
Record stats : Type := mkStats {
  total_videos : Z;
  total_fingerprints : Z;
  total_duration : Q;
  avg_fingerprints_per_video : Q
}.

(** [get_stats], lines 162-186. *)
Definition get_stats (d : data) : result stats :=
  let total_videos := len d in
  let total_fingerprints :=
    fold_right Z.add 0 (map (fun video => len (fingerprints video)) d) in
  let total_duration :=
    fold_left Qplus (map duration d) 0%Q in
  avg <- (if 0 <? total_videos
          then truediv total_fingerprints total_videos
          else Ok 0%Q) ;;
  Ok (mkStats total_videos total_fingerprints total_duration avg).

Section Environment.
(** [Path(p).name] and [Path(p).stem] *)
Variable path_name : string -> string.
Variable path_stem : string -> string.
(** [hashlib.md5(s.encode()).hexdigest()] and the SHA-256 one *)
Variable md5_hexdigest : string -> string.
Variable sha256_hexdigest : string -> string.
(** [AudioFingerprinter(video_path).get_duration()]: ffprobe on the
    file, failing when the file is missing or unreadable. *)
Variable get_duration : string -> result Q.
(** [AudioFingerprinter(video_path).generate_fingerprints()] *)
Variable generate_fingerprints :
  string -> result (list VideoVerifier.fingerprint).
(** [datetime.now().isoformat()] *)
Variable now : string.

(** [generate_video_id], lines 44-56. *)
Definition generate_video_id (video_path : string) : string :=
  let video_name := path_name video_path in
  ("video_" ++ String.substring 0 16 (md5_hexdigest video_name))%string.

(** [add_video], lines 73-136, on the data of the database; the new
    data is also what [save] writes. *)
Definition add_video (d : data) (video_path : string)
           (fingerprints : list VideoVerifier.fingerprint)
           (ipfs_cid : option string) (metadata : option dict)
  : result (string * data) :=
  let video_id := generate_video_id video_path in
  if video_exists d video_id then Raise ValueError
  else
    duration <- get_duration video_path ;;
    let ipfs_cid :=
      match ipfs_cid with
      | Some cid => cid
      | None =>
          ("Qm" ++ String.substring 0 44
                     (sha256_hexdigest (path_name video_path)))%string
      end in
    let metadata := match metadata with Some m => m | None => [] end in
    let metadata :=
      dict_set (dict_set metadata "upload_date" now)
               "filename" (path_name video_path) in
    let video_entry :=
      mkVideoEntry video_id ipfs_cid
        (match dict_get metadata "title" with
         | Some t => t
         | None => path_stem video_path
         end)
        duration fingerprints metadata in
    Ok (video_id, d ++ [video_entry]).

(** [if title:] on an optional string. *)
Definition truthy (s : option string) : bool :=
  match s with
  | Some (String _ _) => true
  | _ => false
  end.

(** [process_video], lines 189-232: fingerprint the video, open the
    database file, add the video, save. *)
Definition process_video (f : file) (video_path : string)
           (title campaign ipfs_cid : option string)
  : result (string * file) :=
  fingerprints <- generate_fingerprints video_path ;;
  let metadata : dict := [] in
  let metadata :=
    match title with
    | Some t => if truthy title then dict_set metadata "title" t
                else metadata
    | None => metadata
    end in
  let metadata :=
    match campaign with
    | Some c => if truthy campaign then dict_set metadata "campaign" c
                else metadata
    | None => metadata
    end in
  let d := _load_database f in
  added <- add_video d video_path fingerprints ipfs_cid (Some metadata) ;;
  let '(video_id, d') := added in
  Ok (video_id, save d').
End Environment.

End VideoDatabase.

(* ================================================================== *)
(** * Inputs for the database results *)
(* ================================================================== *)

Module DatabaseInputs.

(** Paths that are bare file names, with stand-ins for the digests,
    ffprobe and the fingerprinter. *)
Definition name_of (p : string) : string := p.
Definition stem_of (p : string) : string := String.substring 0 4 p.
Definition digest (s : string) : string := s.
Definition ten_seconds (_ : string) : result Q := Ok 10%Q.
Definition two_fingerprints (_ : string)
  : result (list VideoVerifier.fingerprint) :=
  Ok [Inputs.fpA 0; Inputs.fpB 5].
Definition today : string := "2024-01-01T00:00:00".

Definition speech_entry : VideoDatabase.video_entry :=
  VideoDatabase.mkVideoEntry "video_speech.mp4" "Qmspeech.mp4" "Speech"
    10%Q [Inputs.fpA 0; Inputs.fpB 5]
    [("title", "Speech"); ("upload_date", today);
     ("filename", "speech.mp4")]%string.

End DatabaseInputs.

(* ================================================================== *)
(** * src/audio_transcription.py: AudioTranscriber *)
(* ================================================================== *)

Module AudioTranscriber.

Definition SEGMENT_DURATION : Q := 30.

(** A transcript segment dict, lines 159-164.  In a database loaded
    from JSON a key may be missing, which is what the readers' [.get]
    calls allow for. *)
Record segment : Type := mkSegment {
  timestamp : option Q;
  duration : option Q;
  text : option string;
  hash : option string
}.

(** [int(x)] on a float: truncation toward zero. *)
Definition py_int (x : Q) : Z := Z.quot (Qnum x) (Zpos (Qden x)).

Section Providers.
(** [hashlib.sha256(text.encode()).hexdigest()] *)
Variable sha256_hexdigest : string -> string.
(** ffprobe, ffmpeg and the Whisper call. *)
Variable get_video_duration : string -> result Q.
Variable extract_audio_segment : string -> Q -> Q -> result string.
Variable transcribe_audio_file : string -> result string.

(** The [try] block of lines 149-175 for one segment: any exception
    leaves a segment with an empty text and an empty hash. *)
Definition transcribe_segment (video_path : string) (start_time duration : Q)
  : segment :=
  let attempt :=
    audio_path <- extract_audio_segment video_path start_time duration ;;
    transcribe_audio_file audio_path in
  match attempt with
  | Ok text =>
      mkSegment (Some start_time) (Some duration) (Some text)
                (Some (sha256_hexdigest text))
  | Raise _ =>
      mkSegment (Some start_time) (Some duration) (Some EmptyString)
                (Some EmptyString)
  end.

(** The segment appended for index [i] when the loop reaches it:
    lines 135 and 142 give its start and its duration. *)
Definition segment_at (video_path : string) (video_duration : Q) (i : Z)
  : segment :=
  transcribe_segment video_path (inject_Z i * SEGMENT_DURATION)
    (ApiServer.py_min SEGMENT_DURATION
       (video_duration - inject_Z i * SEGMENT_DURATION)).

(** The loop of lines 134-175, without a progress callback. *)
Fixpoint segment_loop (video_path : string) (video_duration : Q)
         (todo : list Z) (transcripts : list segment) : list segment :=
  match todo with
  | [] => transcripts
  | i :: rest =>
      let start_time := (inject_Z i * SEGMENT_DURATION)%Q in
      if Qle_bool video_duration start_time then transcripts
      else
        let duration :=
          ApiServer.py_min SEGMENT_DURATION (video_duration - start_time) in
        segment_loop video_path video_duration rest
          (transcripts ++ [transcribe_segment video_path start_time duration])
  end.

(** [transcribe_video], lines 102-181. *)
Definition transcribe_video (video_path : string) : result (list segment) :=
  video_duration <- get_video_duration video_path ;;
  let num_segments := py_int (video_duration / SEGMENT_DURATION) + 1 in
  Ok (segment_loop video_path video_duration (range 0 num_segments) []).
End Providers.

End AudioTranscriber.

(* ================================================================== *)
(** * src/text_matching.py: TextMatcher *)
(* ================================================================== *)

Module TextMatcher.
Import AudioTranscriber.

(** [seg.get('text')] when it is truthy. *)
Definition get_text (seg : segment) : option string :=
  match text seg with
  | Some (String c t) => Some (String c t)
  | _ => None
  end.

(** [seg.get('timestamp', 0.0)] and [seg.get('duration', 30)] *)
Definition get_timestamp (seg : segment) : Q :=
  match timestamp seg with Some t => t | None => 0%Q end.
Definition get_duration (seg : segment) : Q :=
  match duration seg with Some d => d | None => 30%Q end.

(** A dict appended at lines 107-112. *)
Record segment_hit : Type := mkSegmentHit {
  hit_segment : segment;
  hit_similarity : Q;
  hit_timestamp : Q;
  hit_text : string
}.

(** A dict appended at lines 253-260. *)
Record sequence_entry : Type := mkSequenceEntry {
  query_timestamp : Q;
  db_timestamp : Q;
  similarity : Q;
  query_text : string;
  db_text : string;
  entry_duration : Q
}.

(** The dict built at lines 191-198. *)
Record best_match : Type := mkBestMatch {
  video_id : string;
  matches : list sequence_entry;
  start_timestamp : Q;
  end_timestamp : Q;
  avg_similarity : Q;
  num_matches : Z
}.

(** [np.mean(xs)]: not a number on an empty list. *)
Definition np_mean (xs : list Q) : option Q :=
  match xs with
  | [] => None
  | _ => Some (fold_left Qplus xs 0 / inject_Z (len xs))%Q
  end.

(** Lines 200-207. *)
Definition classify (m : best_match) : HybridVerifier.confidence_level :=
  if Qle_bool (85 # 100) (avg_similarity m) && (3 <=? num_matches m)
  then HybridVerifier.high
  else if Qle_bool (75 # 100) (avg_similarity m) && (2 <=? num_matches m)
  then HybridVerifier.medium
  else HybridVerifier.low.

Section Model.
(** The cosine similarity of the two texts' sentence embeddings, or of
    their TF-IDF vectors (0.0 when the vectorizer fails). *)
Variable encode_similarity : string -> string -> Q.

(** [calculate_similarity], lines 41-68. *)
Definition calculate_similarity (text1 text2 : string) : Q :=
  if SlidingWindowMatcher.is_empty_string text1
     || SlidingWindowMatcher.is_empty_string text2
  then 0%Q
  else encode_similarity text1 text2.

(** The loop of lines 100-112. *)
Fixpoint segments_loop (query_text : string)
         (database_segments : list segment) (threshold : Q)
         (matches : list segment_hit) : list segment_hit :=
  match database_segments with
  | [] => matches
  | seg :: rest =>
      match get_text seg with
      | None => segments_loop query_text rest threshold matches
      | Some seg_text =>
          let similarity := calculate_similarity query_text seg_text in
          if Qle_bool threshold similarity
          then segments_loop query_text rest threshold
                 (matches ++ [mkSegmentHit seg similarity
                                (get_timestamp seg) seg_text])
          else segments_loop query_text rest threshold matches
      end
  end.

(** [find_matching_segments], lines 70-120. *)
Definition find_matching_segments (query_text : string)
           (database_segments : list segment) (threshold : Q) (top_k : Z)
  : list segment_hit :=
  if SlidingWindowMatcher.is_empty_string query_text then []
  else
    let matches := segments_loop query_text database_segments threshold [] in
    let matches := sort_desc hit_similarity matches in
    slice matches 0 top_k.

(** Lines 228-233: the index of the first segment whose timestamp is
    the given one. *)
Fixpoint find_start (todo : list (Z * segment)) (start_db_timestamp : Q)
  : option Z :=
  match todo with
  | [] => None
  | (i, seg) :: rest =>
      match timestamp seg with
      | Some t => if Qeq_bool t start_db_timestamp then Some i
                  else find_start rest start_db_timestamp
      | None => find_start rest start_db_timestamp
      end
  end.

(** The loop of lines 238-260. *)
Fixpoint sequence_loop (todo : list (Z * segment))
         (db_segments : list segment) (db_idx : Z) (threshold : Q)
         (sequence : list sequence_entry) : result (list sequence_entry) :=
  match todo with
  | [] => Ok sequence
  | (query_idx, query_seg) :: rest =>
      if len db_segments <=? db_idx + query_idx then Ok sequence
      else
        db_seg <- getitem db_segments (db_idx + query_idx) ;;
        match get_text query_seg, get_text db_seg with
        | Some q_text, Some d_text =>
            let similarity := calculate_similarity q_text d_text in
            if Qlt_bool similarity threshold then Ok sequence
            else
              sequence_loop rest db_segments db_idx threshold
                (sequence ++ [mkSequenceEntry (get_timestamp query_seg)
                                (get_timestamp db_seg) similarity
                                q_text d_text (get_duration db_seg)])
        | _, _ => Ok sequence
        end
  end.

(** [_build_match_sequence], lines 213-262. *)
Definition _build_match_sequence (query_segments db_segments : list segment)
           (start_db_timestamp threshold : Q)
  : result (list sequence_entry) :=
  match find_start (enumerate db_segments) start_db_timestamp with
  | None => Ok []
  | Some db_idx =>
      sequence_loop (enumerate query_segments) db_segments db_idx
        threshold []
  end.

(** [best_match] and [best_score] of lines 158-159. *)
Definition search_state : Type := (option best_match * Q)%type.

(** Lines 177-198: the loop over the matches of one query segment.
    A mean that is not a number makes the comparison with the best
    score false. *)
Fixpoint match_loop (video_id : string)
         (query_segments db_segments : list segment) (i : Z)
         (threshold : Q) (min_consecutive_matches : Z)
         (todo : list segment_hit) (state : search_state)
  : result search_state :=
  match todo with
  | [] => Ok state
  | m :: rest =>
      sequence <- _build_match_sequence (slice_from query_segments i)
                    db_segments (hit_timestamp m) threshold ;;
      state' <-
        (if min_consecutive_matches <=? len sequence then
           match np_mean (map similarity sequence) with
           | None => Ok state
           | Some avg_sim =>
               let score := (avg_sim * inject_Z (len sequence))%Q in
               if Qlt_bool (snd state) score then
                 first <- getitem sequence 0 ;;
                 last <- getitem sequence (-1) ;;
                 Ok (Some (mkBestMatch video_id sequence
                             (db_timestamp first)
                             (db_timestamp last + entry_duration last)
                             avg_sim (len sequence)),
                     score)
               else Ok state
           end
         else Ok state) ;;
      match_loop video_id query_segments db_segments i threshold
        min_consecutive_matches rest state'
  end.

(** Lines 163-198: the loop over the query segments. *)
Fixpoint query_loop (video_id : string)
         (query_segments db_segments : list segment)
         (threshold : Q) (min_consecutive_matches : Z)
         (todo : list (Z * segment)) (state : search_state)
  : result search_state :=
  match todo with
  | [] => Ok state
  | (i, query_seg) :: rest =>
      match get_text query_seg with
      | None =>
          query_loop video_id query_segments db_segments threshold
            min_consecutive_matches rest state
      | Some q_text =>
          let matches :=
            find_matching_segments q_text db_segments threshold 10 in
          state' <- match_loop video_id query_segments db_segments i
                      threshold min_consecutive_matches matches state ;;
          query_loop video_id query_segments db_segments threshold
            min_consecutive_matches rest state'
      end
  end.

(** Lines 161-198: the loop over [database.items()]. *)
Fixpoint database_loop (query_segments : list segment)
         (threshold : Q) (min_consecutive_matches : Z)
         (todo : list (string * list segment)) (state : search_state)
  : result search_state :=
  match todo with
  | [] => Ok state
  | (video_id, db_segments) :: rest =>
      state' <- query_loop video_id query_segments db_segments threshold
                  min_consecutive_matches (enumerate query_segments) state ;;
      database_loop query_segments threshold min_consecutive_matches
        rest state'
  end.

(** [find_best_match_in_database], lines 122-211: the best match and
    the confidence it is given, or [None]. *)
Definition find_best_match_in_database (query_segments : list segment)
           (database : list (string * list segment))
           (threshold : Q) (min_consecutive_matches : Z)
  : result (option (best_match * HybridVerifier.confidence_level)) :=
  state <- database_loop query_segments threshold min_consecutive_matches
             database (None, 0%Q) ;;
  match fst state with
  | Some m => Ok (Some (m, classify m))
  | None => Ok None
  end.
End Model.

End TextMatcher.

(* ================================================================== *)
(** * src/hybrid_verification.py: HybridVerifier.verify_clip *)
(* ================================================================== *)

Module HybridPipeline.
Import AudioTranscriber.

Definition TEXT_SIMILARITY_THRESHOLD : Q := 75 # 100.
Definition MIN_CONSECUTIVE_MATCHES : Z := 2.

(** The keys of a database video [verify_clip] reads. *)
Record db_video : Type := mkDbVideo {
  ipfs_cid : string;
  title : option string;
  transcripts : option (list segment);
  fingerprints : option (list HybridVerifier.embedding)
}.

(** [text_database[video_id] = ...]: a key already present keeps its
    place. *)
Fixpoint dict_set (d : list (string * list segment)) (key : string)
         (value : list segment) : list (string * list segment) :=
  match d with
  | [] => [(key, value)]
  | (k, v) :: d' => if String.eqb k key then (k, value) :: d'
                    else (k, v) :: dict_set d' key value
  end.

(** Lines 116-119. *)
Fixpoint build_text_database (db_videos : list db_video)
         (text_database : list (string * list segment))
  : list (string * list segment) :=
  match db_videos with
  | [] => text_database
  | video :: rest =>
      match transcripts video with
      | Some t =>
          build_text_database rest (dict_set text_database (ipfs_cid video) t)
      | None => build_text_database rest text_database
      end
  end.

(** Lines 155-159. *)
Fixpoint find_matched_video (db_videos : list db_video) (video_id : string)
  : option db_video :=
  match db_videos with
  | [] => None
  | video :: rest =>
      if String.eqb (ipfs_cid video) video_id then Some video
      else find_matched_video rest video_id
  end.

(** The fields of the content match the speaker stage reads. *)
Definition as_segment_match (e : TextMatcher.sequence_entry)
  : HybridVerifier.segment_match :=
  HybridVerifier.mkSegmentMatch (TextMatcher.query_timestamp e)
    (TextMatcher.db_timestamp e) (TextMatcher.similarity e).

Definition as_content_match
           (m : TextMatcher.best_match * HybridVerifier.confidence_level)
  : HybridVerifier.content_match :=
  HybridVerifier.mkContentMatch (TextMatcher.video_id (fst m))
    (map as_segment_match (TextMatcher.matches (fst m)))
    (TextMatcher.start_timestamp (fst m))
    (TextMatcher.end_timestamp (fst m))
    (TextMatcher.avg_similarity (fst m))
    (TextMatcher.num_matches (fst m))
    (snd m).

(** What [verify_clip] returns. *)
Inductive response : Type :=
| Failed_to_transcribe_clip
| No_transcripts_in_database
| No_matching_content_found
| Matched_video_not_found
| Judged (matched_video : db_video)
         (content : TextMatcher.best_match)
         (v : HybridVerifier.verdict).

Section Providers.
Variable encode_similarity : string -> string -> Q.

(** [verify_clip], lines 58-264.  [transcribe_video] is the outcome of
    [self.transcriber.transcribe_video(clip_path)], [generate_embeddings]
    that of [self.audio_embedder.generate_embeddings(clip_path)]. *)
Definition verify_clip (transcribe_video : result (list segment))
           (db_videos : list db_video)
           (generate_embeddings : result (list HybridVerifier.embedding))
  : result response :=
  clip_transcripts <- transcribe_video ;;
  if VideoVerifier.is_empty clip_transcripts
  then Ok Failed_to_transcribe_clip
  else
    let text_database := build_text_database db_videos [] in
    if VideoVerifier.is_empty text_database
    then Ok No_transcripts_in_database
    else
      content_match <-
        TextMatcher.find_best_match_in_database encode_similarity
          clip_transcripts text_database TEXT_SIMILARITY_THRESHOLD
          MIN_CONSECUTIVE_MATCHES ;;
      match content_match with
      | None => Ok No_matching_content_found
      | Some cm =>
          match find_matched_video db_videos (TextMatcher.video_id (fst cm))
          with
          | None => Ok Matched_video_not_found
          | Some matched_video =>
              v <- HybridVerifier.verify_speaker_stage (as_content_match cm)
                     (match fingerprints matched_video with
                      | Some f => f
                      | None => []
                      end)
                     generate_embeddings ;;
              Ok (Judged matched_video (fst cm) v)
          end
      end.
End Providers.

End HybridPipeline.

(* ================================================================== *)
(** * Inputs for the transcriber and the text matcher *)
(* ================================================================== *)

Module TranscriptInputs.
Import AudioTranscriber.

(** A video of 70 seconds whose second segment cannot be extracted. *)
Definition seventy_seconds (_ : string) : result Q := Ok 70%Q.
Definition extract_but_second (_ : string) (start_time _ : Q)
  : result string :=
  if Qeq_bool start_time 30 then Raise ProviderError else Ok "segment.mp3"%string.
Definition whisper_says_hello (_ : string) : result string :=
  Ok "hello"%string.
Definition digest (s : string) : string := s.

Definition seg (t : Q) (s : string) : segment :=
  mkSegment (Some t) (Some 30%Q) (Some s) (Some s).

(** Texts are similar when they are equal. *)
Definition same_text (a b : string) : Q :=
  if String.eqb a b then 1%Q else 0%Q.

Definition speech : list segment :=
  [seg 0 "alpha"; seg 30 "beta"; seg 60 "gamma"; seg 90 "delta"].
Definition clip : list segment := [seg 0 "beta"; seg 30 "gamma"].

Definition voice : list HybridVerifier.embedding :=
  [HybridVerifier.mkEmbedding 0 [1%Q]; HybridVerifier.mkEmbedding 30 [1%Q];
   HybridVerifier.mkEmbedding 60 [1%Q]].

Definition speech_video : HybridPipeline.db_video :=
  HybridPipeline.mkDbVideo "QmSpeech" (Some "Speech"%string) (Some speech)
    (Some voice).

End TranscriptInputs.

(* ================================================================== *)
(** * Shapes of text matches *)
(* ================================================================== *)

Module TextShapes.
Import TextMatcher.

(** A best match is built from one non-empty sequence whose entries
    all reach the threshold; its other fields are read off it. *)
Definition built_from_sequence (threshold : Q) (m : best_match) : Prop :=
  matches m <> []
  /\ num_matches m = len (matches m)
  /\ (forall e, In e (matches m) -> (threshold <= similarity e)%Q)
  /\ np_mean (map similarity (matches m)) = Some (avg_similarity m)
  /\ (exists first, nth_error (matches m) 0 = Some first
                    /\ start_timestamp m = db_timestamp first)
  /\ (exists last,
         nth_error (matches m) (List.length (matches m) - 1) = Some last
         /\ end_timestamp m = (db_timestamp last + entry_duration last)%Q).

(** The state of the search: a best score that is not negative and,
    once a best match is recorded, a match of a database video that
    has at least [min_consecutive_matches] entries. *)
Definition search_invariant (keys : list string) (threshold : Q)
           (min_consecutive_matches : Z) (state : search_state) : Prop :=
  (0 <= snd state)%Q
  /\ forall m, fst state = Some m ->
       In (video_id m) keys
       /\ min_consecutive_matches <= num_matches m
       /\ built_from_sequence threshold m.

End TextShapes.

(* ================================================================== *)
(** * Results *)
(* ================================================================== *)

(** ** Python lists *)

Lemma len_nonneg {A : Type} (l : list A) : 0 <= len l.
Proof. unfold len. lia. Qed.

Lemma len_cons {A : Type} (x : A) (l : list A) : len (x :: l) = len l + 1.
Proof. unfold len. cbn [List.length]. lia. Qed.

Lemma getitem_in_range {A : Type} (l : list A) (d : A) (i : nat) :
  (i < List.length l)%nat -> getitem l (Z.of_nat i) = Ok (nth i l d).
Proof.
  intros Hi. unfold getitem, len.
  destruct (Z.of_nat i <? 0) eqn:E1; [apply Z.ltb_lt in E1; lia|].
  rewrite E1. cbn [orb].
  destruct (Z.of_nat (List.length l) <=? Z.of_nat i) eqn:E2;
    [apply Z.leb_le in E2; lia|].
  rewrite Nat2Z.id.
  destruct (nth_error l i) eqn:E3.
  - now rewrite (nth_error_nth _ _ d E3).
  - apply nth_error_None in E3. lia.
Qed.

Lemma getitem_in_range_Z {A : Type} (l : list A) (d : A) (i : Z) :
  0 <= i < len l -> getitem l i = Ok (nth (Z.to_nat i) l d).
Proof.
  intros Hi. rewrite <- (Z2Nat.id i) at 1 by lia.
  apply getitem_in_range. unfold len in Hi. lia.
Qed.

Lemma range_0 (n : nat) : range 0 (Z.of_nat n) = map Z.of_nat (seq 0 n).
Proof.
  unfold range. rewrite Z.sub_0_r, Nat2Z.id. apply map_ext. intros; lia.
Qed.

Lemma count_app (c : ascii) (s1 s2 : string) :
  count c (s1 ++ s2) = count c s1 + count c s2.
Proof.
  induction s1 as [|d s1 IH]; cbn [append count]; [reflexivity|].
  rewrite IH. lia.
Qed.

(** ** Counting the set bits of a fingerprint element *)

Section BitCounting.
Import BitPackedSpec.

Lemma sumZ_cons (x : Z) (l : list Z) : sumZ (x :: l) = x + sumZ l.
Proof. reflexivity. Qed.

Lemma popcount_0 (n : nat) : popcount n 0 = 0.
Proof. induction n as [|n IH]; cbn; [reflexivity | exact IH]. Qed.

Lemma popcount_range (n : nat) (x : Z) : 0 <= popcount n x <= Z.of_nat n.
Proof.
  revert x. induction n as [|n IH]; intros x.
  - cbn. lia.
  - cbn [popcount]. specialize (IH (Z.div2 x)).
    destruct (Z.odd x); cbn [Z.b2z]; lia.
Qed.

Lemma count_bin_digits (p : positive) :
  forall n : nat, Z.pos p < 2 ^ Z.of_nat n ->
    count "1" (bin_digits p) = popcount n (Z.pos p).
Proof.
  induction p as [p IH | p IH |]; intros [|n] Hlt;
    try (cbn in Hlt; lia).
  - cbn [bin_digits popcount]. rewrite count_app, (IH n).
    + change (count "1" "1") with 1.
      change (Z.odd (Z.pos p~1)) with true.
      change (Z.div2 (Z.pos p~1)) with (Z.pos p). cbn [Z.b2z]. lia.
    + rewrite Nat2Z.inj_succ, Z.pow_succ_r in Hlt by lia. lia.
  - cbn [bin_digits popcount]. rewrite count_app, (IH n).
    + change (count "1" "0") with 0.
      change (Z.odd (Z.pos p~0)) with false.
      change (Z.div2 (Z.pos p~0)) with (Z.pos p). cbn [Z.b2z]. lia.
    + rewrite Nat2Z.inj_succ, Z.pow_succ_r in Hlt by lia. lia.
  - cbn [bin_digits popcount]. cbn [Z.odd Z.div2 Z.b2z].
    rewrite popcount_0. reflexivity.
Qed.

(** On a 32-bit value, [bin(x).count('1')] is the number of set bits. *)
Lemma count_bin_word32 (x : Z) :
  word32 x -> count "1" (bin x) = popcount 32 x.
Proof.
  intros [Hlo Hhi]. destruct x as [|p|p]; [reflexivity | | lia].
  cbn [bin]. rewrite count_app.
  rewrite (count_bin_digits p 32) by exact Hhi. reflexivity.
Qed.

Lemma lxor_word32 (x y : Z) : word32 x -> word32 y -> word32 (Z.lxor x y).
Proof.
  intros [Hx0 Hx] [Hy0 Hy]. split.
  - apply Z.lxor_nonneg. lia.
  - destruct (Z.eq_dec (Z.lxor x y) 0) as [E|E]; [rewrite E; lia|].
    assert (H0 : 0 < Z.lxor x y).
    { assert (0 <= Z.lxor x y) by (apply Z.lxor_nonneg; lia). lia. }
    apply Z.log2_lt_pow2; [exact H0|].
    pose proof (Z.log2_lxor x y Hx0 Hy0) as Hl.
    assert (Z.log2 x < 32).
    { destruct (Z.eq_dec x 0) as [->|]; [cbn; lia|].
      apply Z.log2_lt_pow2; lia. }
    assert (Z.log2 y < 32).
    { destruct (Z.eq_dec y 0) as [->|]; [cbn; lia|].
      apply Z.log2_lt_pow2; lia. }
    lia.
Qed.

(** The loop adds 32 to [total_bits] and the bit count of the XOR to
    [different_bits] for every index, and does not raise while the
    indices stay inside both arrays. *)
Lemma bit_loop_seq (arr1 arr2 : list Z) :
  Forall word32 arr1 -> Forall word32 arr2 ->
  forall (k s : nat) (tb db : Z),
    (s + k <= List.length arr1)%nat -> (s + k <= List.length arr2)%nat ->
    VideoVerifier.bit_loop arr1 arr2 (map Z.of_nat (seq s k)) tb db
    = Ok (tb + 32 * Z.of_nat k,
          db + sumZ (map (fun i => popcount 32
                                     (Z.lxor (nth i arr1 0) (nth i arr2 0)))
                         (seq s k))).
Proof.
  intros H1 H2. induction k as [|k IH]; intros s tb db Hs1 Hs2.
  - cbn. f_equal. f_equal; lia.
  - cbn [seq map VideoVerifier.bit_loop].
    rewrite (getitem_in_range arr1 0 s) by lia.
    rewrite (getitem_in_range arr2 0 s) by lia.
    cbn [bind]. rewrite IH by lia.
    rewrite count_bin_word32.
    + rewrite sumZ_cons. f_equal. f_equal; lia.
    + apply lxor_word32.
      * rewrite Forall_forall in H1. apply H1, nth_In. lia.
      * rewrite Forall_forall in H2. apply H2, nth_In. lia.
Qed.

Lemma is_empty_false {A : Type} (l : list A) :
  l <> [] -> VideoVerifier.is_empty l = false.
Proof. destruct l; [congruence | reflexivity]. Qed.

Lemma min_len (a b : list Z) :
  Z.min (len a) (len b)
  = Z.of_nat (Nat.min (List.length a) (List.length b)).
Proof. unfold len. lia. Qed.

(** On non-empty arrays of 32-bit values the code returns the closed
    form, with the very numerator and denominator of the
    specification. *)
Lemma calculate_similarity_closed_form (fp1 fp2 : VideoVerifier.fingerprint) :
  let a := VideoVerifier.fingerprint_array fp1 in
  let b := VideoVerifier.fingerprint_array fp2 in
  a <> [] -> b <> [] -> Forall word32 a -> Forall word32 b ->
  VideoVerifier.calculate_similarity fp1 fp2
  = Ok (1 - inject_Z (differing_bits a b) / inject_Z (total_bits a b))%Q.
Proof.
  intros a b Ha Hb Wa Wb. unfold VideoVerifier.calculate_similarity.
  fold a b.
  rewrite (is_empty_false a Ha), (is_empty_false b Hb). cbn [orb].
  assert (La : (0 < List.length a)%nat)
    by (destruct a; [congruence | cbn; lia]).
  assert (Lb : (0 < List.length b)%nat)
    by (destruct b; [congruence | cbn; lia]).
  rewrite min_len.
  set (n := Nat.min (List.length a) (List.length b)).
  assert (Hn : (0 < n)%nat) by (unfold n; lia).
  destruct (Z.of_nat n =? 0) eqn:E0; [apply Z.eqb_eq in E0; lia|].
  rewrite range_0.
  rewrite (bit_loop_seq a b Wa Wb) by (unfold n; lia).
  cbn [bind]. rewrite !Z.add_0_l.
  destruct (32 * Z.of_nat n =? 0) eqn:E1; [apply Z.eqb_eq in E1; lia|].
  unfold truediv. rewrite E1. cbn [bind].
  unfold differing_bits, total_bits. rewrite min_len. fold n.
  rewrite (Z.mul_comm 32). reflexivity.
Qed.

Lemma popcount_lxor_diag (n : nat) (x : Z) : popcount n (Z.lxor x x) = 0.
Proof. rewrite Z.lxor_nilpotent. apply popcount_0. Qed.

Lemma differing_bits_diag (a : list Z) : differing_bits a a = 0.
Proof.
  unfold differing_bits.
  induction (seq 0 (Nat.min (List.length a) (List.length a))) as [|i l IH].
  - reflexivity.
  - cbn [map]. rewrite sumZ_cons, popcount_lxor_diag, IH. reflexivity.
Qed.

Lemma differing_bits_sym (a b : list Z) :
  differing_bits a b = differing_bits b a.
Proof.
  unfold differing_bits. rewrite (Nat.min_comm (List.length b)).
  f_equal. apply map_ext. intros i. now rewrite Z.lxor_comm.
Qed.

Lemma total_bits_sym (a b : list Z) : total_bits a b = total_bits b a.
Proof. unfold total_bits. now rewrite Z.min_comm. Qed.

Lemma differing_bits_bounded (a b : list Z) :
  0 <= differing_bits a b <= total_bits a b.
Proof.
  unfold differing_bits, total_bits. rewrite min_len.
  generalize (Nat.min (List.length a) (List.length b)) as n. intros n.
  set (f := fun i : nat => popcount 32 (Z.lxor (nth i a 0) (nth i b 0))).
  assert (Hf : forall i, 0 <= f i <= 32).
  { intros i. unfold f.
    pose proof (popcount_range 32 (Z.lxor (nth i a 0) (nth i b 0))) as H.
    change (Z.of_nat 32) with 32 in H. exact H. }
  clearbody f.
  generalize 0%nat as s.
  induction n as [|n IH]; intros s.
  - cbn. lia.
  - cbn [seq map]. rewrite sumZ_cons.
    specialize (IH (S s)). specialize (Hf s). lia.
Qed.
End BitCounting.

(** ** Rationals between 0 and 1 *)

Lemma Q_one_minus_fraction (d t : Z) :
  (0 <= d <= t)%Z -> (0 < t)%Z ->
  (0 <= 1 - inject_Z d / inject_Z t /\ 1 - inject_Z d / inject_Z t <= 1)%Q.
Proof.
  intros [Hd Hdt] Ht.
  assert (Ht' : (0 < inject_Z t)%Q)
    by (change 0%Q with (inject_Z 0); rewrite <- Zlt_Qlt; exact Ht).
  assert (H1 : (inject_Z d / inject_Z t <= 1)%Q).
  { apply Qle_shift_div_r; [exact Ht'|]. rewrite Qmult_1_l.
    rewrite <- Zle_Qle. exact Hdt. }
  assert (H0 : (0 <= inject_Z d / inject_Z t)%Q).
  { apply Qle_shift_div_l; [exact Ht'|]. rewrite Qmult_0_l.
    change 0%Q with (inject_Z 0). rewrite <- Zle_Qle. exact Hd. }
  split; lra.
Qed.

Lemma differences_bounded (h1 h2 : string) :
  0 <= VideoVerifier.differences h1 h2 <= VideoVerifier.strlen h1.
Proof.
  unfold VideoVerifier.strlen. revert h2.
  induction h1 as [|c1 h1 IH]; intros [|c2 h2];
    cbn [VideoVerifier.differences String.length]; try lia.
  specialize (IH h2). destruct (Ascii.eqb c1 c2); lia.
Qed.

Lemma strlen_pos (h : string) : h <> EmptyString -> 0 < VideoVerifier.strlen h.
Proof.
  destruct h; [congruence|]. intros _. unfold VideoVerifier.strlen. cbn. lia.
Qed.

(** ** The bit-packed similarity (C7, C2) *)

Section BitPackedSimilarity.
Import VideoVerifier BitPackedSpec.

(** C7. For non-empty fingerprint arrays [a] and [b] of 32-bit values,
    [calculate_similarity] returns [1 - differing_bits / total_bits],
    where [differing_bits] sums the set bits of [a[i] XOR b[i]] over the
    first [min(len a, len b)] indices and [total_bits] is that minimum
    times 32; the similarity of an array with itself is 1, and the
    similarity is symmetric. *)
Theorem C7_bit_packed_similarity (fp1 fp2 : fingerprint) :
  fingerprint_array fp1 <> [] -> fingerprint_array fp2 <> [] ->
  Forall word32 (fingerprint_array fp1) ->
  Forall word32 (fingerprint_array fp2) ->
  calculate_similarity fp1 fp2
  = Ok (similarity (fingerprint_array fp1) (fingerprint_array fp2))
  /\ (exists s, calculate_similarity fp1 fp1 = Ok s /\ (s == 1)%Q)
  /\ calculate_similarity fp1 fp2 = calculate_similarity fp2 fp1.
Proof.
  intros Ha Hb Wa Wb. split; [|split].
  - apply calculate_similarity_closed_form; assumption.
  - eexists. split.
    + apply calculate_similarity_closed_form; assumption.
    + rewrite differing_bits_diag. unfold Qdiv. rewrite Qmult_0_l. lra.
  - rewrite !calculate_similarity_closed_form by assumption.
    now rewrite differing_bits_sym, total_bits_sym.
Qed.

Lemma C7_witness :
  calculate_similarity (mkFingerprint 0 "p" [7; 8; 9])
                       (mkFingerprint 5 "q" [5; 8])
  = Ok (similarity [7; 8; 9] [5; 8])
  /\ (exists s, calculate_similarity (mkFingerprint 0 "p" [7; 8; 9])
                  (mkFingerprint 0 "p" [7; 8; 9]) = Ok s /\ (s == 1)%Q)
  /\ calculate_similarity (mkFingerprint 0 "p" [7; 8; 9])
                          (mkFingerprint 5 "q" [5; 8])
     = calculate_similarity (mkFingerprint 5 "q" [5; 8])
                            (mkFingerprint 0 "p" [7; 8; 9]).
Proof.
  apply (C7_bit_packed_similarity (mkFingerprint 0 "p" [7; 8; 9])
                                  (mkFingerprint 5 "q" [5; 8])).
  - discriminate.
  - discriminate.
  - repeat constructor; cbn; lia.
  - repeat constructor; cbn; lia.
Defined.

(** An empty fingerprint array does not give 0: the code falls back
    to the hashes, and two chunks without fingerprint carry the same
    hash, hence similarity 1. *)
Lemma C2_counterexample :
  fingerprint_array (Inputs.silent_chunk 0) = []
  /\ exists s, calculate_similarity (Inputs.silent_chunk 0)
                 (Inputs.silent_chunk 5) = Ok s
               /\ (s == 1)%Q /\ ~ (s == 0)%Q.
Proof.
  split; [reflexivity|]. eexists. split; [vm_compute; reflexivity|].
  split; [reflexivity | discriminate].
Qed.

(** C2, as the code has it. On fingerprints whose array elements are 32-bit
    values: with two non-empty arrays, of equal length or not, the
    similarity is returned and lies in [0,1]; when an array is empty
    the hashes are compared instead, giving 0 for hashes of different
    lengths and [1 - differences / len(hash)], again in [0,1], for
    non-empty hashes of one length. *)
Theorem C2_similarity_in_unit_interval (fp1 fp2 : fingerprint) :
  Forall word32 (fingerprint_array fp1) ->
  Forall word32 (fingerprint_array fp2) ->
  (fingerprint_array fp1 <> [] -> fingerprint_array fp2 <> [] ->
   exists s, calculate_similarity fp1 fp2 = Ok s /\ (0 <= s <= 1)%Q)
  /\ (fingerprint_array fp1 = [] \/ fingerprint_array fp2 = [] ->
      strlen (hash fp1) <> strlen (hash fp2) ->
      calculate_similarity fp1 fp2 = Ok 0%Q)
  /\ (fingerprint_array fp1 = [] \/ fingerprint_array fp2 = [] ->
      strlen (hash fp1) = strlen (hash fp2) ->
      hash fp1 <> EmptyString ->
      exists s, calculate_similarity fp1 fp2 = Ok s
                /\ s = (1 - inject_Z (differences (hash fp1) (hash fp2))
                            / inject_Z (strlen (hash fp1)))%Q
                /\ (0 <= s <= 1)%Q).
Proof.
  intros Wa Wb. split; [|split].
  - intros Ha Hb. eexists. split.
    + apply calculate_similarity_closed_form; assumption.
    + apply Q_one_minus_fraction.
      * apply differing_bits_bounded.
      * unfold total_bits.
        assert (0 < len (fingerprint_array fp1))
          by (destruct (fingerprint_array fp1);
              [congruence | rewrite len_cons; pose proof (len_nonneg l); lia]).
        assert (0 < len (fingerprint_array fp2))
          by (destruct (fingerprint_array fp2);
              [congruence | rewrite len_cons; pose proof (len_nonneg l); lia]).
        lia.
  - intros He Hl. unfold calculate_similarity.
    assert (E : is_empty (fingerprint_array fp1)
                || is_empty (fingerprint_array fp2) = true)
      by (destruct He as [-> | ->]; cbn; [|rewrite orb_true_r]; reflexivity).
    rewrite E.
    destruct (strlen (hash fp1) =? strlen (hash fp2)) eqn:El;
      [apply Z.eqb_eq in El; contradiction | reflexivity].
  - intros He Hl Hne. unfold calculate_similarity.
    assert (E : is_empty (fingerprint_array fp1)
                || is_empty (fingerprint_array fp2) = true)
      by (destruct He as [-> | ->]; cbn; [|rewrite orb_true_r]; reflexivity).
    rewrite E. rewrite <- Hl, Z.eqb_refl. cbn [negb].
    pose proof (strlen_pos _ Hne) as Hp.
    unfold truediv.
    destruct (strlen (hash fp1) =? 0) eqn:E0; [apply Z.eqb_eq in E0; lia|].
    cbn [bind]. eexists. split; [reflexivity|]. split; [reflexivity|].
    apply Q_one_minus_fraction; [apply differences_bounded | exact Hp].
Qed.

Lemma C2_witness :
  (exists s, calculate_similarity (mkFingerprint 0 "p" [7; 8; 9])
               (mkFingerprint 5 "q" [5; 8]) = Ok s /\ (0 <= s <= 1)%Q)
  /\ calculate_similarity (mkFingerprint 0 "p" []) (mkFingerprint 5 "qq" [5])
     = Ok 0%Q
  /\ (exists s, calculate_similarity (Inputs.silent_chunk 0)
                  (Inputs.silent_chunk 5) = Ok s /\ (0 <= s <= 1)%Q).
Proof.
  split; [|split].
  - apply (C2_similarity_in_unit_interval (mkFingerprint 0 "p" [7; 8; 9])
                                          (mkFingerprint 5 "q" [5; 8])).
    + repeat constructor; cbn; lia.
    + repeat constructor; cbn; lia.
    + discriminate.
    + discriminate.
  - apply (C2_similarity_in_unit_interval (mkFingerprint 0 "p" [])
                                          (mkFingerprint 5 "qq" [5])).
    + constructor.
    + repeat constructor; cbn; lia.
    + left; reflexivity.
    + discriminate.
  - destruct (C2_similarity_in_unit_interval (Inputs.silent_chunk 0)
                                             (Inputs.silent_chunk 5))
      as [_ [_ H]]; [constructor | constructor |].
    destruct H as [s [Hs [_ Hr]]];
      [left; reflexivity | reflexivity | discriminate |].
    exists s. split; assumption.
Defined.

(** The one input on which the hash fallback divides by zero: two
    dicts with neither a fingerprint nor a hash. *)
Lemma calculate_similarity_no_hash :
  calculate_similarity (mkFingerprint 0 "" []) (mkFingerprint 5 "" [])
  = Raise ZeroDivisionError.
Proof. reflexivity. Qed.
End BitPackedSimilarity.

(** ** The run builder of find_matches (C1, C9) *)

Section RunBuilder.
Import VideoVerifier.

Lemma consecutive_scan_grows clip_fingerprints video_fps clip_idx
      best_match_idx threshold offsets :
  forall c0 t0 c t,
    consecutive_scan clip_fingerprints video_fps clip_idx best_match_idx
      threshold offsets c0 t0 = Ok (c, t) ->
    c0 <= c.
Proof.
  induction offsets as [|offset rest IH]; intros c0 t0 c t H.
  - cbn in H. injection H as <- _. lia.
  - cbn [consecutive_scan] in H.
    destruct (getitem clip_fingerprints (clip_idx + offset)) as [x|];
      [|discriminate H].
    destruct (getitem video_fps (best_match_idx + offset)) as [y|];
      [|discriminate H].
    cbn [bind] in H.
    destruct (calculate_similarity x y) as [s|]; [|discriminate H].
    cbn [bind] in H.
    destruct (Qle_bool threshold s).
    + apply IH in H. lia.
    + injection H as <- _. lia.
Qed.

Lemma enumerate_from_index {A : Type} (l : list A) :
  forall (s i : Z) (x : A),
    In (i, x) (enumerate_from s l) ->
    s <= i < s + len l /\ nth_error l (Z.to_nat (i - s)) = Some x.
Proof.
  induction l as [|y l IH]; intros s i x Hin; [contradiction|].
  cbn [enumerate_from] in Hin. rewrite len_cons.
  pose proof (len_nonneg l) as Hl.
  destruct Hin as [E | Hin].
  - injection E as <- <-. split; [lia|]. now rewrite Z.sub_diag.
  - apply IH in Hin as [Hr Hn]. split; [lia|].
    replace (Z.to_nat (i - s)) with (S (Z.to_nat (i - (s + 1)))) by lia.
    exact Hn.
Qed.

Lemma slice_from_skipn {A : Type} (l : list A) (k : Z) :
  0 <= k -> slice_from l k = skipn (Z.to_nat k) l.
Proof.
  intros Hk. unfold slice_from, clamp.
  destruct (k <? 0) eqn:E; [apply Z.ltb_lt in E; lia|].
  destruct (Z.le_gt_cases k (len l)) as [Hle | Hgt].
  - now rewrite Z.min_l, Z.max_r by lia.
  - rewrite Z.min_r, Z.max_r by (pose proof (len_nonneg l); lia).
    unfold len in *. rewrite Nat2Z.id.
    rewrite skipn_all. symmetry. apply skipn_all2. lia.
Qed.

(** When the loop over the clip records a match at clip index
    [clip_idx] with a run of [k] fingerprints, the clip it hands on is
    the suffix that starts at [clip_idx + k]. *)
Lemma clip_loop_truncates (v : video) (clip : list fingerprint)
      (threshold : Q) (min_consecutive_matches : Z) :
  forall todo m clip',
    (forall i x, In (i, x) todo ->
                 0 <= i < len clip /\ nth_error clip (Z.to_nat i) = Some x) ->
    clip_loop v clip threshold min_consecutive_matches todo
    = Ok (Some (m, clip')) ->
    exists clip_idx clip_fp,
      0 <= clip_idx < len clip
      /\ nth_error clip (Z.to_nat clip_idx) = Some clip_fp
      /\ clip_timestamp m = timestamp clip_fp
      /\ video_id m = id v
      /\ 1 <= fingerprint_matches m
      /\ min_consecutive_matches <= fingerprint_matches m
      /\ clip' = skipn (Z.to_nat (clip_idx + fingerprint_matches m)) clip.
Proof.
  induction todo as [|[clip_idx clip_fp] rest IH]; intros m clip' Hidx H.
  - discriminate H.
  - cbn [clip_loop] in H.
    destruct (best_match_scan clip_fp (enumerate (fingerprints v)) 0 (-1))
      as [[bs bi]|]; [|discriminate H].
    cbn [bind] in H.
    assert (Hrest : forall i x, In (i, x) rest ->
              0 <= i < len clip /\ nth_error clip (Z.to_nat i) = Some x)
      by (intros i x Hi; apply Hidx; now right).
    destruct (Qle_bool threshold bs); [|now apply IH].
    destruct (consecutive_scan clip (fingerprints v) clip_idx bi threshold
                (range 1 (Z.min (len clip - clip_idx)
                                (len (fingerprints v) - bi))) 1 bs)
      as [[c t]|] eqn:Escan; [|discriminate H].
    cbn [bind] in H.
    destruct (min_consecutive_matches <=? c) eqn:Emin; [|now apply IH].
    destruct (getitem (fingerprints v) bi) as [orig|]; [|discriminate H].
    cbn [bind] in H. injection H as <- <-.
    apply consecutive_scan_grows in Escan.
    destruct (Hidx clip_idx clip_fp (or_introl eq_refl)) as [Hr Hn].
    exists clip_idx, clip_fp. cbn.
    assert (Hmin : min_consecutive_matches <= c) by (apply Z.leb_le; exact Emin).
    repeat split; try lia; try assumption.
    apply slice_from_skipn. lia.
Qed.

Lemma enumerate_index {A : Type} (l : list A) (i : Z) (x : A) :
  In (i, x) (enumerate l) ->
  0 <= i < len l /\ nth_error l (Z.to_nat i) = Some x.
Proof.
  intros H. apply enumerate_from_index in H as [Hr Hn].
  rewrite Z.sub_0_r in Hn. split; [lia | exact Hn].
Qed.

Lemma sort_desc_singleton {A : Type} (key : A -> Q) (x : A) :
  sort_desc key [x] = [x].
Proof. reflexivity. Qed.

(** Against a single reference [find_matches] reports at most one run:
    the loop over the clip is left at the first recorded match. *)
Lemma find_matches_single_reference (v : video) (clip : list fingerprint)
      (threshold : Q) (min_consecutive_matches : Z) (ms : list Match) :
  find_matches [v] clip threshold min_consecutive_matches = Ok ms ->
  (List.length ms <= 1)%nat.
Proof.
  unfold find_matches. cbn [video_loop].
  destruct (clip_loop v clip threshold min_consecutive_matches
              (enumerate clip)) as [[[m clip']|]|]; cbn; intros H;
    try discriminate H; injection H as <-; cbn; lia.
Qed.

(** C1, on a clip with two aligned regions. The clip [spliced_clip] has two
    disjoint regions aligned with [original]: clip indices 0-1 with
    reference indices 0-1, and clip indices 2-3 with reference indices
    3-4.  Against this one reference, with threshold 0.85 and a minimum
    run of 2, [find_matches] reports the first run only, although the
    search from the clip index past that run finds the second. *)
Theorem C1_one_run_per_reference :
  (exists m,
     find_matches [Inputs.original] Inputs.spliced_clip (85 # 100) 2 = Ok [m]
     /\ clip_timestamp m = 0%Q /\ original_timestamp m = 200%Q
     /\ fingerprint_matches m = 2)
  /\ (exists m',
        find_matches [Inputs.original] (skipn 2 Inputs.spliced_clip)
          (85 # 100) 2 = Ok [m']
        /\ clip_timestamp m' = 10%Q /\ original_timestamp m' = 800%Q
        /\ fingerprint_matches m' = 2).
Proof.
  split; eexists; (split; [vm_compute; reflexivity|]);
    repeat split; reflexivity.
Qed.


End RunBuilder.

(** ** The gap analysis of the Frankenstein tests (C4) *)

Section SpliceAnalysis.
Import VideoVerifier FrankensteinTests.

Lemma Qlt_bool_true (x y : Q) : Qlt_bool x y = true <-> (x < y)%Q.
Proof.
  unfold Qlt_bool. rewrite negb_true_iff. split.
  - intros H. apply Qnot_le_lt. intros Hle.
    apply Qle_bool_iff in Hle. congruence.
  - intros H. destruct (Qle_bool y x) eqn:E; [|reflexivity].
    apply Qle_bool_iff in E. lra.
Qed.

Lemma Qlt_bool_false (x y : Q) : Qlt_bool x y = false <-> (y <= x)%Q.
Proof.
  unfold Qlt_bool. rewrite negb_false_iff. apply Qle_bool_iff.
Qed.

(** [max_from] returns an upper bound of its arguments ... *)
Lemma max_from_upper (rest : list Q) :
  forall best, (best <= max_from best rest)%Q
               /\ forall x, In x rest -> (x <= max_from best rest)%Q.
Proof.
  induction rest as [|y rest IH]; intros best; cbn [max_from].
  - split; [lra | contradiction].
  - destruct (Qlt_bool best y) eqn:E.
    + apply Qlt_bool_true in E. destruct (IH y) as [H1 H2]. split; [lra|].
      intros x [<- | Hx]; [exact H1 | now apply H2].
    + apply Qlt_bool_false in E. destruct (IH best) as [H1 H2]. split; [lra|].
      intros x [<- | Hx]; [lra | now apply H2].
Qed.

(** ... that is one of them. *)
Lemma max_from_attained (rest : list Q) :
  forall best, max_from best rest = best \/ In (max_from best rest) rest.
Proof.
  induction rest as [|y rest IH]; intros best; cbn [max_from].
  - now left.
  - destruct (Qlt_bool best y).
    + destruct (IH y) as [-> | H]; right; [now left | now right].
    + destruct (IH best) as [-> | H]; [now left | right; now right].
Qed.

Lemma in_gaps (timestamps : list Q) (g : Q) :
  In g (gaps timestamps) <->
  exists i, (S i < List.length timestamps)%nat
            /\ g = (nth (S i) timestamps 0 - nth i timestamps 0)%Q.
Proof.
  unfold gaps. rewrite in_map_iff. split.
  - intros [i [<- Hi]]. apply in_seq in Hi. exists i. split; [lia | reflexivity].
  - intros [i [Hi ->]]. exists i. split; [reflexivity|]. apply in_seq. lia.
Qed.

Lemma gaps_nonempty (timestamps : list Q) :
  (2 <= List.length timestamps)%nat ->
  exists g rest, gaps timestamps = g :: rest.
Proof.
  intros H. unfold gaps.
  destruct (List.length timestamps - 1)%nat as [|n] eqn:E; [lia|].
  cbn [seq map]. eauto.
Qed.

Lemma analyse_two_or_more (matches : list Match) :
  (2 <= List.length matches)%nat ->
  exists g rest,
    gaps (map original_timestamp matches) = g :: rest
    /\ analyse matches
       = if Qlt_bool 300 (max_from g rest)
         then Ok Editing_detected_via_scattered_timestamps
         else Ok Appears_continuous.
Proof.
  intros H.
  destruct (gaps_nonempty (map original_timestamp matches)) as (g & rest & E);
    [now rewrite length_map|].
  exists g, rest. split; [exact E|].
  unfold analyse.
  destruct matches as [|m1 [|m2 ms]]; cbn in H; try lia.
  cbn [is_empty].
  assert (L : (1 <? len (m1 :: m2 :: ms)) = true)
    by (apply Z.ltb_lt; rewrite !len_cons; pose proof (len_nonneg ms); lia).
  rewrite L, E. cbn [py_max bind].
  destruct (Qlt_bool 300 (max_from g rest)); reflexivity.
Qed.

(** With a single match the script does no gap analysis and does not
    report the clip as continuous. *)
Lemma C4_counterexample :
  analyse [Inputs.match_at 200]
  = Ok Partial_detection_most_segments_rejected
  /\ analyse [Inputs.match_at 200] <> Ok Appears_continuous.
Proof. split; [reflexivity | discriminate]. Qed.

(** C4, as the code has it. The verdict of the test script on the list of matches:
    without a match it reports that nothing matched; with exactly one
    match it does no gap analysis and reports a partial detection; with
    two or more it reports editing exactly when some gap between
    consecutive reference timestamps (the greatest, then) exceeds 300
    seconds, and a continuous clip otherwise.  Reference timestamps
    200, 205, 210 give "appears continuous"; 200, 800, 1400 give
    "editing detected". *)
Theorem C4_splice_verdict (matches : list Match) :
  (matches = [] -> analyse matches = Ok No_false_positive)
  /\ (List.length matches = 1%nat ->
      analyse matches = Ok Partial_detection_most_segments_rejected)
  /\ ((2 <= List.length matches)%nat ->
      (analyse matches = Ok Editing_detected_via_scattered_timestamps <->
       exists i, (S i < List.length matches)%nat
                 /\ (300 < nth (S i) (map original_timestamp matches) 0
                           - nth i (map original_timestamp matches) 0)%Q)
      /\ (analyse matches = Ok Appears_continuous <->
          forall i, (S i < List.length matches)%nat ->
                    (nth (S i) (map original_timestamp matches) 0
                     - nth i (map original_timestamp matches) 0 <= 300)%Q))
  /\ (map original_timestamp matches = [200; 205; 210]%Q ->
      analyse matches = Ok Appears_continuous)
  /\ (map original_timestamp matches = [200; 800; 1400]%Q ->
      analyse matches = Ok Editing_detected_via_scattered_timestamps).
Proof.
  assert (Hgen : (2 <= List.length matches)%nat ->
      (analyse matches = Ok Editing_detected_via_scattered_timestamps <->
       exists i, (S i < List.length matches)%nat
                 /\ (300 < nth (S i) (map original_timestamp matches) 0
                           - nth i (map original_timestamp matches) 0)%Q)
      /\ (analyse matches = Ok Appears_continuous <->
          forall i, (S i < List.length matches)%nat ->
                    (nth (S i) (map original_timestamp matches) 0
                     - nth i (map original_timestamp matches) 0 <= 300)%Q)).
  { intros H2.
    destruct (analyse_two_or_more matches H2) as (g & rest & Eg & Ea).
    rewrite Ea. clear Ea.
    pose proof (max_from_upper rest g) as [Hu1 Hu2].
    pose proof (max_from_attained rest g) as Hat.
    assert (Hin : In (max_from g rest) (gaps (map original_timestamp matches)))
      by (rewrite Eg; destruct Hat as [-> | Hat]; [now left | now right]).
    assert (Hub : forall x, In x (gaps (map original_timestamp matches)) ->
                            (x <= max_from g rest)%Q)
      by (rewrite Eg; intros x [<- | Hx]; [exact Hu1 | now apply Hu2]).
    apply in_gaps in Hin as (i0 & Hi0 & Emax).
    rewrite length_map in Hi0.
    destruct (Qlt_bool 300 (max_from g rest)) eqn:E.
    - apply Qlt_bool_true in E. split; split.
      + intros _. exists i0. split; [exact Hi0 | now rewrite <- Emax].
      + reflexivity.
      + discriminate.
      + intros Hall. specialize (Hall i0 Hi0). rewrite <- Emax in Hall. lra.
    - apply Qlt_bool_false in E. split; split.
      + discriminate.
      + intros (i & Hi & Hgap).
        assert (Hle : (nth (S i) (map original_timestamp matches) 0
                       - nth i (map original_timestamp matches) 0
                       <= max_from g rest)%Q).
        { apply Hub, in_gaps. exists i. split; [now rewrite length_map|].
          reflexivity. }
        lra.
      + intros _ i Hi.
        assert (Hle : (nth (S i) (map original_timestamp matches) 0
                       - nth i (map original_timestamp matches) 0
                       <= max_from g rest)%Q).
        { apply Hub, in_gaps. exists i. split; [now rewrite length_map|].
          reflexivity. }
        lra.
      + reflexivity. }
  split; [|split; [|split; [exact Hgen|split]]].
  - intros ->. reflexivity.
  - intros H. destruct matches as [|m [|m' ms]]; try discriminate H.
    reflexivity.
  - intros E.
    assert (L : List.length matches = 3%nat)
      by (rewrite <- (length_map original_timestamp), E; reflexivity).
    apply Hgen; [lia|]. intros i Hi. rewrite E.
    destruct i as [|[|i]]; cbn [nth]; [lra | lra | lia].
  - intros E.
    assert (L : List.length matches = 3%nat)
      by (rewrite <- (length_map original_timestamp), E; reflexivity).
    apply Hgen; [lia|]. exists 0%nat. split; [lia|]. rewrite E. cbn [nth]. lra.
Qed.

Lemma C4_witness :
  analyse [Inputs.match_at 200; Inputs.match_at 205; Inputs.match_at 210]
  = Ok Appears_continuous
  /\ analyse [Inputs.match_at 200; Inputs.match_at 800; Inputs.match_at 1400]
     = Ok Editing_detected_via_scattered_timestamps
  /\ analyse [Inputs.match_at 200]
     = Ok Partial_detection_most_segments_rejected.
Proof.
  split; [|split].
  - apply (C4_splice_verdict
             [Inputs.match_at 200; Inputs.match_at 205; Inputs.match_at 210]).
    reflexivity.
  - apply (C4_splice_verdict
             [Inputs.match_at 200; Inputs.match_at 800; Inputs.match_at 1400]).
    reflexivity.
  - apply (C4_splice_verdict [Inputs.match_at 200]). reflexivity.
Defined.
End SpliceAnalysis.

(** ** The sliding-window localizer (C6, C10) *)

Section Localizer.
Import SlidingWindowMatcher.

Variable SequenceMatcher_ratio : string -> string -> Q.
Variable similarity_threshold : Q.

(** The loop invariant: the running best is an upper bound of the
    windows seen; it is either the value the loop started from, or the
    similarity of the first window that reaches it. *)
Lemma window_loop_seq (clip_words video_words : list string) :
  forall (k s : nat) (bs : Q) (bp : Z) (bs' : Q) (bp' : Z),
    window_loop SequenceMatcher_ratio clip_words video_words
      (len clip_words) (map Z.of_nat (seq s k)) bs bp = (bs', bp') ->
    (forall i, (s <= i < s + k)%nat ->
               (window_similarity SequenceMatcher_ratio clip_words video_words i <= bs')%Q)
    /\ (bs <= bs')%Q
    /\ ((bs' = bs /\ bp' = bp)
        \/ exists p, bp' = Z.of_nat p /\ (s <= p < s + k)%nat
                     /\ bs' = window_similarity SequenceMatcher_ratio clip_words video_words p
                     /\ (bs < bs')%Q
                     /\ forall i, (s <= i < p)%nat ->
                          (window_similarity SequenceMatcher_ratio clip_words video_words i
                           < bs')%Q).
Proof.
  induction k as [|k IH]; intros s bs bp bs' bp' H.
  - cbn in H. injection H as <- <-.
    split; [intros i Hi; lia|]. split; [lra|]. now left.
  - cbn [seq map window_loop] in H.
    fold (window_similarity SequenceMatcher_ratio clip_words video_words s) in H.
    destruct (Qlt_bool bs (window_similarity SequenceMatcher_ratio clip_words video_words s))
      eqn:E.
    + apply Qlt_bool_true in E.
      apply IH in H as (Hub & Hle & Hcase).
      split; [|split].
      * intros i Hi. destruct (Nat.eq_dec i s) as [->|]; [exact Hle|].
        apply Hub. lia.
      * lra.
      * right. destruct Hcase as [[-> ->] | (p & -> & Hp & -> & Hlt & Hbefore)].
        -- exists s. repeat split; try lia; try assumption;
             intros i Hi; lia.
        -- exists p. repeat split; try lia; try lra;
             intros i Hi; destruct (Nat.eq_dec i s) as [->|];
             [exact Hlt | apply Hbefore; lia].
    + apply Qlt_bool_false in E.
      apply IH in H as (Hub & Hle & Hcase).
      split; [|split].
      * intros i Hi. destruct (Nat.eq_dec i s) as [->|]; [lra|].
        apply Hub. lia.
      * exact Hle.
      * destruct Hcase as [[-> ->] | (p & -> & Hp & -> & Hlt & Hbefore)].
        -- now left.
        -- right. exists p. repeat split; try lia; try lra;
             intros i Hi; destruct (Nat.eq_dec i s) as [->|];
             [lra | apply Hbefore; lia].
Qed.

Lemma window_count (clip_words video_words : list string) :
  len clip_words <= len video_words ->
  range 0 (len video_words - len clip_words + 1)
  = map Z.of_nat
        (seq 0 (S (List.length video_words - List.length clip_words))).
Proof.
  intros H. unfold len in *.
  replace (Z.of_nat (List.length video_words)
           - Z.of_nat (List.length clip_words) + 1)
    with (Z.of_nat (S (List.length video_words - List.length clip_words)))
    by lia.
  apply range_0.
Qed.

Lemma getitem_raises {A : Type} (l : list A) (i : Z) (e : exn) :
  getitem l i = Raise e -> e = IndexError.
Proof.
  unfold getitem.
  destruct (_ || _); [intros H; now injection H|].
  destruct (nth_error _ _); [discriminate | intros H; now injection H].
Qed.

(** The only exception of the localizer is the [IndexError] of a word
    lookup. *)
Lemma find_best_match_raises (clip video : transcription) (e : exn) :
  find_best_match SequenceMatcher_ratio similarity_threshold clip video
  = Raise e -> e = IndexError.
Proof.
  unfold find_best_match, find_best_match_words.
  destruct (_ || _); [discriminate|].
  destruct (_ <? _); [discriminate|].
  destruct (window_loop _ _ _ _ _ _ _) as [bs bp].
  destruct (Qlt_bool bs similarity_threshold); [discriminate|].
  destruct (_ || _); [discriminate|].
  destruct (getitem (words video) bp) eqn:E1;
    [|cbn; intros H; injection H as <-; now apply getitem_raises in E1].
  cbn [bind].
  destruct (getitem (words video) (bp + _ - 1)) eqn:E2;
    [discriminate|cbn; intros H; injection H as <-;
                  now apply getitem_raises in E2].
Qed.


(** With a positive threshold, on a non-empty query no longer than the
    reference: a returned match starts at the smallest offset whose
    window attains the greatest similarity, its word indices lie inside
    the timestamped word list, and its times are read off the first and
    the last word of the window. *)
Lemma find_best_match_words_earliest_maximum
      (clip_words video_words : list string) (video : transcription)
      (m : localized_match) :
  (0 < similarity_threshold)%Q ->
  find_best_match_words SequenceMatcher_ratio similarity_threshold
    clip_words video_words video = Ok (Some m) ->
  exists p : nat,
    start_word_index m = Z.of_nat p
    /\ end_word_index m = Z.of_nat p + len clip_words - 1
    /\ (p <= List.length video_words - List.length clip_words)%nat
    /\ similarity m = window_similarity SequenceMatcher_ratio clip_words video_words p
    /\ (similarity_threshold <= similarity m)%Q
    /\ (forall i, (i <= List.length video_words
                        - List.length clip_words)%nat ->
                  (window_similarity SequenceMatcher_ratio clip_words video_words i
                   <= similarity m)%Q)
    /\ (forall i, (i < p)%nat ->
                  (window_similarity SequenceMatcher_ratio clip_words video_words i
                   < similarity m)%Q)
    /\ 0 <= start_word_index m <= end_word_index m
    /\ end_word_index m < len (words video)
    /\ (exists w, nth_error (words video) p = Some w
                  /\ start_time m = start w)
    /\ (exists w, nth_error (words video)
                    (Z.to_nat (end_word_index m)) = Some w
                  /\ end_time m = end_ w).
Proof.
  intros Hpos. unfold find_best_match_words.
  destruct ((len clip_words =? 0) || (len video_words =? 0)) eqn:E0;
    [discriminate|].
  apply orb_false_iff in E0 as [Ec Ev].
  apply Z.eqb_neq in Ec. apply Z.eqb_neq in Ev.
  pose proof (len_nonneg clip_words) as Hc0.
  destruct (len video_words <? len clip_words) eqn:El; [discriminate|].
  apply Z.ltb_ge in El.
  rewrite window_count by exact El.
  destruct (window_loop _ _ _ _ _ _ _) as [bs bp] eqn:Ew.
  apply window_loop_seq in Ew as (Hub & Hle & Hcase).
  destruct (Qlt_bool bs similarity_threshold) eqn:Et; [discriminate|].
  apply Qlt_bool_false in Et.
  destruct Hcase as [[-> ->] | (p & -> & Hp & Hbs & Hlt & Hbefore)]; [lra|].
  destruct ((len (words video) <=? Z.of_nat p)
            || (len (words video) <=? Z.of_nat p + len clip_words - 1))
    eqn:Er; [discriminate|].
  apply orb_false_iff in Er as [Er1 Er2].
  apply Z.leb_gt in Er1. apply Z.leb_gt in Er2.
  assert (Hp1 : (p < List.length (words video))%nat) by (unfold len in Er1; lia).
  rewrite (getitem_in_range (words video) (mkWord "" 0 0) p Hp1).
  cbn [bind].
  assert (Hp2 : (Z.to_nat (Z.of_nat p + len clip_words - 1)
                 < List.length (words video))%nat)
    by (unfold len in Er2 |- *; lia).
  rewrite (getitem_in_range_Z (words video) (mkWord "" 0 0)
             (Z.of_nat p + len clip_words - 1)) by lia.
  cbn [bind]. intros H. injection H as <-. cbn.
  exists p. repeat split; try lia; try assumption.
  - intros i Hi. apply Hub. lia.
  - intros i Hi. apply Hbefore. lia.
  - exists (nth p (words video) (mkWord "" 0 0)).
    split; [now apply nth_error_nth'|reflexivity].
  - exists (nth (Z.to_nat (Z.of_nat p + len clip_words - 1)) (words video)
                (mkWord "" 0 0)).
    split; [now apply nth_error_nth'|reflexivity].
Qed.


Lemma find_best_match_words_total
      (clip_words video_words : list string) (video : transcription) :
  (0 < similarity_threshold)%Q ->
  exists r, find_best_match_words SequenceMatcher_ratio similarity_threshold
              clip_words video_words video = Ok r.
Proof.
  intros Hpos. unfold find_best_match_words.
  destruct ((len clip_words =? 0) || (len video_words =? 0)) eqn:E0;
    [eauto|].
  apply orb_false_iff in E0 as [Ec _]. apply Z.eqb_neq in Ec.
  pose proof (len_nonneg clip_words) as Hc0.
  destruct (len video_words <? len clip_words) eqn:El; [eauto|].
  apply Z.ltb_ge in El. rewrite window_count by exact El.
  destruct (window_loop _ _ _ _ _ _ _) as [bs bp] eqn:Ew.
  apply window_loop_seq in Ew as (_ & _ & Hcase).
  destruct (Qlt_bool bs similarity_threshold) eqn:Et; [eauto|].
  apply Qlt_bool_false in Et.
  destruct Hcase as [[-> ->] | (p & -> & Hp & Hbs & Hlt & Hbefore)]; [lra|].
  destruct ((len (words video) <=? Z.of_nat p)
            || (len (words video) <=? Z.of_nat p + len clip_words - 1))
    eqn:Er; [eauto|].
  apply orb_false_iff in Er as [Er1 Er2].
  apply Z.leb_gt in Er1. apply Z.leb_gt in Er2.
  assert (Hp1 : (p < List.length (words video))%nat) by (unfold len in Er1; lia).
  rewrite (getitem_in_range (words video) (mkWord "" 0 0) p Hp1).
  cbn [bind].
  assert (Hp2 : (Z.to_nat (Z.of_nat p + len clip_words - 1)
                 < List.length (words video))%nat)
    by (unfold len in Er2 |- *; lia).
  rewrite (getitem_in_range_Z (words video) (mkWord "" 0 0)
             (Z.of_nat p + len clip_words - 1)) by lia.
  cbn [bind]. eauto.
Qed.
End Localizer.

(** The example of the specification: reference words a b c d e, query
    words c d, threshold 0.8. *)
Example localizer_a_b_c_d_e :
  exists m,
    SlidingWindowMatcher.find_best_match Difflib.ratio (8 # 10)
      Inputs.query_c_d Inputs.reference_a_to_e = Ok (Some m)
    /\ SlidingWindowMatcher.start_word_index m = 2
    /\ SlidingWindowMatcher.end_word_index m = 3
    /\ (SlidingWindowMatcher.similarity m == 1)%Q
    /\ SlidingWindowMatcher.matched_text m = "c d"%string.
Proof.
  eexists. split; [vm_compute; reflexivity|].
  repeat split; reflexivity.
Qed.

(** C6, at a threshold of zero. With threshold 0.0, query word
    x and reference words y z, every window has similarity 0, so the
    greatest similarity is 0 and the smallest offset that attains it is
    0; the strict comparison never replaces the initial position -1,
    the threshold test passes, and the match that is returned starts at
    word index -1 and takes its times from the last word of the list. *)
Theorem C6_threshold_zero_offset :
  (SlidingWindowMatcher.window_similarity Difflib.ratio ["x"%string] ["y"%string; "z"%string] 0
   == 0)%Q
  /\ (SlidingWindowMatcher.window_similarity Difflib.ratio ["x"%string] ["y"%string; "z"%string] 1
      == 0)%Q
  /\ exists m,
      SlidingWindowMatcher.find_best_match Difflib.ratio 0
        Inputs.query_x Inputs.reference_y_z = Ok (Some m)
      /\ SlidingWindowMatcher.start_word_index m = -1
      /\ SlidingWindowMatcher.end_word_index m = -1
      /\ (SlidingWindowMatcher.similarity m == 0)%Q
      /\ SlidingWindowMatcher.start_time m = 1%Q
      /\ SlidingWindowMatcher.matched_text m = ""%string.
Proof.
  split; [reflexivity|]. split; [reflexivity|].
  eexists. split; [vm_compute; reflexivity|].
  repeat split; reflexivity.
Qed.

(** C10, at a threshold of zero. With threshold 0.0, query
    word x, reference words y z and an empty timestamped word list, the
    winning position is -1; the range test only compares against the
    length from above, lets -1 through, and the lookup raises
    [IndexError]. *)
Theorem C10_threshold_zero_index_error :
  SlidingWindowMatcher.find_best_match Difflib.ratio 0
    Inputs.query_x Inputs.reference_y_z_no_words = Raise IndexError.
Proof. vm_compute. reflexivity. Qed.

(** ** The /verify endpoint and the hybrid verifier (C3, C5, C8) *)

Section Sorting.
Context {A : Type} (key : A -> Q).

Lemma insert_desc_In (x y : A) (l : list A) :
  In y (insert_desc key x l) <-> y = x \/ In y l.
Proof.
  induction l as [|z l IH]; cbn [insert_desc].
  - cbn. intuition.
  - destruct (Qle_bool (key z) (key x)); cbn [In]; [intuition|].
    rewrite IH. intuition.
Qed.

Lemma sort_desc_In (y : A) (l : list A) :
  In y (sort_desc key l) <-> In y l.
Proof.
  induction l as [|x l IH]; [reflexivity|].
  unfold sort_desc in *. cbn [fold_right].
  rewrite insert_desc_In, IH. cbn. intuition.
Qed.

Lemma sort_desc_nil (l : list A) : sort_desc key l = [] -> l = [].
Proof.
  destruct l as [|x l]; [reflexivity|]. intros H.
  assert (Hin : In x (sort_desc key (x :: l)))
    by (apply sort_desc_In; now left).
  rewrite H in Hin. contradiction.
Qed.
End Sorting.

Section Endpoint.
Import SlidingWindowMatcher ApiServer.

Variable SequenceMatcher_ratio : string -> string -> Q.
Variable extract_audio_segment : string -> Q -> Q -> result string.
Variable audio_to_embedding : string -> result (list Q).


Lemma search_loop_raises (threshold : Q) (clip : transcription) :
  forall videos acc e,
    search_loop SequenceMatcher_ratio threshold clip videos acc = Raise e ->
    e = IndexError.
Proof.
  induction videos as [|v videos IH]; intros acc e H; [discriminate|].
  cbn [search_loop] in H.
  destruct (find_best_match SequenceMatcher_ratio threshold clip v)
    as [[x|]|e'] eqn:E; cbn [bind] in H.
  - now apply IH in H.
  - now apply IH in H.
  - injection H as <-. now apply find_best_match_raises in E.
Qed.

Lemma search_all_videos_raises (threshold : Q) (clip : transcription)
      (videos : list transcription) (e : exn) :
  search_all_videos SequenceMatcher_ratio threshold clip videos = Raise e ->
  e = IndexError.
Proof.
  unfold search_all_videos.
  destruct (search_loop _ _ _ _ _) eqn:E; [discriminate|].
  cbn. intros H. injection H as <-. now apply search_loop_raises in E.
Qed.


Lemma search_all_videos_no_video (threshold : Q) (clip : transcription) :
  search_all_videos SequenceMatcher_ratio threshold clip [] = Ok [].
Proof. reflexivity. Qed.

(** What [verify_speaker] returns when it returns. *)
Lemma verify_speaker_ok clip_path clip_start clip_duration original_path
      original_start original_duration threshold sr :
  SpeakerVerifier.verify_speaker extract_audio_segment audio_to_embedding
    clip_path clip_start clip_duration original_path original_start
    original_duration threshold = Ok sr ->
  SpeakerVerifier.verified sr
  = Qle_bool threshold (SpeakerVerifier.similarity sr)
  /\ SpeakerVerifier.threshold sr = threshold.
Proof.
  unfold SpeakerVerifier.verify_speaker.
  destruct (extract_audio_segment clip_path _ _); [|discriminate].
  cbn [bind].
  destruct (extract_audio_segment original_path _ _); [|discriminate].
  cbn [bind].
  destruct (audio_to_embedding _); [|discriminate]. cbn [bind].
  destruct (audio_to_embedding _); [|discriminate]. cbn [bind].
  destruct (SpeakerVerifier.calculate_similarity _ _); [|discriminate].
  cbn [bind]. intros H. injection H as <-. cbn. split; reflexivity.
Qed.

(** A successful response, unfolded. *)
Lemma verify_clip_ok temp_file_path clip video_files r :
  verify_clip SequenceMatcher_ratio extract_audio_segment audio_to_embedding
    temp_file_path clip video_files = Ok r ->
  exists clip_transcription ms,
    clip = Ok clip_transcription
    /\ video_files <> []
    /\ transcribe_all video_files <> []
    /\ search_all_videos SequenceMatcher_ratio TEXT_THRESHOLD
         clip_transcription (transcribe_all video_files) = Ok ms
    /\ matches r = ms
    /\ best_match r = hd_error ms
    /\ speaker_verification_of r
       = fst (speaker_step extract_audio_segment audio_to_embedding
                temp_file_path (hd_error ms))
    /\ verification_type_of r
       = snd (speaker_step extract_audio_segment audio_to_embedding
                temp_file_path (hd_error ms))
    /\ verified r = verification_type_eqb (verification_type_of r) full.
Proof.
  unfold verify_clip, verify_clip_body.
  destruct clip as [clip_transcription|]; [|discriminate].
  destruct video_files as [|vf video_files]; [discriminate|].
  cbn [VideoVerifier.is_empty].
  destruct (transcribe_all (vf :: video_files)) as [|t ts] eqn:Et;
    [discriminate|].
  cbn [VideoVerifier.is_empty].
  destruct (search_all_videos _ _ _ _) as [ms|e] eqn:Es;
    [|cbn; destruct e; discriminate].
  cbn [bind].
  destruct (speaker_step _ _ _ _) as [sv vt] eqn:Esp.
  intros H. injection H as <-.
  exists clip_transcription, ms. rewrite Esp.
  cbn [verified verification_type_of matches best_match
       speaker_verification_of fst snd].
  repeat split; try discriminate; try reflexivity. exact Es.
Qed.



(** C5, as the code has it. First part: in the endpoint, when a content match was
    found and the speaker check raises, the response is still returned;
    its type is [content_only], it is not verified, and its
    speaker-verification entry records the error under the message
    "Speaker verification failed".  Second part: in the hybrid
    verifier, when no speaker similarity can be computed because the
    clip or the matched video has no embedding, the verdict is returned
    unverified with low confidence, speaker similarity 0.0 and
    [speaker_verified] false, and nothing else. *)
Theorem C5_speaker_failure_degrades temp_file_path clip_transcription
        video_files best rest e :
  search_all_videos SequenceMatcher_ratio TEXT_THRESHOLD clip_transcription
    (transcribe_all video_files) = Ok (best :: rest) ->
  speaker_check extract_audio_segment audio_to_embedding temp_file_path best
  = Raise e ->
  verify_clip SequenceMatcher_ratio extract_audio_segment audio_to_embedding
    temp_file_path (Ok clip_transcription) video_files
  = Ok (mkVerificationResult false content_only (best :: rest) (Some best)
          (Some (mkSpeakerVerification false None None (Some e)
                   Speaker_verification_failed))
          TEXT_THRESHOLD SPEAKER_THRESHOLD)
  /\ forall cm db_embeddings clip_embeddings,
      clip_embeddings = [] \/ db_embeddings = [] ->
      HybridVerifier.verify_speaker_stage cm db_embeddings
        (Ok clip_embeddings)
      = Ok (HybridVerifier.mkVerdict false HybridVerifier.low cm 0 false
              HybridVerifier.SPEAKER_SIMILARITY_THRESHOLD
              (if HybridVerifier.is_high (HybridVerifier.confidence cm)
               then HybridVerifier.Content_matches_speaker_failed
               else HybridVerifier.Weak_match)).
Proof.
  intros Hs Hsp. split.
  - unfold verify_clip, verify_clip_body.
    destruct video_files as [|vf vfs]; [discriminate Hs|].
    cbn [VideoVerifier.is_empty].
    destruct (transcribe_all (vf :: vfs)) as [|t ts] eqn:Et;
      [discriminate Hs|].
    cbn [VideoVerifier.is_empty]. rewrite Hs. cbn [bind hd_error].
    unfold speaker_step. rewrite Hsp. reflexivity.
  - intros cm db clip_embs Hno.
    unfold HybridVerifier.verify_speaker_stage. cbn [bind].
    assert (Hloop : forall todo acc,
               HybridVerifier.speaker_loop clip_embs db todo acc = Ok acc).
    { induction todo as [|m todo IH]; intros acc; [reflexivity|].
      cbn [HybridVerifier.speaker_loop].
      destruct Hno as [-> | ->]; cbn [HybridVerifier._find_embedding_at_time].
      - apply IH.
      - destruct (HybridVerifier._find_embedding_at_time clip_embs _);
          apply IH. }
    rewrite Hloop. cbn [bind VideoVerifier.is_empty].
    destruct (HybridVerifier.confidence cm); reflexivity.
Qed.

(** C3, as the code has it. [find_matches] on an empty database returns the empty
    list, as it does when no reference matches.  The endpoint answers
    404 when the video directory is empty and only then, and a
    response without matches, which needs at least one reference, is
    a successful [not_verified] one. *)
Theorem C3_no_references temp_file_path :
  (forall clip threshold min_consecutive_matches,
      VideoVerifier.find_matches [] clip threshold min_consecutive_matches
      = Ok [])
  /\ (forall clip_transcription,
         verify_clip SequenceMatcher_ratio extract_audio_segment
           audio_to_embedding temp_file_path (Ok clip_transcription) []
         = Raise (HTTPException 404))
  /\ (forall clip video_files,
         verify_clip SequenceMatcher_ratio extract_audio_segment
           audio_to_embedding temp_file_path clip video_files
         = Raise (HTTPException 404) ->
         video_files = [])
  /\ (forall clip video_files r,
         verify_clip SequenceMatcher_ratio extract_audio_segment
           audio_to_embedding temp_file_path clip video_files = Ok r ->
         matches r = [] ->
         video_files <> [] /\ verification_type_of r = not_verified).
Proof.
  split; [reflexivity|]. split; [reflexivity|]. split.
  - intros clip video_files. unfold verify_clip, verify_clip_body.
    destruct clip as [ct|]; [|discriminate].
    destruct video_files as [|vf vfs]; [reflexivity|].
    cbn [VideoVerifier.is_empty].
    destruct (transcribe_all (vf :: vfs)) as [|t ts]; [discriminate|].
    cbn [VideoVerifier.is_empty].
    destruct (search_all_videos _ _ _ _) as [ms|e] eqn:Es.
    + cbn [bind]. destruct (speaker_step _ _ _ _). discriminate.
    + apply search_all_videos_raises in Es. subst e. discriminate.
  - intros clip video_files r H Hm.
    apply verify_clip_ok in H
      as (ct & ms & _ & Hne & _ & _ & Hms & _ & _ & Ht & _).
    split; [exact Hne|]. rewrite Ht. rewrite Hm in Hms. subst ms.
    reflexivity.
Qed.
End Endpoint.


Lemma C5_witness :
  exists best,
    ApiServer.verify_clip Difflib.ratio Inputs.ffmpeg_fails Inputs.same_voice
      "/tmp/clip.mp4" (Ok Inputs.query_c_d) [Ok Inputs.reference_a_to_e]
    = Ok (ApiServer.mkVerificationResult false ApiServer.content_only
            [best] (Some best)
            (Some (ApiServer.mkSpeakerVerification false None None
                     (Some ProviderError)
                     ApiServer.Speaker_verification_failed))
            ApiServer.TEXT_THRESHOLD ApiServer.SPEAKER_THRESHOLD).
Proof.
  eexists.
  apply (C5_speaker_failure_degrades Difflib.ratio Inputs.ffmpeg_fails
           Inputs.same_voice "/tmp/clip.mp4" Inputs.query_c_d
           [Ok Inputs.reference_a_to_e] _ [] ProviderError).
  - vm_compute. reflexivity.
  - reflexivity.
Defined.

Lemma C3_witness :
  ApiServer.verify_clip Difflib.ratio Inputs.ffmpeg_ok Inputs.same_voice
    "/tmp/clip.mp4" (Ok Inputs.query_x) []
  = Raise (HTTPException 404)
  /\ exists r,
      ApiServer.verify_clip Difflib.ratio Inputs.ffmpeg_ok Inputs.same_voice
        "/tmp/clip.mp4" (Ok Inputs.query_x) [Ok Inputs.reference_a_to_e]
      = Ok r
      /\ ApiServer.verification_type_of r = ApiServer.not_verified.
Proof.
  destruct (C3_no_references Difflib.ratio Inputs.ffmpeg_ok Inputs.same_voice
              "/tmp/clip.mp4") as (_ & H404 & _ & Hnone).
  split; [apply H404|].
  eexists. split; [vm_compute; reflexivity|].
  apply (Hnone (Ok Inputs.query_x) [Ok Inputs.reference_a_to_e]);
    vm_compute; reflexivity.
Defined.

(** On an empty database and on a database without the clip,
    [find_matches] returns one and the same value. *)
Lemma C3_counterexample :
  VideoVerifier.find_matches [] [Inputs.fpA 0; Inputs.fpB 5] (85 # 100) 2
  = VideoVerifier.find_matches [Inputs.video_two]
      [Inputs.fpA 0; Inputs.fpB 5] (85 # 100) 2
  /\ VideoVerifier.find_matches [Inputs.video_two]
       [Inputs.fpA 0; Inputs.fpB 5] (85 # 100) 2 = Ok [].
Proof. split; vm_compute; reflexivity. Qed.

(** In the hybrid verifier a clip without embeddings gets, field by
    field, the verdict of a clip whose speaker similarity was computed
    and found to be 0, and a failing embedding provider makes the whole
    call raise. *)
Lemma C5_counterexample :
  (exists v1 v2,
      HybridVerifier.verify_speaker_stage Inputs.found_content
        [HybridVerifier.mkEmbedding 120 [(-1)%Q; 0%Q]] (Ok []) = Ok v1
      /\ HybridVerifier.verify_speaker_stage Inputs.found_content
           [HybridVerifier.mkEmbedding 120 [(-1)%Q; 0%Q]]
           (Ok [HybridVerifier.mkEmbedding 0 [1%Q; 0%Q]]) = Ok v2
      /\ (exists s,
             HybridVerifier.speaker_loop
               [HybridVerifier.mkEmbedding 0 [1%Q; 0%Q]]
               [HybridVerifier.mkEmbedding 120 [(-1)%Q; 0%Q]]
               (firstn 5 (HybridVerifier.matches Inputs.found_content)) []
             = Ok [s])
      /\ HybridVerifier.verified v1 = HybridVerifier.verified v2
      /\ HybridVerifier.final_confidence v1
         = HybridVerifier.final_confidence v2
      /\ HybridVerifier.content v1 = HybridVerifier.content v2
      /\ (HybridVerifier.speaker_similarity v1
          == HybridVerifier.speaker_similarity v2)%Q
      /\ HybridVerifier.speaker_verified v1
         = HybridVerifier.speaker_verified v2
      /\ HybridVerifier.speaker_threshold v1
         = HybridVerifier.speaker_threshold v2
      /\ HybridVerifier.explained v1 = HybridVerifier.explained v2)
  /\ HybridVerifier.verify_speaker_stage Inputs.found_content
       [HybridVerifier.mkEmbedding 120 [(-1)%Q; 0%Q]] (Raise ProviderError)
     = Raise ProviderError.
Proof.
  split; [|reflexivity].
  do 2 eexists. split; [vm_compute; reflexivity|].
  split; [vm_compute; reflexivity|].
  split; [eexists; vm_compute; reflexivity|].
  repeat split; reflexivity.
Qed.

(* ================================================================== *)
(** * Further results on verification.py *)
(* ================================================================== *)

Section FingerprintSimilarity.
Import VideoVerifier.

Lemma differences_sym (h1 h2 : string) :
  differences h1 h2 = differences h2 h1.
Proof.
  revert h2. induction h1 as [|c1 h1 IH]; intros [|c2 h2];
    cbn [differences]; try reflexivity.
  rewrite IH, (Ascii.eqb_sym c1 c2). reflexivity.
Qed.

(** The bit loop does not depend on the order of its two arrays, also
    when an index falls outside one of them. *)
Lemma bit_loop_sym (arr1 arr2 : list Z) (idxs : list Z) :
  forall tb db, bit_loop arr1 arr2 idxs tb db = bit_loop arr2 arr1 idxs tb db.
Proof.
  induction idxs as [|i rest IH]; intros tb db; [reflexivity|].
  cbn [bit_loop].
  destruct (getitem arr1 i) as [x|e1] eqn:E1;
    destruct (getitem arr2 i) as [y|e2] eqn:E2; cbn [bind].
  - rewrite (Z.lxor_comm y x). apply IH.
  - reflexivity.
  - reflexivity.
  - apply getitem_raises in E1. apply getitem_raises in E2. congruence.
Qed.

(** Inside both arrays the bit loop returns, with 32 bits counted per
    index. *)
Lemma bit_loop_returns (arr1 arr2 : list Z) :
  forall (k s : nat) (tb db : Z),
    (s + k <= List.length arr1)%nat -> (s + k <= List.length arr2)%nat ->
    exists db', bit_loop arr1 arr2 (map Z.of_nat (seq s k)) tb db
                = Ok (tb + 32 * Z.of_nat k, db').
Proof.
  induction k as [|k IH]; intros s tb db H1 H2.
  - exists db. cbn. do 2 f_equal. lia.
  - cbn [seq map bit_loop].
    rewrite (getitem_in_range arr1 0 s) by lia.
    rewrite (getitem_in_range arr2 0 s) by lia.
    cbn [bind].
    destruct (IH (S s) (tb + 32)
                 (db + count "1" (bin (Z.lxor (nth s arr1 0) (nth s arr2 0)))))
      as [db' E]; try lia.
    exists db'. rewrite E. do 2 f_equal. lia.
Qed.

Lemma calculate_similarity_raise_cases (fp1 fp2 : fingerprint) (e : exn) :
  calculate_similarity fp1 fp2 = Raise e <->
  e = ZeroDivisionError
  /\ (fingerprint_array fp1 = [] \/ fingerprint_array fp2 = [])
  /\ hash fp1 = EmptyString /\ hash fp2 = EmptyString.
Proof.
  unfold calculate_similarity.
  destruct (is_empty (fingerprint_array fp1)
            || is_empty (fingerprint_array fp2)) eqn:Eempty.
  - assert (Hemp : fingerprint_array fp1 = [] \/ fingerprint_array fp2 = []).
    { apply orb_true_iff in Eempty as [H|H]; [left|right];
        (destruct (fingerprint_array _); [reflexivity | discriminate H]). }
    destruct (strlen (hash fp1) =? strlen (hash fp2)) eqn:El; cbn [negb].
    + apply Z.eqb_eq in El. unfold truediv.
      destruct (strlen (hash fp1) =? 0) eqn:E0; cbn [bind].
      * apply Z.eqb_eq in E0.
        assert (H1 : hash fp1 = EmptyString)
          by (unfold strlen in E0; destruct (hash fp1);
              [reflexivity | cbn in E0; lia]).
        assert (H2 : hash fp2 = EmptyString)
          by (rewrite E0 in El; unfold strlen in El; destruct (hash fp2);
              [reflexivity | cbn in El; lia]).
        split; [intros H; injection H as <-; auto | reflexivity || idtac].
        intros (-> & _). reflexivity.
      * apply Z.eqb_neq in E0. split; [discriminate|].
        intros (_ & _ & H1 & _). rewrite H1 in E0. now cbn in E0.
    + apply Z.eqb_neq in El. split; [discriminate|].
      intros (_ & _ & H1 & H2). rewrite H1, H2 in El. now cbn in El.
  - apply orb_false_iff in Eempty as [E1 E2].
    assert (N1 : fingerprint_array fp1 <> [])
      by (intros H; rewrite H in E1; discriminate E1).
    assert (N2 : fingerprint_array fp2 <> [])
      by (intros H; rewrite H in E2; discriminate E2).
    rewrite min_len.
    set (n := Nat.min (List.length (fingerprint_array fp1))
                      (List.length (fingerprint_array fp2))).
    destruct (Z.of_nat n =? 0) eqn:E0;
      [split; [discriminate | intros (_ & [H|H] & _); contradiction]|].
    apply Z.eqb_neq in E0. rewrite range_0.
    destruct (bit_loop_returns (fingerprint_array fp1) (fingerprint_array fp2)
                n 0 0 0) as [db' Eloop]; try (unfold n; lia).
    rewrite Eloop. cbn [bind]. rewrite Z.add_0_l.
    destruct (32 * Z.of_nat n =? 0) eqn:E32;
      [apply Z.eqb_eq in E32; lia|].
    unfold truediv. rewrite E32. cbn [bind].
    split; [discriminate | intros (_ & [H|H] & _); contradiction].
Qed.

(** X1. [calculate_similarity] raises in one situation only: a
    fingerprint array is empty and both hashes are empty strings; the
    exception is then [ZeroDivisionError].  On every other pair of
    fingerprint dicts, whatever the integers in the arrays, it returns
    a number. *)
Theorem calculate_similarity_raises_iff (fp1 fp2 : fingerprint) (e : exn) :
  calculate_similarity fp1 fp2 = Raise e <->
  e = ZeroDivisionError
  /\ (fingerprint_array fp1 = [] \/ fingerprint_array fp2 = [])
  /\ hash fp1 = EmptyString /\ hash fp2 = EmptyString.
Proof. apply calculate_similarity_raise_cases. Qed.

(** X2. [calculate_similarity] is symmetric on all inputs: on the bit
    comparison, on the hash fallback, and when it raises. *)
Theorem calculate_similarity_symmetric (fp1 fp2 : fingerprint) :
  calculate_similarity fp1 fp2 = calculate_similarity fp2 fp1.
Proof.
  unfold calculate_similarity.
  rewrite (orb_comm (is_empty (fingerprint_array fp2))).
  destruct (is_empty (fingerprint_array fp1)
            || is_empty (fingerprint_array fp2)).
  - rewrite (Z.eqb_sym (strlen (hash fp2))).
    destruct (strlen (hash fp1) =? strlen (hash fp2)) eqn:El; cbn [negb];
      [|reflexivity].
    apply Z.eqb_eq in El. rewrite <- El, (differences_sym (hash fp2)).
    reflexivity.
  - rewrite (Z.min_comm (len (fingerprint_array fp2))).
    rewrite (bit_loop_sym (fingerprint_array fp2)). reflexivity.
Qed.
End FingerprintSimilarity.

Section MatchList.
Import VideoVerifier.

Lemma range_length (lo hi : Z) :
  List.length (range lo hi) = Z.to_nat (hi - lo).
Proof. unfold range. now rewrite length_map, length_seq. Qed.

(** The run grows by at most one per offset, and its summed similarity
    stays at or above the threshold times its length. *)
Lemma consecutive_scan_bounds clip_fingerprints video_fps clip_idx
      best_match_idx threshold offsets :
  forall c0 t0 c t,
    consecutive_scan clip_fingerprints video_fps clip_idx best_match_idx
      threshold offsets c0 t0 = Ok (c, t) ->
    (threshold * inject_Z c0 <= t0)%Q ->
    c0 <= c <= c0 + len offsets
    /\ (threshold * inject_Z c <= t)%Q.
Proof.
  induction offsets as [|offset rest IH]; intros c0 t0 c t H Ht.
  - cbn in H. injection H as <- <-. unfold len. cbn. split; [lia | exact Ht].
  - cbn [consecutive_scan] in H. rewrite len_cons.
    pose proof (len_nonneg rest) as Hr.
    destruct (getitem clip_fingerprints (clip_idx + offset)) as [x|];
      [|discriminate H].
    destruct (getitem video_fps (best_match_idx + offset)) as [y|];
      [|discriminate H].
    cbn [bind] in H.
    destruct (calculate_similarity x y) as [s|]; [|discriminate H].
    cbn [bind] in H.
    destruct (Qle_bool threshold s) eqn:Es.
    + apply Qle_bool_iff in Es. apply IH in H as [Hc Hq].
      * split; [lia | exact Hq].
      * rewrite inject_Z_plus. change (inject_Z 1) with 1%Q. lra.
    + injection H as <- <-. split; [lia | exact Ht].
Qed.

(** What a recorded run looks like. *)
Lemma clip_loop_run (v : video) (clip : list fingerprint)
      (threshold : Q) (min_consecutive_matches : Z) :
  forall todo m clip',
    (forall i x, In (i, x) todo -> 0 <= i < len clip) ->
    clip_loop v clip threshold min_consecutive_matches todo
    = Ok (Some (m, clip')) ->
    video_id m = id v /\ video_title m = title v
    /\ 1 <= fingerprint_matches m
    /\ min_consecutive_matches <= fingerprint_matches m
    /\ (threshold <= confidence m)%Q
    /\ len clip' + fingerprint_matches m <= len clip.
Proof.
  induction todo as [|[clip_idx clip_fp] rest IH]; intros m clip' Hidx H.
  - discriminate H.
  - cbn [clip_loop] in H.
    destruct (best_match_scan clip_fp (enumerate (fingerprints v)) 0 (-1))
      as [[bs bi]|]; [|discriminate H].
    cbn [bind] in H.
    assert (Hrest : forall i x, In (i, x) rest -> 0 <= i < len clip)
      by (intros i x Hi; apply (Hidx i x); now right).
    destruct (Qle_bool threshold bs) eqn:Ebs; [|now apply IH].
    apply Qle_bool_iff in Ebs.
    destruct (consecutive_scan clip (fingerprints v) clip_idx bi threshold
                (range 1 (Z.min (len clip - clip_idx)
                                (len (fingerprints v) - bi))) 1 bs)
      as [[c t]|] eqn:Escan; [|discriminate H].
    cbn [bind] in H.
    destruct (min_consecutive_matches <=? c) eqn:Emin; [|now apply IH].
    apply Z.leb_le in Emin.
    destruct (getitem (fingerprints v) bi) as [orig|]; [|discriminate H].
    cbn [bind] in H. injection H as <- <-.
    apply consecutive_scan_bounds in Escan as [[Hc1 Hc2] Hq];
      [|change (inject_Z 1) with 1%Q; lra].
    unfold len at 1 in Hc2. rewrite range_length in Hc2.
    pose proof (Hidx clip_idx clip_fp (or_introl eq_refl)) as Hr.
    cbn [video_id video_title fingerprint_matches confidence].
    repeat split; try lia.
    + apply Qle_shift_div_l; [|exact Hq].
      change 0%Q with (inject_Z 0). rewrite <- Zlt_Qlt. lia.
    + rewrite slice_from_skipn by lia. unfold len in *.
      rewrite length_skipn. lia.
Qed.

Lemma total_fingerprint_matches_app (l1 l2 : list Match) :
  Measures.total_fingerprint_matches (l1 ++ l2)
  = Measures.total_fingerprint_matches l1
    + Measures.total_fingerprint_matches l2.
Proof.
  unfold Measures.total_fingerprint_matches.
  induction l1 as [|m l1 IH]; cbn [app fold_right]; [reflexivity|].
  rewrite IH. lia.
Qed.

(** The loop over the database: what it appends to the matches found so
    far. *)
Lemma video_loop_appends (threshold : Q) (min_consecutive_matches : Z) :
  forall all_videos clip acc ms,
    video_loop all_videos clip threshold min_consecutive_matches acc
    = Ok ms ->
    exists found,
      ms = acc ++ found
      /\ (List.length found <= List.length all_videos)%nat
      /\ Measures.total_fingerprint_matches found <= len clip
      /\ forall m, In m found ->
           (exists v, In v all_videos
                      /\ video_id m = id v /\ video_title m = title v)
           /\ 1 <= fingerprint_matches m
           /\ min_consecutive_matches <= fingerprint_matches m
           /\ (threshold <= confidence m)%Q.
Proof.
  induction all_videos as [|v rest IH]; intros clip acc ms H.
  - cbn in H. injection H as <-. exists []. rewrite app_nil_r.
    repeat split; try (cbn; lia); try contradiction.
    cbn. apply len_nonneg.
  - cbn [video_loop] in H.
    destruct (clip_loop v clip threshold min_consecutive_matches
                (enumerate clip)) as [[[m clip']|]|] eqn:Ec;
      cbn [bind] in H; [| |discriminate H].
    + apply clip_loop_run in Ec
        as (Hid & Htitle & H1 & Hmin & Hconf & Hlen);
        [|intros i x Hi; now apply enumerate_index in Hi].
      apply IH in H as (found & -> & Hn & Htot & Hall).
      exists (m :: found). rewrite <- app_assoc. cbn [app].
      split; [reflexivity|]. split; [cbn; lia|]. split.
      * cbn [Measures.total_fingerprint_matches fold_right].
        fold (Measures.total_fingerprint_matches found). lia.
      * intros x [<- | Hx].
        -- split; [exists v; split; [now left | now split]|].
           repeat split; assumption.
        -- destruct (Hall x Hx) as ((v' & Hv' & Hv'') & Hrest).
           split; [exists v'; split; [now right | exact Hv'']|exact Hrest].
    + apply IH in H as (found & -> & Hn & Htot & Hall).
      exists found. split; [reflexivity|]. split; [cbn; lia|].
      split; [exact Htot|].
      intros x Hx. destruct (Hall x Hx) as ((v' & Hv' & Hv'') & Hrest).
      split; [exists v'; split; [now right | exact Hv'']|exact Hrest].
Qed.

Section SortDescending.
Context {A : Type} (key : A -> Q).

Lemma insert_desc_perm (x : A) (l : list A) :
  Permutation (insert_desc key x l) (x :: l).
Proof.
  induction l as [|y l IH]; cbn [insert_desc]; [reflexivity|].
  destruct (Qle_bool (key y) (key x)); [reflexivity|].
  rewrite IH. apply perm_swap.
Qed.

Lemma sort_desc_perm (l : list A) : Permutation (sort_desc key l) l.
Proof.
  induction l as [|x l IH]; [reflexivity|].
  unfold sort_desc in *. cbn [fold_right].
  rewrite insert_desc_perm. now constructor.
Qed.

Lemma insert_desc_sorted (x : A) (l : list A) :
  Sorted (Measures.descending key) l ->
  Sorted (Measures.descending key) (insert_desc key x l).
Proof.
  induction l as [|y l IH]; intros Hs; cbn [insert_desc].
  - repeat constructor.
  - destruct (Qle_bool (key y) (key x)) eqn:E.
    + apply Qle_bool_iff in E. constructor; [exact Hs|].
      constructor. exact E.
    + assert (Hlt : (key x < key y)%Q).
      { apply Qnot_le_lt. intros Hle. apply Qle_bool_iff in Hle. congruence. }
      inversion Hs as [|? ? Hs' Hhd]; subst.
      constructor; [now apply IH|].
      destruct l as [|z l]; cbn [insert_desc].
      * constructor. unfold Measures.descending. lra.
      * destruct (Qle_bool (key z) (key x)).
        -- constructor. unfold Measures.descending. lra.
        -- inversion Hhd; subst. now constructor.
Qed.

Lemma descending_transitive :
  forall x y z : A, Measures.descending key x y ->
                    Measures.descending key y z ->
                    Measures.descending key x z.
Proof. unfold Measures.descending. intros x y z H1 H2. lra. Qed.

(** [sort_desc] leaves every element at or above all the elements after
    it. *)
Lemma sort_desc_sorted (l : list A) :
  StronglySorted (Measures.descending key) (sort_desc key l).
Proof.
  apply Sorted_StronglySorted; [exact descending_transitive|].
  induction l as [|x l IH]; [constructor|].
  unfold sort_desc in *. cbn [fold_right]. now apply insert_desc_sorted.
Qed.

Lemma sort_desc_length (l : list A) :
  List.length (sort_desc key l) = List.length l.
Proof. apply Permutation_length, sort_desc_perm. Qed.
End SortDescending.




(** X5. The list [find_matches] returns is in descending order of
    confidence: no match is followed by a more confident one. *)
Theorem find_matches_sorted_by_confidence all_videos clip threshold
        min_consecutive_matches ms :
  find_matches all_videos clip threshold min_consecutive_matches = Ok ms ->
  StronglySorted (Measures.descending confidence) ms.
Proof.
  unfold find_matches.
  destruct (video_loop _ _ _ _ _) as [l|]; [|discriminate].
  cbn [bind]. intros H. injection H as <-. apply sort_desc_sorted.
Qed.

(** A fingerprint with a hash can be compared with any other. *)
Lemma calculate_similarity_with_hash (fp1 fp2 : fingerprint) :
  hash fp1 <> EmptyString ->
  exists s, calculate_similarity fp1 fp2 = Ok s.
Proof.
  intros Hh. destruct (calculate_similarity fp1 fp2) as [s|e] eqn:E;
    [eauto|].
  apply calculate_similarity_raise_cases in E as (_ & _ & H1 & _).
  contradiction.
Qed.

Lemma in_range (lo hi o : Z) : In o (range lo hi) -> lo <= o < hi.
Proof.
  unfold range. rewrite in_map_iff. intros (k & <- & Hk).
  apply in_seq in Hk. lia.
Qed.

Lemma getitem_member {A : Type} (l : list A) (i : Z) :
  0 <= i < len l -> exists x, getitem l i = Ok x /\ In x l.
Proof.
  intros Hi. destruct l as [|d l'] eqn:El; [unfold len in Hi; cbn in Hi; lia|].
  rewrite <- El in *. exists (nth (Z.to_nat i) l d). split.
  - now apply getitem_in_range_Z.
  - apply nth_In. unfold len in Hi. lia.
Qed.

(** The scan for the best reference index returns when no comparison
    raises; it keeps the initial pair or moves to an index of the
    list with a greater similarity. *)
Lemma best_match_scan_returns (clip_fp : fingerprint) :
  hash clip_fp <> EmptyString ->
  forall todo bs bi,
  exists bs' bi',
    best_match_scan clip_fp todo bs bi = Ok (bs', bi')
    /\ ((bs' = bs /\ bi' = bi)
        \/ ((bs < bs')%Q /\ exists fp, In (bi', fp) todo)).
Proof.
  intros Hh. induction todo as [|[video_idx video_fp] rest IH]; intros bs bi.
  - exists bs, bi. split; [reflexivity | now left].
  - cbn [best_match_scan].
    destruct (calculate_similarity_with_hash clip_fp video_fp Hh) as [s Es].
    rewrite Es. cbn [bind].
    destruct (Qlt_bool bs s) eqn:E.
    + apply Qlt_bool_true in E.
      destruct (IH s video_idx) as (bs' & bi' & Hr & Hcase).
      exists bs', bi'. split; [exact Hr|]. right.
      destruct Hcase as [[-> ->] | [Hlt (fp & Hin)]].
      * split; [exact E | exists video_fp; now left].
      * split; [lra | exists fp; now right].
    + destruct (IH bs bi) as (bs' & bi' & Hr & Hcase).
      exists bs', bi'. split; [exact Hr|].
      destruct Hcase as [Hsame | [Hlt (fp & Hin)]]; [now left|].
      right. split; [exact Hlt | exists fp; now right].
Qed.

Lemma consecutive_scan_returns clip video_fps clip_idx best_match_idx
      threshold :
  Forall (fun fp => hash fp <> EmptyString) clip ->
  forall offsets c0 t0,
    (forall o, In o offsets ->
               0 <= clip_idx + o < len clip
               /\ 0 <= best_match_idx + o < len video_fps) ->
    exists c t,
      consecutive_scan clip video_fps clip_idx best_match_idx threshold
        offsets c0 t0 = Ok (c, t).
Proof.
  intros Hclip. induction offsets as [|o rest IH]; intros c0 t0 Hin.
  - exists c0, t0. reflexivity.
  - cbn [consecutive_scan].
    destruct (Hin o (or_introl eq_refl)) as [Hc Hv].
    destruct (getitem_member clip (clip_idx + o) Hc) as (x & -> & Hx).
    destruct (getitem_member video_fps (best_match_idx + o) Hv)
      as (y & -> & _).
    cbn [bind].
    rewrite Forall_forall in Hclip.
    destruct (calculate_similarity_with_hash x y (Hclip x Hx)) as [s ->].
    cbn [bind].
    destruct (Qle_bool threshold s); [|eauto].
    apply IH. intros o' Ho'. apply Hin. now right.
Qed.

Lemma clip_loop_returns (v : video) (clip : list fingerprint)
      (threshold : Q) (min_consecutive_matches : Z) :
  (0 < threshold)%Q ->
  Forall (fun fp => hash fp <> EmptyString) clip ->
  forall todo,
    (forall i x, In (i, x) todo ->
                 0 <= i < len clip /\ nth_error clip (Z.to_nat i) = Some x) ->
    exists r, clip_loop v clip threshold min_consecutive_matches todo = Ok r.
Proof.
  intros Hpos Hclip.
  induction todo as [|[clip_idx clip_fp] rest IH]; intros Hidx; [cbn; eauto|].
  cbn [clip_loop].
  destruct (Hidx clip_idx clip_fp (or_introl eq_refl)) as [Hr Hn].
  assert (Hh : hash clip_fp <> EmptyString).
  { rewrite Forall_forall in Hclip. apply Hclip.
    now apply nth_error_In in Hn. }
  assert (Hrest : forall i x, In (i, x) rest ->
            0 <= i < len clip /\ nth_error clip (Z.to_nat i) = Some x)
    by (intros i x Hi; apply Hidx; now right).
  destruct (best_match_scan_returns clip_fp Hh (enumerate (fingerprints v))
              0%Q (-1)) as (bs & bi & -> & Hcase).
  cbn [bind].
  destruct (Qle_bool threshold bs) eqn:Ebs; [|now apply IH].
  apply Qle_bool_iff in Ebs.
  destruct Hcase as [[-> _] | [_ (fp & Hfp)]]; [lra|].
  apply enumerate_index in Hfp as [Hbi _].
  destruct (consecutive_scan_returns clip (fingerprints v) clip_idx bi
              threshold Hclip
              (range 1 (Z.min (len clip - clip_idx)
                              (len (fingerprints v) - bi))) 1 bs)
    as (c & t & ->).
  { intros o Ho. apply in_range in Ho. lia. }
  cbn [bind].
  destruct (min_consecutive_matches <=? c); [|now apply IH].
  destruct (getitem_member (fingerprints v) bi Hbi) as (orig & -> & _).
  cbn [bind]. eauto.
Qed.

Lemma Forall_skipn {A : Type} (P : A -> Prop) (k : nat) (l : list A) :
  Forall P l -> Forall P (skipn k l).
Proof.
  intros H. rewrite <- (firstn_skipn k l) in H.
  now apply Forall_app in H.
Qed.

(** X6. With a positive threshold, [find_matches] returns a list and
    raises nothing whenever every clip fingerprint carries a hash, as
    the fingerprints AudioFingerprinter builds do. *)
Theorem find_matches_returns all_videos clip threshold
        min_consecutive_matches :
  (0 < threshold)%Q ->
  Forall (fun fp => hash fp <> EmptyString) clip ->
  exists ms,
    find_matches all_videos clip threshold min_consecutive_matches = Ok ms.
Proof.
  intros Hpos Hclip. unfold find_matches.
  assert (Hloop : forall videos clip' acc,
             Forall (fun fp => hash fp <> EmptyString) clip' ->
             exists l, video_loop videos clip' threshold
                         min_consecutive_matches acc = Ok l).
  { induction videos as [|v rest IH]; intros clip' acc Hc; [cbn; eauto|].
    cbn [video_loop].
    destruct (clip_loop_returns v clip' threshold min_consecutive_matches
                Hpos Hc (enumerate clip') (enumerate_index clip'))
      as [r Er].
    rewrite Er. cbn [bind]. destruct r as [[m clip'']|]; [|now apply IH].
    apply clip_loop_truncates in Er
      as (i & x & _ & _ & _ & _ & _ & _ & ->);
      [|exact (enumerate_index clip')].
    apply IH. now apply Forall_skipn. }
  destruct (Hloop all_videos clip [] Hclip) as [l ->]. cbn [bind]. eauto.
Qed.

Lemma find_matches_returns_witness :
  exists ms,
    find_matches [Inputs.original] Inputs.spliced_clip (85 # 100) 2 = Ok ms.
Proof.
  apply (find_matches_returns [Inputs.original] Inputs.spliced_clip
           (85 # 100) 2).
  - reflexivity.
  - repeat constructor; discriminate.
Defined.

(** X7. Two edges of [find_matches].  An empty clip gives the empty
    list against any database.  A non-empty clip, a threshold that is
    not positive, a minimum run of at most 1 and a first video without
    fingerprints make the call raise [IndexError]: nothing beats the
    initial similarity 0.0, the index stays -1, and the lookup of the
    original timestamp fails on the empty list. *)
Theorem find_matches_edges :
  (forall all_videos threshold min_consecutive_matches,
      find_matches all_videos [] threshold min_consecutive_matches = Ok [])
  /\ (forall v rest clip_fp clip threshold min_consecutive_matches,
         fingerprints v = [] ->
         (threshold <= 0)%Q ->
         min_consecutive_matches <= 1 ->
         find_matches (v :: rest) (clip_fp :: clip) threshold
           min_consecutive_matches = Raise IndexError).
Proof.
  split.
  - intros all_videos threshold mcm. unfold find_matches.
    assert (H : video_loop all_videos [] threshold mcm [] = Ok [])
      by (induction all_videos as [|v rest IH]; [reflexivity | exact IH]).
    rewrite H. reflexivity.
  - intros v rest clip_fp clip threshold mcm Hv Hthr Hmin.
    unfold find_matches. cbn [video_loop enumerate enumerate_from clip_loop].
    rewrite Hv. cbn [enumerate enumerate_from best_match_scan bind].
    assert (E : Qle_bool threshold 0 = true) by now apply Qle_bool_iff.
    rewrite E.
    assert (Er : range 1 (Z.min (len (clip_fp :: clip) - 0) (len (@nil fingerprint) - -1))
                 = []).
    { unfold range. rewrite len_cons. pose proof (len_nonneg clip).
      replace (Z.to_nat _) with 0%nat; [reflexivity|].
      unfold len at 2. cbn [List.length]. lia. }
    rewrite Er. cbn [consecutive_scan bind].
    assert (Em : (mcm <=? 1) = true) by now apply Z.leb_le.
    rewrite Em. reflexivity.
Qed.

Lemma find_matches_edges_witness :
  find_matches [mkVideo "v" "empty" []; Inputs.original]
    Inputs.spliced_clip 0 1 = Raise IndexError.
Proof.
  destruct find_matches_edges as [_ H].
  apply H; [reflexivity | discriminate | lia].
Defined.
End MatchList.



Lemma find_matches_sorted_by_confidence_witness :
  exists ms,
    VideoVerifier.find_matches [Inputs.video_one; Inputs.video_two]
      Inputs.spliced_clip (85 # 100) 2 = Ok ms
    /\ StronglySorted (Measures.descending VideoVerifier.confidence) ms.
Proof.
  eexists. split; [vm_compute; reflexivity|].
  apply (find_matches_sorted_by_confidence
           [Inputs.video_one; Inputs.video_two] Inputs.spliced_clip
           (85 # 100) 2).
  reflexivity.
Defined.

(* ================================================================== *)
(** * Further results on sliding_window_matcher.py *)
(* ================================================================== *)

Section Words.
Import SlidingWindowMatcher Shapes.

Lemma no_space_empty : no_space EmptyString.
Proof. intros c []. Qed.

Lemma no_space_snoc (s : string) (c : ascii) :
  no_space s -> isspace c = false -> no_space (s ++ String c EmptyString).
Proof.
  intros Hs Hc d Hd. induction s as [|e s IH].
  - cbn in Hd. destruct Hd as [<- | []]. exact Hc.
  - cbn in Hd. destruct Hd as [<- | Hd].
    + apply Hs. now left.
    + apply IH; [|exact Hd]. intros x Hx. apply Hs. now right.
Qed.

Lemma snoc_not_empty (s : string) (c : ascii) :
  (s ++ String c EmptyString)%string <> EmptyString.
Proof. destruct s; discriminate. Qed.

Lemma is_empty_string_false (s : string) :
  s <> EmptyString -> is_empty_string s = false.
Proof. destruct s; [congruence | reflexivity]. Qed.

Lemma split_loop_words (text : string) :
  forall current, no_space current ->
    Forall is_word (split_loop text current).
Proof.
  induction text as [|c text IH]; intros current Hcur; cbn [split_loop].
  - destruct current as [|d current]; cbn [is_empty_string];
      [constructor|].
    constructor; [|constructor]. split; [discriminate | exact Hcur].
  - destruct (isspace c) eqn:Ec.
    + destruct current as [|d current]; cbn [is_empty_string].
      * apply IH, no_space_empty.
      * constructor; [split; [discriminate | exact Hcur]|].
        apply IH, no_space_empty.
    + apply IH. now apply no_space_snoc.
Qed.

(** X8. [split_into_words] yields words only: none is empty and none
    contains white space. *)
Theorem split_into_words_words (text : string) :
  Forall is_word (split_into_words text).
Proof. apply split_loop_words, no_space_empty. Qed.

Lemma append_snoc (s : string) (c : ascii) (t : string) :
  ((s ++ String c EmptyString) ++ t)%string = (s ++ String c t)%string.
Proof. induction s as [|d s IH]; cbn; [reflexivity | now rewrite IH]. Qed.

Lemma append_empty_r (s : string) : (s ++ EmptyString)%string = s.
Proof. induction s as [|d s IH]; cbn; [reflexivity | now rewrite IH]. Qed.

(** Reading a stretch without white space moves it into the current
    word. *)
Lemma split_loop_no_space (w : string) :
  no_space w ->
  forall rest current,
    split_loop (w ++ rest) current = split_loop rest (current ++ w).
Proof.
  induction w as [|c w IH]; intros Hw rest current.
  - cbn. now rewrite append_empty_r.
  - cbn [append split_loop].
    rewrite (Hw c (or_introl eq_refl)).
    rewrite IH by (intros d Hd; apply Hw; now right).
    now rewrite append_snoc.
Qed.

Lemma split_join_words (ws : list string) :
  Forall is_word ws -> split_into_words (join ws) = ws.
Proof.
  unfold split_into_words, join.
  induction ws as [|x ws IH]; intros Hws; [reflexivity|].
  inversion Hws as [|? ? [Hne Hns] Hrest]; subst.
  destruct ws as [|y ws].
  - cbn [concat]. rewrite <- (append_empty_r x) at 1.
    rewrite split_loop_no_space by exact Hns.
    cbn [append split_loop]. now rewrite is_empty_string_false.
  - cbn [concat]. rewrite split_loop_no_space by exact Hns.
    cbn [append split_loop].
    change (isspace " ") with true. cbn match.
    rewrite is_empty_string_false by exact Hne.
    f_equal. now apply IH.
Qed.

(** X9. Joining words with single spaces and splitting the text again
    gives the words back; so the text the matcher compares,
    [' '.join(text.split())], splits into the very words of the
    original text. *)
Theorem split_join_round_trip :
  (forall ws, Forall is_word ws -> split_into_words (join ws) = ws)
  /\ (forall text,
         split_into_words (join (split_into_words text))
         = split_into_words text).
Proof.
  split; [exact split_join_words|].
  intros text. apply split_join_words, split_loop_words, no_space_empty.
Qed.

Lemma split_join_round_trip_witness :
  split_into_words (join ["the"; "federal"; "reserve"]%string)
  = ["the"; "federal"; "reserve"]%string.
Proof.
  destruct split_join_round_trip as [H _]. apply H.
  repeat constructor; try discriminate;
    intros c Hc; cbn in Hc;
    repeat (destruct Hc as [<- | Hc]; [reflexivity|]); contradiction.
Defined.
End Words.

Section LocalizerShape.
Import SlidingWindowMatcher Shapes.

Variable SequenceMatcher_ratio : string -> string -> Q.
Variable similarity_threshold : Q.

Lemma slice_window {A : Type} (l : list A) (p q : nat) :
  (p + q <= List.length l)%nat ->
  slice l (Z.of_nat p) (Z.of_nat p + Z.of_nat q) = firstn q (skipn p l).
Proof.
  intros H. unfold slice, clamp, len.
  destruct (Z.of_nat p <? 0) eqn:E1; [apply Z.ltb_lt in E1; lia|].
  destruct (Z.of_nat p + Z.of_nat q <? 0) eqn:E2; [apply Z.ltb_lt in E2; lia|].
  rewrite !Z.min_l, !Z.max_r by lia.
  replace (Z.to_nat (Z.of_nat p + Z.of_nat q - Z.of_nat p)) with q by lia.
  now rewrite Nat2Z.id.
Qed.

Lemma Forall_firstn {A : Type} (P : A -> Prop) (k : nat) (l : list A) :
  Forall P l -> Forall P (firstn k l).
Proof.
  intros H. rewrite <- (firstn_skipn k l) in H.
  now apply Forall_app in H.
Qed.

(** A returned match, field by field. *)
Lemma find_best_match_words_shape
      (clip_words video_words : list string) (video : transcription)
      (m : localized_match) :
  (0 < similarity_threshold)%Q ->
  find_best_match_words SequenceMatcher_ratio similarity_threshold
    clip_words video_words video = Ok (Some m) ->
  exists (p : nat) (first_word last_word : word_entry),
    (0 < List.length clip_words)%nat
    /\ (p + List.length clip_words <= List.length video_words)%nat
    /\ (p + List.length clip_words <= List.length (words video))%nat
    /\ start_word_index m = Z.of_nat p
    /\ end_word_index m = Z.of_nat p + len clip_words - 1
    /\ clip_word_count m = len clip_words
    /\ matched_text m
       = join (firstn (List.length clip_words) (skipn p video_words))
    /\ nth_error (words video) p = Some first_word
    /\ nth_error (words video) (p + List.length clip_words - 1)
       = Some last_word
    /\ start_time m = start first_word
    /\ end_time m = end_ last_word
    /\ m_duration m = (end_ last_word - start first_word)%Q
    /\ m_video_name m = video_name video
    /\ m_video_path m = video_path video
    /\ (similarity_threshold <= similarity m)%Q.
Proof.
  intros Hpos. unfold find_best_match_words.
  destruct ((len clip_words =? 0) || (len video_words =? 0)) eqn:E0;
    [discriminate|].
  apply orb_false_iff in E0 as [Ec Ev].
  apply Z.eqb_neq in Ec. apply Z.eqb_neq in Ev.
  pose proof (len_nonneg clip_words) as Hc0.
  destruct (len video_words <? len clip_words) eqn:El; [discriminate|].
  apply Z.ltb_ge in El.
  rewrite window_count by exact El.
  destruct (window_loop _ _ _ _ _ _ _) as [bs bp] eqn:Ew.
  apply window_loop_seq in Ew as (Hub & Hle & Hcase).
  destruct (Qlt_bool bs similarity_threshold) eqn:Et; [discriminate|].
  apply Qlt_bool_false in Et.
  destruct Hcase as [[-> ->] | (p & -> & Hp & Hbs & Hlt & Hbefore)]; [lra|].
  destruct ((len (words video) <=? Z.of_nat p)
            || (len (words video) <=? Z.of_nat p + len clip_words - 1))
    eqn:Er; [discriminate|].
  apply orb_false_iff in Er as [Er1 Er2].
  apply Z.leb_gt in Er1. apply Z.leb_gt in Er2.
  assert (Hp1 : (p < List.length (words video))%nat) by (unfold len in Er1; lia).
  rewrite (getitem_in_range (words video) (mkWord "" 0 0) p Hp1).
  cbn [bind].
  assert (Hp2 : (Z.to_nat (Z.of_nat p + len clip_words - 1)
                 < List.length (words video))%nat)
    by (unfold len in Er2 |- *; lia).
  rewrite (getitem_in_range_Z (words video) (mkWord "" 0 0)
             (Z.of_nat p + len clip_words - 1)) by lia.
  cbn [bind]. intros H. injection H as <-.
  cbn [start_word_index end_word_index clip_word_count matched_text
       start_time end_time m_duration m_video_name m_video_path similarity].
  unfold len in *.
  exists p, (nth p (words video) (mkWord "" 0 0)),
    (nth (Z.to_nat (Z.of_nat p + Z.of_nat (List.length clip_words) - 1))
         (words video) (mkWord "" 0 0)).
  replace (p + List.length clip_words - 1)%nat
    with (Z.to_nat (Z.of_nat p + Z.of_nat (List.length clip_words) - 1))
    by lia.
  repeat split; try lia; try reflexivity; try assumption.
  - replace (Z.of_nat p + Z.of_nat (List.length clip_words) - 1 + 1)
      with (Z.of_nat p + Z.of_nat (List.length clip_words)) by lia.
    rewrite slice_window by lia. reflexivity.
  - now apply nth_error_nth'.
  - now apply nth_error_nth'.
Qed.

(** X10. With a positive threshold the localizer always returns, and a
    match it returns is well formed: its word indices lie inside the
    timestamped word list, it spans as many words as the clip has, its
    matched text splits into exactly those reference words, its
    similarity clears the threshold and its duration is the difference
    of its two times. *)
Theorem find_best_match_well_formed (clip video : transcription) :
  (0 < similarity_threshold)%Q ->
  exists r,
    find_best_match SequenceMatcher_ratio similarity_threshold clip video
    = Ok r
    /\ forall m, r = Some m ->
         0 <= start_word_index m <= end_word_index m
         /\ end_word_index m < len (words video)
         /\ clip_word_count m
            = len (split_into_words (normalized_text clip))
         /\ end_word_index m - start_word_index m + 1 = clip_word_count m
         /\ split_into_words (matched_text m)
            = slice (split_into_words (normalized_text video))
                    (start_word_index m) (end_word_index m + 1)
         /\ len (split_into_words (matched_text m)) = clip_word_count m
         /\ (similarity_threshold <= similarity m)%Q
         /\ m_duration m = (end_time m - start_time m)%Q
         /\ m_video_name m = video_name video.
Proof.
  intros Hpos. unfold find_best_match.
  destruct (find_best_match_words_total SequenceMatcher_ratio
              similarity_threshold
              (split_into_words (normalized_text clip))
              (split_into_words (normalized_text video)) video Hpos)
    as [r Hr].
  exists r. split; [exact Hr|]. intros m ->.
  apply find_best_match_words_shape in Hr
    as (p & w1 & w2 & Hq & Hpv & Hpw & Hs & He & Hc & Hm & _ & _ & Hst
        & Het & Hd & Hn & _ & Hsim); [|exact Hpos].
  set (cw := split_into_words (normalized_text clip)) in *.
  set (vw := split_into_words (normalized_text video)) in *.
  assert (Hwin : Forall is_word (firstn (List.length cw) (skipn p vw))).
  { apply Forall_firstn, Forall_skipn. unfold vw, split_into_words.
    apply split_loop_words, no_space_empty. }
  unfold len in *. rewrite Hs, He, Hc, Hm, Hst, Het, Hd, Hn.
  rewrite (split_join_words _ Hwin).
  repeat split; try lia; try assumption; try reflexivity.
  - replace (Z.of_nat p + Z.of_nat (List.length cw) - 1 + 1)
      with (Z.of_nat p + Z.of_nat (List.length cw)) by lia.
    now rewrite slice_window by lia.
  - rewrite length_firstn, length_skipn. lia.
Qed.

(** X11. When the word timestamps of the reference are in speech order,
    a match returned under a positive threshold starts no later than
    it ends, and its duration is not negative. *)
Theorem find_best_match_times_ordered (clip video : transcription)
        (m : localized_match) :
  (0 < similarity_threshold)%Q ->
  chronological (words video) ->
  find_best_match SequenceMatcher_ratio similarity_threshold clip video
  = Ok (Some m) ->
  (start_time m <= end_time m)%Q /\ (0 <= m_duration m)%Q.
Proof.
  intros Hpos Hchron H. unfold find_best_match in H.
  apply find_best_match_words_shape in H
    as (p & w1 & w2 & Hq & _ & _ & _ & _ & _ & _ & Hw1 & Hw2 & Hst & Het
        & Hd & _); [|exact Hpos].
  assert (Hle : (start w1 <= end_ w2)%Q).
  { apply (Hchron p (p + List.length (split_into_words
                                       (normalized_text clip)) - 1)%nat);
      [lia | exact Hw1 | exact Hw2]. }
  rewrite Hst, Het, Hd. split; lra.
Qed.
End LocalizerShape.

Lemma chronological_a_to_e :
  Shapes.chronological (SlidingWindowMatcher.words Inputs.reference_a_to_e).
Proof.
  intros i j wi wj Hij Hi Hj.
  do 5 (destruct i as [|i];
        [do 5 (destruct j as [|j];
               [cbn in Hi, Hj; injection Hi as <-; injection Hj as <-;
                try lia; cbn; try discriminate; try lra|]);
         destruct j; discriminate Hj|]).
  destruct i; discriminate Hi.
Qed.

Lemma find_best_match_well_formed_witness :
  exists r,
    SlidingWindowMatcher.find_best_match Difflib.ratio (8 # 10)
      Inputs.query_c_d Inputs.reference_a_to_e = Ok r.
Proof.
  destruct (find_best_match_well_formed Difflib.ratio (8 # 10)
              Inputs.query_c_d Inputs.reference_a_to_e eq_refl)
    as (r & Hr & _).
  exists r. exact Hr.
Defined.

Lemma find_best_match_times_ordered_witness :
  exists m,
    SlidingWindowMatcher.find_best_match Difflib.ratio (8 # 10)
      Inputs.query_c_d Inputs.reference_a_to_e = Ok (Some m)
    /\ (SlidingWindowMatcher.start_time m
        <= SlidingWindowMatcher.end_time m)%Q.
Proof.
  eexists. split; [vm_compute; reflexivity|].
  apply (find_best_match_times_ordered Difflib.ratio (8 # 10)
           Inputs.query_c_d Inputs.reference_a_to_e).
  - reflexivity.
  - exact chronological_a_to_e.
  - vm_compute. reflexivity.
Defined.

Section SearchAll.
Import SlidingWindowMatcher.

Variable SequenceMatcher_ratio : string -> string -> Q.
Variable similarity_threshold : Q.

Lemma search_loop_appends (clip : transcription) :
  forall videos acc ms,
    search_loop SequenceMatcher_ratio similarity_threshold clip videos acc
    = Ok ms ->
    exists found,
      ms = acc ++ found
      /\ (List.length found <= List.length videos)%nat.
Proof.
  induction videos as [|v videos IH]; intros acc ms H.
  - cbn in H. injection H as <-. exists []. now rewrite app_nil_r.
  - cbn [search_loop] in H.
    destruct (find_best_match _ _ clip v) as [[x|]|]; cbn [bind] in H;
      [| |discriminate H].
    + apply IH in H as (found & -> & Hn). exists (x :: found).
      rewrite <- app_assoc. split; [reflexivity | cbn; lia].
    + apply IH in H as (found & -> & Hn). exists found.
      split; [reflexivity | cbn; lia].
Qed.

Lemma search_loop_returns (clip : transcription) :
  (0 < similarity_threshold)%Q ->
  forall videos acc,
    exists ms,
      search_loop SequenceMatcher_ratio similarity_threshold clip videos acc
      = Ok ms.
Proof.
  intros Hpos. induction videos as [|v videos IH]; intros acc; [cbn; eauto|].
  cbn [search_loop]. unfold find_best_match.
  destruct (find_best_match_words_total SequenceMatcher_ratio
              similarity_threshold
              (split_into_words (normalized_text clip))
              (split_into_words (normalized_text v)) v Hpos) as [r ->].
  cbn [bind]. destruct r; apply IH.
Qed.

End SearchAll.


(* ================================================================== *)
(** * Further results on speaker_verification.py and api_server.py *)
(* ================================================================== *)

Section DenseSimilarity.
Import SpeakerVerifier Vectors.







End DenseSimilarity.

Section EndpointFurther.
Import SlidingWindowMatcher ApiServer.

Variable SequenceMatcher_ratio : string -> string -> Q.
Variable extract_audio_segment : string -> Q -> Q -> result string.
Variable audio_to_embedding : string -> result (list Q).

Lemma transcribe_all_app (l1 l2 : list (result transcription)) :
  transcribe_all (l1 ++ l2) = transcribe_all l1 ++ transcribe_all l2.
Proof.
  induction l1 as [|[t|e] l1 IH]; cbn [app transcribe_all];
    [reflexivity | now rewrite IH | exact IH].
Qed.

Lemma verify_clip_body_depends_on_transcriptions temp_file_path clip
      (vfs vfs' : list (result transcription)) :
  vfs <> [] -> vfs' <> [] ->
  transcribe_all vfs = transcribe_all vfs' ->
  verify_clip SequenceMatcher_ratio extract_audio_segment audio_to_embedding
    temp_file_path clip vfs
  = verify_clip SequenceMatcher_ratio extract_audio_segment
      audio_to_embedding temp_file_path clip vfs'.
Proof.
  intros H1 H2 E. unfold verify_clip, verify_clip_body.
  destruct clip as [ct|]; [|reflexivity].
  destruct vfs as [|a vfs]; [congruence|].
  destruct vfs' as [|a' vfs']; [congruence|].
  cbn [VideoVerifier.is_empty]. rewrite E. reflexivity.
Qed.

(** X14. A reference whose transcription fails is skipped: as long as
    another reference file is there, the endpoint answers exactly as
    if the failing file were not in the directory. *)
Theorem verify_clip_skips_failed_reference temp_file_path clip
        (before after : list (result transcription)) (e : exn) :
  before ++ after <> [] ->
  verify_clip SequenceMatcher_ratio extract_audio_segment audio_to_embedding
    temp_file_path clip (before ++ Raise e :: after)
  = verify_clip SequenceMatcher_ratio extract_audio_segment
      audio_to_embedding temp_file_path clip (before ++ after).
Proof.
  intros H. apply verify_clip_body_depends_on_transcriptions.
  - destruct before; discriminate.
  - exact H.
  - now rewrite !transcribe_all_app.
Qed.

Lemma text_threshold_positive : (0 < TEXT_THRESHOLD)%Q.
Proof. reflexivity. Qed.

(** X15. The outcomes of the endpoint: 400 when the clip cannot be
    transcribed, 404 when the clip is transcribed and the directory
    has no video, 500 when there are videos and none can be
    transcribed, and a response in every other case; the matcher,
    run at the positive text threshold, never fails the request. *)
Theorem verify_clip_outcomes temp_file_path clip video_files :
  (forall e, clip = Raise e ->
     verify_clip SequenceMatcher_ratio extract_audio_segment
       audio_to_embedding temp_file_path clip video_files
     = Raise (HTTPException 400))
  /\ (forall ct, clip = Ok ct -> video_files = [] ->
        verify_clip SequenceMatcher_ratio extract_audio_segment
          audio_to_embedding temp_file_path clip video_files
        = Raise (HTTPException 404))
  /\ (forall ct, clip = Ok ct -> video_files <> [] ->
        transcribe_all video_files = [] ->
        verify_clip SequenceMatcher_ratio extract_audio_segment
          audio_to_embedding temp_file_path clip video_files
        = Raise (HTTPException 500))
  /\ (forall ct, clip = Ok ct -> transcribe_all video_files <> [] ->
        exists r,
          verify_clip SequenceMatcher_ratio extract_audio_segment
            audio_to_embedding temp_file_path clip video_files = Ok r).
Proof.
  unfold verify_clip, verify_clip_body. split; [|split; [|split]].
  - intros e ->. reflexivity.
  - intros ct -> ->. reflexivity.
  - intros ct -> Hne Hnone.
    destruct video_files as [|a l]; [congruence|].
    cbn [VideoVerifier.is_empty]. rewrite Hnone. reflexivity.
  - intros ct -> Hsome.
    destruct video_files as [|a l]; [cbn in Hsome; congruence|].
    cbn [VideoVerifier.is_empty].
    destruct (transcribe_all (a :: l)) as [|t ts] eqn:Et; [congruence|].
    cbn [VideoVerifier.is_empty].
    unfold search_all_videos.
    destruct (search_loop_returns SequenceMatcher_ratio TEXT_THRESHOLD ct
                text_threshold_positive (t :: ts) []) as [ms ->].
    cbn [bind]. destruct (speaker_step _ _ _ _). eauto.
Qed.

Lemma sorted_head_is_best (ms : list localized_match) best rest m :
  StronglySorted (Measures.descending similarity) ms ->
  ms = best :: rest -> In m ms ->
  (similarity m <= similarity best)%Q.
Proof.
  intros Hs -> Hm. inversion Hs as [|? ? _ Hall]; subst.
  destruct Hm as [<- | Hm]; [lra|].
  rewrite Forall_forall in Hall. exact (Hall m Hm).
Qed.

(** X16. A response of the endpoint is coherent: the best match is the
    first match and no match has a greater similarity; there are at
    most as many matches as reference files; there is a
    speaker-verification entry exactly when the type is not
    [not_verified]; and [verified] is set only with an entry that is
    verified, carries no error and has a similarity at or above the
    speaker threshold. *)
Theorem verify_clip_response_coherent temp_file_path clip video_files r :
  verify_clip SequenceMatcher_ratio extract_audio_segment audio_to_embedding
    temp_file_path clip video_files = Ok r ->
  best_match r = hd_error (matches r)
  /\ (forall best m, best_match r = Some best -> In m (matches r) ->
        (similarity m <= similarity best)%Q)
  /\ (List.length (matches r) <= List.length video_files)%nat
  /\ (speaker_verification_of r = None
      <-> verification_type_of r = not_verified)
  /\ (verified r = true ->
      exists sv s,
        speaker_verification_of r = Some sv
        /\ sv_verified sv = true /\ sv_error sv = None
        /\ sv_similarity sv = Some s /\ (SPEAKER_THRESHOLD <= s)%Q)
  /\ text_threshold r = TEXT_THRESHOLD
  /\ speaker_threshold r = SPEAKER_THRESHOLD.
Proof.
  intros H.
  assert (Hthr : text_threshold r = TEXT_THRESHOLD
                 /\ speaker_threshold r = SPEAKER_THRESHOLD).
  { unfold verify_clip, verify_clip_body in H.
    destruct clip; [|discriminate H].
    destruct (VideoVerifier.is_empty video_files); [discriminate H|].
    destruct (VideoVerifier.is_empty _); [discriminate H|].
    destruct (search_all_videos _ _ _ _) as [ms|e];
      [|destruct e; discriminate H].
    cbn [bind] in H. destruct (speaker_step _ _ _ _).
    injection H as <-. split; reflexivity. }
  apply verify_clip_ok in H
    as (ct & ms & _ & _ & _ & Hs & Hm & Hb & Hsv & Ht & Hv).
  rewrite Hm, Hb, Hsv, Hv, Ht.
  assert (Hsorted : StronglySorted (Measures.descending similarity) ms).
  { unfold search_all_videos in Hs.
    destruct (search_loop _ _ _ _ _); [|discriminate Hs].
    cbn [bind] in Hs. injection Hs as <-. apply sort_desc_sorted. }
  assert (Hlen : (List.length ms <= List.length video_files)%nat).
  { unfold search_all_videos in Hs.
    destruct (search_loop _ _ _ _ _) as [l|] eqn:El; [|discriminate Hs].
    cbn [bind] in Hs. injection Hs as <-. rewrite sort_desc_length.
    apply search_loop_appends in El as (found & -> & Hn). cbn [app].
    assert (List.length (transcribe_all video_files)
            <= List.length video_files)%nat.
    { clear. induction video_files as [|[t|e] l IH]; cbn; lia. }
    lia. }
  split; [reflexivity|]. split; [|split; [exact Hlen|split; [|split]]].
  - intros best m Hbest Hin. destruct ms as [|b rest]; [contradiction|].
    cbn in Hbest. injection Hbest as <-.
    now apply (sorted_head_is_best (b :: rest) b rest).
  - destruct ms as [|b rest]; cbn [hd_error speaker_step fst snd].
    + split; reflexivity.
    + destruct (speaker_check _ _ _ b) as [sr|e]; cbn [fst snd];
        [destruct (SpeakerVerifier.verified sr)|]; split; discriminate.
  - destruct ms as [|b rest]; cbn [hd_error speaker_step fst snd];
      [discriminate|].
    destruct (speaker_check _ _ _ b) as [sr|e] eqn:Esr; cbn [fst snd];
      [|discriminate].
    unfold speaker_check in Esr. apply verify_speaker_ok in Esr as [Hver Hth].
    destruct (SpeakerVerifier.verified sr) eqn:Everified; [|discriminate].
    intros _. do 2 eexists. repeat split.
    symmetry in Hver. now apply Qle_bool_iff in Hver.
  - exact Hthr.
Qed.

(** X17. End to end: when some reference matches the clip and the two
    audio segments of the speaker check yield one and the same unit
    embedding, the response is of type [full] and verified. *)
Theorem verify_clip_same_voice_is_full temp_file_path clip_transcription
        video_files best rest clip_audio original_audio embedding :
  search_all_videos SequenceMatcher_ratio TEXT_THRESHOLD clip_transcription
    (transcribe_all video_files) = Ok (best :: rest) ->
  extract_audio_segment temp_file_path 0
    (py_min 10 (end_time best - start_time best)) = Ok clip_audio ->
  extract_audio_segment (VIDEO_DIRECTORY ++ "/" ++ m_video_name best)
    (start_time best) (py_min 10 (end_time best - start_time best))
  = Ok original_audio ->
  audio_to_embedding clip_audio = Ok embedding ->
  audio_to_embedding original_audio = Ok embedding ->
  (Vectors.squared_norm embedding == 1)%Q ->
  exists r,
    verify_clip SequenceMatcher_ratio extract_audio_segment
      audio_to_embedding temp_file_path (Ok clip_transcription) video_files
    = Ok r
    /\ verification_type_of r = full /\ verified r = true
    /\ best_match r = Some best.
Proof.
  intros Hs Hc Ho Hec Heo Hnorm.
  unfold verify_clip, verify_clip_body.
  destruct video_files as [|vf vfs]; [discriminate Hs|].
  cbn [VideoVerifier.is_empty].
  destruct (transcribe_all (vf :: vfs)) as [|t ts]; [discriminate Hs|].
  cbn [VideoVerifier.is_empty]. rewrite Hs. cbn [bind hd_error].
  unfold speaker_step, speaker_check, SpeakerVerifier.verify_speaker.
  rewrite Hc. cbn [bind]. rewrite Ho. cbn [bind]. rewrite Hec, Heo.
  cbn [bind].
  unfold SpeakerVerifier.calculate_similarity, SpeakerVerifier.np_dot.
  rewrite Z.eqb_refl. cbn [bind].
  fold (Vectors.squared_norm embedding).
  assert (E : Qle_bool SPEAKER_THRESHOLD
                ((Vectors.squared_norm embedding + 1) / 2) = true).
  { apply Qle_bool_iff. rewrite Hnorm. unfold SPEAKER_THRESHOLD.
    apply Qle_shift_div_l; [reflexivity|]. discriminate. }
  cbn [SpeakerVerifier.verified]. rewrite E.
  eexists. split; [reflexivity|]. repeat split.
Qed.
End EndpointFurther.

Lemma verify_clip_skips_failed_reference_witness :
  ApiServer.verify_clip Difflib.ratio Inputs.ffmpeg_ok Inputs.same_voice
    "/tmp/clip.mp4" (Ok Inputs.query_c_d)
    ([Ok Inputs.reference_y_z] ++ Raise ProviderError
                              :: [Ok Inputs.reference_a_to_e])
  = ApiServer.verify_clip Difflib.ratio Inputs.ffmpeg_ok Inputs.same_voice
      "/tmp/clip.mp4" (Ok Inputs.query_c_d)
      ([Ok Inputs.reference_y_z] ++ [Ok Inputs.reference_a_to_e]).
Proof.
  apply (verify_clip_skips_failed_reference Difflib.ratio Inputs.ffmpeg_ok
           Inputs.same_voice "/tmp/clip.mp4" (Ok Inputs.query_c_d)
           [Ok Inputs.reference_y_z] [Ok Inputs.reference_a_to_e]
           ProviderError).
  discriminate.
Defined.

Lemma verify_clip_response_coherent_witness :
  exists r,
    ApiServer.verify_clip Difflib.ratio Inputs.ffmpeg_ok Inputs.same_voice
      "/tmp/clip.mp4" (Ok Inputs.query_c_d)
      [Ok Inputs.reference_y_z; Ok Inputs.reference_a_to_e] = Ok r
    /\ ApiServer.best_match r = hd_error (ApiServer.matches r)
    /\ (List.length (ApiServer.matches r) <= 2)%nat.
Proof.
  eexists. split; [vm_compute; reflexivity|].
  match goal with
  | |- ApiServer.best_match ?r = _ /\ _ =>
      assert (Hrun : ApiServer.verify_clip Difflib.ratio Inputs.ffmpeg_ok
                       Inputs.same_voice "/tmp/clip.mp4"
                       (Ok Inputs.query_c_d)
                       [Ok Inputs.reference_y_z; Ok Inputs.reference_a_to_e]
                     = Ok r)
        by (vm_compute; reflexivity)
  end.
  destruct (verify_clip_response_coherent Difflib.ratio Inputs.ffmpeg_ok
              Inputs.same_voice "/tmp/clip.mp4" (Ok Inputs.query_c_d)
              [Ok Inputs.reference_y_z; Ok Inputs.reference_a_to_e]
              _ Hrun) as (H1 & _ & H3 & _).
  split; [exact H1 | exact H3].
Defined.

Lemma verify_clip_same_voice_is_full_witness :
  exists r,
    ApiServer.verify_clip Difflib.ratio Inputs.ffmpeg_ok Inputs.same_voice
      "/tmp/clip.mp4" (Ok Inputs.query_c_d) [Ok Inputs.reference_a_to_e]
    = Ok r
    /\ ApiServer.verification_type_of r = ApiServer.full
    /\ ApiServer.verified r = true.
Proof.
  destruct (verify_clip_same_voice_is_full Difflib.ratio Inputs.ffmpeg_ok
              Inputs.same_voice "/tmp/clip.mp4" Inputs.query_c_d
              [Ok Inputs.reference_a_to_e]
              (SlidingWindowMatcher.mkLocalizedMatch
                 "/download/ref.mp4" "ref.mp4" 2 4 (6 # 6) 2 3 "c d" 2
                 (4 - 2)%Q)
              [] "/tmp/clip.mp4" "download/ref.mp4" [1%Q; 0%Q])
    as (r & Hr & Hfull & Hv & _);
    try reflexivity.
  exists r. repeat split; assumption.
Defined.

(* ================================================================== *)
(** * Further results on hybrid_verification.py *)
(* ================================================================== *)

Section HybridFurther.
Import HybridVerifier.

Lemma closest_to_spec (t : Q) (rest : list embedding) :
  forall best,
    In (closest_to t best rest) (best :: rest)
    /\ forall e, In e (best :: rest) ->
         (Qabs_diff (timestamp (closest_to t best rest)) t
          <= Qabs_diff (timestamp e) t)%Q.
Proof.
  induction rest as [|x rest IH]; intros best; cbn [closest_to].
  - split; [now left|]. intros e [<- | []]. lra.
  - destruct (Qlt_bool (Qabs_diff (timestamp x) t)
                       (Qabs_diff (timestamp best) t)) eqn:E.
    + apply Qlt_bool_true in E. destruct (IH x) as [Hin Hmin]. split.
      * right. exact Hin.
      * intros e [<- | He]; [|now apply Hmin].
        specialize (Hmin x (or_introl eq_refl)). lra.
    + apply Qlt_bool_false in E. destruct (IH best) as [Hin Hmin]. split.
      * destruct Hin as [<- | Hin]; [now left | right; now right].
      * intros e [<- | [<- | He]].
        -- apply Hmin. now left.
        -- specialize (Hmin best (or_introl eq_refl)). lra.
        -- apply Hmin. now right.
Qed.

(** X18. [_find_embedding_at_time] returns an embedding of the list
    that is at most 5 seconds from the requested time and as close to
    it as any embedding of the list; it returns nothing exactly when
    every embedding, if there is one, is more than 5 seconds away. *)
Theorem find_embedding_at_time_closest (embeddings : list embedding)
        (t : Q) :
  (forall e, _find_embedding_at_time embeddings t = Some e ->
     In e embeddings
     /\ (Qabs_diff (timestamp e) t <= 5)%Q
     /\ forall e', In e' embeddings ->
          (Qabs_diff (timestamp e) t <= Qabs_diff (timestamp e') t)%Q)
  /\ (_find_embedding_at_time embeddings t = None <->
      forall e', In e' embeddings -> (5 < Qabs_diff (timestamp e') t)%Q).
Proof.
  unfold _find_embedding_at_time.
  destruct embeddings as [|x rest].
  - split; [discriminate|]. split; [intros _ e' [] | reflexivity].
  - destruct (closest_to_spec t rest x) as [Hin Hmin].
    destruct (Qle_bool (Qabs_diff (timestamp (closest_to t x rest)) t) 5)
      eqn:E.
    + apply Qle_bool_iff in E. split.
      * intros e He. injection He as <-. repeat split; assumption.
      * split; [discriminate|]. intros Hfar.
        specialize (Hfar _ Hin). lra.
    + assert (Hgt : (5 < Qabs_diff (timestamp (closest_to t x rest)) t)%Q).
      { apply Qnot_le_lt. intros Hle. apply Qle_bool_iff in Hle. congruence. }
      split; [discriminate|]. split; [|reflexivity].
      intros _ e' He'. specialize (Hmin e' He'). lra.
Qed.

Lemma find_embedding_at_time_closest_witness :
  _find_embedding_at_time
    [mkEmbedding 0 [1%Q]; mkEmbedding 5 [1%Q]; mkEmbedding 10 [1%Q]] 6
  = Some (mkEmbedding 5 [1%Q])
  /\ (Qabs_diff (timestamp (mkEmbedding 5 [1%Q])) 6 <= 5)%Q.
Proof.
  split; [reflexivity|].
  destruct (find_embedding_at_time_closest
              [mkEmbedding 0 [1%Q]; mkEmbedding 5 [1%Q];
               mkEmbedding 10 [1%Q]] 6) as [H _].
  destruct (H (mkEmbedding 5 [1%Q]) eq_refl) as (_ & H5 & _). exact H5.
Defined.

(** X19. The verdict of the hybrid verifier: a clip is verified exactly
    when the speaker is verified and the content confidence is high or
    medium, and then the final confidence is the content confidence
    and the speaker similarity is at or above 0.90; every other
    verdict has low confidence.  The content match is passed on
    unchanged, and a failure of the embedding provider fails the
    call. *)
Theorem hybrid_verdict_rules (cm : content_match)
        (db_embeddings : list embedding)
        (generate_embeddings : result (list embedding)) :
  (forall v,
      verify_speaker_stage cm db_embeddings generate_embeddings = Ok v ->
      (verified v = true <->
       speaker_verified v = true /\ confidence cm <> low)
      /\ (verified v = true -> final_confidence v = confidence cm)
      /\ (verified v = false -> final_confidence v = low)
      /\ (speaker_verified v = true ->
          (SPEAKER_SIMILARITY_THRESHOLD <= speaker_similarity v)%Q)
      /\ content v = cm
      /\ speaker_threshold v = SPEAKER_SIMILARITY_THRESHOLD)
  /\ (forall e, generate_embeddings = Raise e ->
        verify_speaker_stage cm db_embeddings generate_embeddings
        = Raise e).
Proof.
  split; [|intros e ->; reflexivity].
  intros v. unfold verify_speaker_stage.
  destruct generate_embeddings as [clip_embeddings|]; [|discriminate].
  cbn [bind].
  destruct (speaker_loop _ _ _ _) as [sims|]; [|discriminate].
  cbn [bind].
  destruct (VideoVerifier.is_empty sims).
  - destruct (confidence cm) eqn:Ec; cbn; intros H; injection H as <-;
      cbn; rewrite ?Ec; repeat split; try discriminate; try reflexivity;
      try (intros [H _]; discriminate H).
  - destruct (Qle_bool SPEAKER_SIMILARITY_THRESHOLD (np_mean sims)) eqn:Eq;
      destruct (confidence cm) eqn:Ec; cbn; intros H; injection H as <-;
      cbn; rewrite ?Ec; repeat split; try discriminate; try reflexivity;
      try (intros [H H']; (discriminate H || congruence));
      try (intros _; now apply Qle_bool_iff in Eq).
Qed.
End HybridFurther.

(* ================================================================== *)
(** * Results on video_processor.py *)
(* ================================================================== *)

Section Database.
Import VideoDatabase.

Variable path_name : string -> string.
Variable path_stem : string -> string.
Variable md5_hexdigest : string -> string.
Variable sha256_hexdigest : string -> string.
Variable get_duration : string -> result Q.
Variable generate_fingerprints :
  string -> result (list VideoVerifier.fingerprint).
Variable now : string.

Lemma dict_get_set_other (d : dict) (key key' value : string) :
  key <> key' -> dict_get (dict_set d key value) key' = dict_get d key'.
Proof.
  intros Hne. induction d as [|[k v] d IH]; cbn [dict_set dict_get].
  - destruct (String.eqb key key') eqn:E; [|reflexivity].
    apply String.eqb_eq in E. contradiction.
  - destruct (String.eqb k key) eqn:E; cbn [dict_get].
    + apply String.eqb_eq in E. subst k.
      destruct (String.eqb key key') eqn:E'; [|reflexivity].
      apply String.eqb_eq in E'. contradiction.
    + destruct (String.eqb k key'); [reflexivity | exact IH].
Qed.

Lemma dict_get_set_same (d : dict) (key value : string) :
  dict_get (dict_set d key value) key = Some value.
Proof.
  induction d as [|[k v] d IH]; cbn [dict_set dict_get].
  - now rewrite String.eqb_refl.
  - destruct (String.eqb k key) eqn:E; cbn [dict_get]; rewrite E;
      [reflexivity | exact IH].
Qed.

Lemma video_exists_in (d : data) (video_id : string) :
  video_exists d video_id = true <-> In video_id (map id d).
Proof.
  induction d as [|e d IH]; cbn [video_exists map In]; [split; [discriminate | contradiction]|].
  destruct (String.eqb (id e) video_id) eqn:E.
  - apply String.eqb_eq in E. split; [now left | reflexivity].
  - apply String.eqb_neq in E. rewrite IH. split; [now right|].
    intros [H|H]; [contradiction | exact H].
Qed.

Lemma get_video_app_new (d : data) (e : video_entry) :
  video_exists d (id e) = false ->
  get_video (d ++ [e]) (id e) = Some e.
Proof.
  induction d as [|x d IH]; cbn [app get_video video_exists].
  - now rewrite String.eqb_refl.
  - destruct (String.eqb (id x) (id e)); [discriminate | exact IH].
Qed.

Lemma get_video_app_other (d : data) (e : video_entry) (other : string) :
  other <> id e -> get_video (d ++ [e]) other = get_video d other.
Proof.
  intros Hne. induction d as [|x d IH]; cbn [app get_video].
  - destruct (String.eqb (id e) other) eqn:E; [|reflexivity].
    apply String.eqb_eq in E. congruence.
  - destruct (String.eqb (id x) other); [reflexivity | exact IH].
Qed.

Lemma video_exists_app (d : data) (e : video_entry) (video_id : string) :
  video_exists (d ++ [e]) video_id
  = video_exists d video_id || String.eqb (id e) video_id.
Proof.
  induction d as [|x d IH]; cbn [app video_exists orb].
  - destruct (String.eqb (id e) video_id); reflexivity.
  - destruct (String.eqb (id x) video_id); [reflexivity | exact IH].
Qed.

(** What a successful [add_video] did. *)
Lemma add_video_ok (d : data) video_path fps cid meta video_id d' :
  add_video path_name path_stem md5_hexdigest sha256_hexdigest
    get_duration now d video_path fps cid meta = Ok (video_id, d') ->
  video_id = generate_video_id path_name md5_hexdigest video_path
  /\ video_exists d video_id = false
  /\ exists entry seconds,
      d' = d ++ [entry]
      /\ get_duration video_path = Ok seconds
      /\ id entry = video_id
      /\ duration entry = seconds
      /\ fingerprints entry = fps
      /\ dict_get (metadata entry) "filename" = Some (path_name video_path)
      /\ dict_get (metadata entry) "upload_date" = Some now
      /\ title entry
         = match dict_get (match meta with Some m => m | None => [] end)
                   "title" with
           | Some t => t
           | None => path_stem video_path
           end
      /\ forall key, key <> "upload_date"%string ->
                     key <> "filename"%string ->
           dict_get (metadata entry) key
           = dict_get (match meta with Some m => m | None => [] end) key.
Proof.
  unfold add_video.
  destruct (video_exists d _) eqn:Ex; [discriminate|].
  destruct (get_duration video_path) as [seconds|]; [|discriminate].
  cbn [bind]. intros H. injection H as <- <-.
  split; [reflexivity|]. split; [exact Ex|].
  eexists. exists seconds. split; [reflexivity|].
  cbn [id duration fingerprints metadata title].
  repeat split.
  - apply dict_get_set_same.
  - rewrite dict_get_set_other by discriminate. apply dict_get_set_same.
  - rewrite !dict_get_set_other by discriminate. reflexivity.
  - intros key H1 H2. rewrite !dict_get_set_other by congruence.
    reflexivity.
Qed.

(** X20. After a successful [add_video] the new entry is the last of
    the database, it is the one [get_video] returns for the new id, it
    carries the fingerprints that were passed in, and the lookups of
    all other ids are as before. *)
Theorem add_video_then_get (d : data) video_path fps cid meta video_id d' :
  add_video path_name path_stem md5_hexdigest sha256_hexdigest
    get_duration now d video_path fps cid meta = Ok (video_id, d') ->
  exists entry,
    get_all_videos d' = get_all_videos d ++ [entry]
    /\ id entry = video_id
    /\ fingerprints entry = fps
    /\ get_video d' video_id = Some entry
    /\ video_exists d' video_id = true
    /\ get_video d video_id = None
    /\ forall other, other <> video_id ->
         get_video d' other = get_video d other
         /\ video_exists d' other = video_exists d other.
Proof.
  intros H. apply add_video_ok in H
    as (_ & Hnew & entry & seconds & -> & _ & Hid & _ & Hfps & _).
  exists entry. unfold get_all_videos. rewrite <- Hid in *.
  repeat split; try assumption; try reflexivity.
  - now apply get_video_app_new.
  - rewrite video_exists_app, String.eqb_refl. apply orb_true_r.
  - clear -Hnew. induction d as [|x d IH]; [reflexivity|].
    cbn [video_exists get_video] in *.
    destruct (String.eqb (id x) (id entry)); [discriminate | now apply IH].
  - now apply get_video_app_other.
  - rewrite video_exists_app.
    destruct (String.eqb (id entry) other) eqn:E; [|apply orb_false_r].
    apply String.eqb_eq in E. congruence.
Qed.

Lemma get_video_unique (d : data) :
  NoDup (map id d) ->
  forall e, In e d -> get_video d (id e) = Some e.
Proof.
  induction d as [|x d IH]; intros Hnd e He; [contradiction|].
  cbn [map] in Hnd. inversion Hnd as [|? ? Hnotin Hnd']; subst.
  cbn [get_video]. destruct He as [<- | He].
  - now rewrite String.eqb_refl.
  - destruct (String.eqb (id x) (id e)) eqn:E; [|now apply IH].
    apply String.eqb_eq in E. exfalso. apply Hnotin. rewrite E.
    now apply in_map.
Qed.

(** X21. [add_video] keeps the ids of the database distinct, and in a
    database with distinct ids [get_video] finds every entry under its
    own id.  Once a video is added, adding a file of the same name
    again raises [ValueError]. *)
Theorem add_video_keeps_ids_distinct (d : data) video_path fps cid meta
        video_id d' :
  NoDup (map id d) ->
  add_video path_name path_stem md5_hexdigest sha256_hexdigest
    get_duration now d video_path fps cid meta = Ok (video_id, d') ->
  NoDup (map id d')
  /\ (forall e, In e d' -> get_video d' (id e) = Some e)
  /\ (forall video_path' fps' cid' meta',
         path_name video_path' = path_name video_path ->
         add_video path_name path_stem md5_hexdigest sha256_hexdigest
           get_duration now d' video_path' fps' cid' meta'
         = Raise ValueError).
Proof.
  intros Hnd H. apply add_video_ok in H
    as (Hvid & Hnew & entry & seconds & -> & _ & Hid & _).
  assert (Hnd' : NoDup (map id (d ++ [entry]))).
  { rewrite map_app. cbn [map].
    apply NoDup_app; [exact Hnd | repeat constructor; intros [] |].
    intros x Hx [<- | []]. rewrite Hid in Hx.
    apply video_exists_in in Hx. congruence. }
  split; [exact Hnd'|]. split; [now apply get_video_unique|].
  intros video_path' fps' cid' meta' Hname. unfold add_video.
  assert (E : video_exists (d ++ [entry])
                (generate_video_id path_name md5_hexdigest video_path')
              = true).
  { rewrite video_exists_app. unfold generate_video_id at 2.
    rewrite Hname. fold (generate_video_id path_name md5_hexdigest video_path).
    rewrite <- Hvid, Hid, String.eqb_refl. apply orb_true_r. }
  now rewrite E.
Qed.

Lemma fingerprint_total_app (d : data) (e : video_entry) :
  fold_right Z.add 0 (map (fun video => len (fingerprints video)) (d ++ [e]))
  = fold_right Z.add 0 (map (fun video => len (fingerprints video)) d)
    + len (fingerprints e).
Proof.
  induction d as [|x d IH]; cbn [app map fold_right]; [lia|].
  rewrite IH. lia.
Qed.


Lemma get_stats_ok (d : data) :
  exists s,
    get_stats d = Ok s
    /\ total_videos s = len d
    /\ total_fingerprints s
       = fold_right Z.add 0 (map (fun video => len (fingerprints video)) d)
    /\ total_duration s = fold_left Qplus (map duration d) 0%Q
    /\ (d = [] -> avg_fingerprints_per_video s = 0%Q)
    /\ (d <> [] ->
        (avg_fingerprints_per_video s * inject_Z (len d)
         == inject_Z (total_fingerprints s))%Q).
Proof.
  unfold get_stats. destruct d as [|x d].
  - cbn. eexists. split; [reflexivity|].
    repeat split; try reflexivity; congruence.
  - assert (Hpos : 0 < len (x :: d)) by (unfold len; cbn [List.length]; lia).
    destruct (0 <? len (x :: d)) eqn:E; [|apply Z.ltb_ge in E; lia].
    unfold truediv.
    destruct (len (x :: d) =? 0) eqn:E0; [apply Z.eqb_eq in E0; lia|].
    cbn [bind]. eexists. repeat split; try reflexivity; [discriminate|].
    intros _. cbn [avg_fingerprints_per_video total_fingerprints].
    field. change 0%Q with (inject_Z 0). rewrite inject_Z_injective. lia.
Qed.


(** X23. Adding a video moves the statistics by exactly that video:
    one more video, [len(fingerprints)] more fingerprints, and the
    duration ffprobe reported more seconds. *)
Theorem add_video_moves_stats (d : data) video_path fps cid meta video_id d'
        (s : stats) :
  add_video path_name path_stem md5_hexdigest sha256_hexdigest
    get_duration now d video_path fps cid meta = Ok (video_id, d') ->
  get_stats d = Ok s ->
  exists s' seconds,
    get_stats d' = Ok s'
    /\ get_duration video_path = Ok seconds
    /\ total_videos s' = total_videos s + 1
    /\ total_fingerprints s' = total_fingerprints s + len fps
    /\ total_duration s' = (total_duration s + seconds)%Q.
Proof.
  intros H Hs. apply add_video_ok in H
    as (_ & _ & entry & seconds & -> & Hdur & _ & Hsec & Hfps & _).
  destruct (get_stats_ok d) as (s0 & Hs0 & Hn & Hf & Hd & _).
  rewrite Hs in Hs0. injection Hs0 as <-.
  destruct (get_stats_ok (d ++ [entry])) as (s' & Hs' & Hn' & Hf' & Hd' & _).
  exists s', seconds. split; [exact Hs'|]. split; [exact Hdur|].
  split; [|split].
  - rewrite Hn', Hn. unfold len. rewrite length_app. cbn [List.length]. lia.
  - rewrite Hf', Hf, fingerprint_total_app, Hfps. reflexivity.
  - rewrite Hd', Hd, map_app, fold_left_app. cbn [map fold_left].
    rewrite Hsec. reflexivity.
Qed.

(** X24. A successful [process_video] leaves in the database file the
    old entries followed by one new entry, which holds the
    fingerprints the fingerprinter produced.  An empty title counts as
    no title: the entry is then titled with the stem of the file name.
    An empty campaign is not recorded. *)
Theorem process_video_appends (f : file) video_path title0 campaign cid
        video_id f' :
  process_video path_name path_stem md5_hexdigest sha256_hexdigest
    get_duration generate_fingerprints now f video_path title0 campaign cid
  = Ok (video_id, f') ->
  exists fps entry,
    generate_fingerprints video_path = Ok fps
    /\ _load_database f' = _load_database f ++ [entry]
    /\ VideoDatabase.as_video entry
       = VideoVerifier.mkVideo video_id
           (match title0 with
            | Some (String c t) => String c t
            | _ => path_stem video_path
            end) fps
    /\ dict_get (metadata entry) "campaign"
       = match campaign with
         | Some (String c t) => Some (String c t)
         | _ => None
         end.
Proof.
  unfold process_video.
  destruct (generate_fingerprints video_path) as [fps|]; [|discriminate].
  cbn [bind].
  match goal with
  | |- context [add_video _ _ _ _ _ _ ?d ?p ?f ?c ?m] =>
      destruct (add_video path_name path_stem md5_hexdigest
                  sha256_hexdigest get_duration now d p f c m)
        as [[vid d']|] eqn:Hadd; [|discriminate]
  end.
  intros H. injection H as <- <-.
  apply add_video_ok in Hadd
    as (_ & _ & entry & seconds & -> & _ & Hid & _ & Hfps & _ & _
        & Htitle & Hkeep).
  exists fps, entry. split; [reflexivity|]. split; [reflexivity|].
  split.
  - unfold as_video. rewrite Hid, Hfps, Htitle. f_equal.
    destruct title0 as [[|c t]|], campaign as [[|c' t']|]; reflexivity.
  - rewrite Hkeep by discriminate.
    destruct title0 as [[|c t]|], campaign as [[|c' t']|]; reflexivity.
Qed.

End Database.

Lemma add_video_then_get_witness :
  exists entry,
    VideoDatabase.get_all_videos [DatabaseInputs.speech_entry]
    = VideoDatabase.get_all_videos [] ++ [entry]
    /\ VideoDatabase.id entry = "video_speech.mp4"%string
    /\ VideoDatabase.fingerprints entry = [Inputs.fpA 0; Inputs.fpB 5]
    /\ VideoDatabase.get_video [DatabaseInputs.speech_entry]
         "video_speech.mp4" = Some entry
    /\ VideoDatabase.video_exists [DatabaseInputs.speech_entry]
         "video_speech.mp4" = true
    /\ VideoDatabase.get_video [] "video_speech.mp4" = None
    /\ forall other, other <> "video_speech.mp4"%string ->
         VideoDatabase.get_video [DatabaseInputs.speech_entry] other
         = VideoDatabase.get_video [] other
         /\ VideoDatabase.video_exists [DatabaseInputs.speech_entry] other
            = VideoDatabase.video_exists [] other.
Proof.
  apply (add_video_then_get DatabaseInputs.name_of DatabaseInputs.stem_of
           DatabaseInputs.digest DatabaseInputs.digest
           DatabaseInputs.ten_seconds DatabaseInputs.today []
           "speech.mp4" [Inputs.fpA 0; Inputs.fpB 5] None
           (Some [("title", "Speech")]%string)).
  reflexivity.
Defined.

Lemma add_video_keeps_ids_distinct_witness :
  NoDup (map VideoDatabase.id [DatabaseInputs.speech_entry])
  /\ VideoDatabase.add_video DatabaseInputs.name_of DatabaseInputs.stem_of
       DatabaseInputs.digest DatabaseInputs.digest
       DatabaseInputs.ten_seconds DatabaseInputs.today
       [DatabaseInputs.speech_entry] "speech.mp4" [] (Some "Qm0"%string)
       None
     = Raise ValueError.
Proof.
  destruct (add_video_keeps_ids_distinct DatabaseInputs.name_of
              DatabaseInputs.stem_of DatabaseInputs.digest
              DatabaseInputs.digest DatabaseInputs.ten_seconds
              DatabaseInputs.today [] "speech.mp4"
              [Inputs.fpA 0; Inputs.fpB 5] None
              (Some [("title", "Speech")]%string)
              "video_speech.mp4" [DatabaseInputs.speech_entry]
              (NoDup_nil _) eq_refl) as (Hnd & _ & Hagain).
  split; [exact Hnd|].
  apply Hagain. reflexivity.
Defined.

Lemma add_video_moves_stats_witness :
  exists s' seconds,
    VideoDatabase.get_stats [DatabaseInputs.speech_entry] = Ok s'
    /\ DatabaseInputs.ten_seconds "speech.mp4" = Ok seconds
    /\ VideoDatabase.total_videos s' = 0 + 1
    /\ VideoDatabase.total_fingerprints s' = 0 + 2
    /\ VideoDatabase.total_duration s' = (0 + seconds)%Q.
Proof.
  apply (add_video_moves_stats DatabaseInputs.name_of DatabaseInputs.stem_of
           DatabaseInputs.digest DatabaseInputs.digest
           DatabaseInputs.ten_seconds DatabaseInputs.today []
           "speech.mp4" [Inputs.fpA 0; Inputs.fpB 5] None
           (Some [("title", "Speech")]%string) "video_speech.mp4"
           [DatabaseInputs.speech_entry]
           (VideoDatabase.mkStats 0 0 0 0));
    reflexivity.
Defined.

Lemma process_video_appends_witness :
  exists fps entry,
    DatabaseInputs.two_fingerprints "speech.mp4" = Ok fps
    /\ VideoDatabase._load_database
         (VideoDatabase.save
            [VideoDatabase.mkVideoEntry "video_speech.mp4" "Qmspeech.mp4"
               "spee" 10%Q [Inputs.fpA 0; Inputs.fpB 5]
               [("upload_date", DatabaseInputs.today);
                ("filename", "speech.mp4")]%string])
       = VideoDatabase._load_database None ++ [entry]
    /\ VideoDatabase.as_video entry
       = VideoVerifier.mkVideo "video_speech.mp4" "spee" fps
    /\ VideoDatabase.dict_get (VideoDatabase.metadata entry) "campaign"
       = None.
Proof.
  apply (process_video_appends DatabaseInputs.name_of DatabaseInputs.stem_of
           DatabaseInputs.digest DatabaseInputs.digest
           DatabaseInputs.ten_seconds DatabaseInputs.two_fingerprints
           DatabaseInputs.today None "speech.mp4" (Some EmptyString) None None
           "video_speech.mp4").
  reflexivity.
Defined.

(* ================================================================== *)
(** * Results on the test script over [find_matches] *)
(* ================================================================== *)

Section ScriptOverMatches.
Import VideoVerifier FrankensteinTests.

Lemma find_matches_length all_videos clip threshold min_consecutive_matches
      ms :
  find_matches all_videos clip threshold min_consecutive_matches = Ok ms ->
  (List.length ms <= List.length all_videos)%nat.
Proof.
  unfold find_matches.
  destruct (video_loop _ _ _ _ _) as [l|] eqn:E; [|discriminate].
  cbn [bind]. intros H. injection H as <-.
  apply video_loop_appends in E as (found & -> & Hn & _).
  cbn [app]. now rewrite sort_desc_length.
Qed.

Lemma analyse_returns (matches : list Match) :
  exists v, analyse matches = Ok v.
Proof.
  destruct matches as [|m1 [|m2 ms]].
  - now exists No_false_positive.
  - now exists Partial_detection_most_segments_rejected.
  - destruct (analyse_two_or_more (m1 :: m2 :: ms)) as (g & rest & _ & ->);
      [cbn; lia|].
    destruct (Qlt_bool 300 (max_from g rest)); eexists; reflexivity.
Qed.

(** X25. The verdict step of the test script never fails on a list of
    matches: [max] is only taken over a non-empty list of gaps.  On
    what [find_matches] returns for a database of one video the gap
    analysis is never reached: the verdict is "no false positive" or
    "partial detection", never "editing detected" or "appears
    continuous". *)
Theorem analyse_after_find_matches all_videos clip threshold
        min_consecutive_matches ms :
  find_matches all_videos clip threshold min_consecutive_matches = Ok ms ->
  (exists v, analyse ms = Ok v)
  /\ ((List.length all_videos <= 1)%nat ->
      analyse ms = Ok No_false_positive
      \/ analyse ms = Ok Partial_detection_most_segments_rejected).
Proof.
  intros H. split; [apply analyse_returns|].
  intros H1. apply find_matches_length in H.
  destruct ms as [|m1 [|m2 ms]]; [now left | now right | cbn in H; lia].
Qed.

Lemma analyse_after_find_matches_witness :
  exists ms,
    find_matches [Inputs.original] Inputs.spliced_clip (85 # 100) 2 = Ok ms
    /\ (analyse ms = Ok No_false_positive
        \/ analyse ms = Ok Partial_detection_most_segments_rejected).
Proof.
  eexists. split; [lazy; reflexivity|].
  refine (proj2 (analyse_after_find_matches [Inputs.original]
                   Inputs.spliced_clip (85 # 100) 2 _ _) _);
    [lazy; reflexivity | cbn; lia].
Defined.

End ScriptOverMatches.

(* ================================================================== *)
(** * Results on audio_transcription.py *)
(* ================================================================== *)

Section Transcriber.
Import AudioTranscriber.

Variable sha256_hexdigest : string -> string.
Variable get_video_duration : string -> result Q.
Variable extract_audio_segment : string -> Q -> Q -> result string.
Variable transcribe_audio_file : string -> result string.

(** On a float that is not negative [int] is the floor. *)
Lemma py_int_floor (x : Q) :
  (0 <= x)%Q ->
  0 <= py_int x
  /\ (inject_Z (py_int x) <= x)%Q /\ (x < inject_Z (py_int x) + 1)%Q.
Proof.
  destruct x as [n d]. unfold py_int, Qle, Qlt. cbn.
  intros H. rewrite Z.mul_1_r in *.
  rewrite Z.quot_div_nonneg by lia.
  pose proof (Z.mul_div_le n (Zpos d) eq_refl).
  pose proof (Z.mul_succ_div_gt n (Zpos d) eq_refl).
  split; [apply Z.div_pos; lia|]. split; lia.
Qed.

Lemma segment_loop_run (video_path : string) (d : Q) (l1 l2 : list Z) :
  forall acc,
    (forall i, In i l1 -> (inject_Z i * SEGMENT_DURATION < d)%Q) ->
    segment_loop sha256_hexdigest extract_audio_segment
      transcribe_audio_file video_path d (l1 ++ l2) acc
    = segment_loop sha256_hexdigest extract_audio_segment
        transcribe_audio_file video_path d l2
        (acc ++ map (segment_at sha256_hexdigest extract_audio_segment
                       transcribe_audio_file video_path d) l1).
Proof.
  induction l1 as [|i l1 IH]; intros acc H; cbn [app map segment_loop].
  - now rewrite app_nil_r.
  - destruct (Qle_bool d (inject_Z i * SEGMENT_DURATION)) eqn:E.
    + apply Qle_bool_iff in E. specialize (H i (or_introl eq_refl)). lra.
    + rewrite IH by (intros j Hj; apply H; now right).
      now rewrite <- app_assoc.
Qed.

Lemma range_snoc (n : Z) : 0 <= n -> range 0 (n + 1) = range 0 n ++ [n].
Proof.
  intros H. unfold range. rewrite !Z.sub_0_r.
  replace (Z.to_nat (n + 1)) with (Z.to_nat n + 1)%nat by lia.
  rewrite seq_app, map_app. cbn [seq map Nat.add]. f_equal. f_equal. lia.
Qed.

Lemma inject_Z_succ_le (i n : Z) :
  i < n -> (inject_Z i + 1 <= inject_Z n)%Q.
Proof.
  intros H. change 1%Q with (inject_Z 1). rewrite <- inject_Z_plus.
  rewrite <- Zle_Qle. lia.
Qed.

(** The list [transcribe_video] builds for a duration [d]: the segments
    of the indices below [n], where [n] is the least integer with
    [d <= 30 n]. *)
Lemma transcribe_video_segments (video_path : string) (d : Q) :
  get_video_duration video_path = Ok d ->
  exists n,
    0 <= n
    /\ transcribe_video sha256_hexdigest get_video_duration
         extract_audio_segment transcribe_audio_file video_path
       = Ok (map (segment_at sha256_hexdigest extract_audio_segment
                    transcribe_audio_file video_path d) (range 0 n))
    /\ ((d <= 0)%Q -> n = 0)
    /\ ((0 < d)%Q ->
        (30 * (inject_Z n - 1) < d)%Q /\ (d <= 30 * inject_Z n)%Q).
Proof.
  intros Hd. unfold transcribe_video. rewrite Hd. cbn [bind].
  destruct (Qlt_le_dec 0 d) as [Hpos | Hneg].
  - assert (Hq : (0 <= d / SEGMENT_DURATION)%Q).
    { unfold SEGMENT_DURATION. apply Qle_shift_div_l; lra. }
    destruct (py_int_floor _ Hq) as (Hf0 & Hf1 & Hf2).
    set (f := py_int (d / SEGMENT_DURATION)) in *.
    assert (Hd30 : (d == 30 * (d / SEGMENT_DURATION))%Q)
      by (unfold SEGMENT_DURATION; field).
    assert (Hbelow : forall i, In i (range 0 f) ->
                       (inject_Z i * SEGMENT_DURATION < d)%Q).
    { intros i Hi. apply in_range in Hi.
      pose proof (inject_Z_succ_le i f (proj2 Hi)).
      unfold SEGMENT_DURATION. lra. }
    rewrite range_snoc by exact Hf0.
    rewrite segment_loop_run by exact Hbelow.
    cbn [app segment_loop].
    destruct (Qle_bool d (inject_Z f * SEGMENT_DURATION)) eqn:E.
    + apply Qle_bool_iff in E. unfold SEGMENT_DURATION in E.
      exists f. split; [exact Hf0|]. split; [reflexivity|].
      split; [lra|]. intros _. split; lra.
    + assert (Hlt : (inject_Z f * SEGMENT_DURATION < d)%Q).
      { apply Qnot_le_lt. intros Hle. apply Qle_bool_iff in Hle.
        congruence. }
      unfold SEGMENT_DURATION in Hlt.
      exists (f + 1). split; [lia|]. split.
      * rewrite range_snoc by exact Hf0. rewrite map_app. reflexivity.
      * split; [lra|]. intros _. rewrite inject_Z_plus.
        change (inject_Z 1) with 1%Q. split; lra.
  - exists 0. split; [lia|]. split; [|split; [reflexivity | lra]].
    cbn [range map]. f_equal.
    destruct (range 0 (py_int (d / SEGMENT_DURATION) + 1)) as [|i rest] eqn:Er;
      [reflexivity|].
    assert (Hi : In i (range 0 (py_int (d / SEGMENT_DURATION) + 1)))
      by (rewrite Er; now left).
    apply in_range in Hi. cbn [segment_loop].
    assert (Hi0 : (0 <= inject_Z i)%Q)
      by (change 0%Q with (inject_Z 0); rewrite <- Zle_Qle; lia).
    destruct (Qle_bool d (inject_Z i * SEGMENT_DURATION)) eqn:E;
      [reflexivity|].
    assert (Hlt : (inject_Z i * SEGMENT_DURATION < d)%Q).
    { apply Qnot_le_lt. intros Hle. apply Qle_bool_iff in Hle. congruence. }
    unfold SEGMENT_DURATION in Hlt. lra.
Qed.

Lemma nth_error_range (n : Z) (k : nat) (i : Z) :
  nth_error (range 0 n) k = Some i -> i = Z.of_nat k /\ Z.of_nat k < n.
Proof.
  unfold range. rewrite Z.sub_0_r. intros H.
  rewrite nth_error_map in H.
  destruct (nth_error (seq 0 (Z.to_nat n)) k) as [j|] eqn:E;
    [|discriminate].
  cbn [option_map] in H. injection H as <-.
  assert (Hk : (k < List.length (seq 0 (Z.to_nat n)))%nat)
    by (apply nth_error_Some; congruence).
  rewrite length_seq in Hk.
  rewrite nth_error_seq in E.
  destruct (Nat.ltb k (Z.to_nat n)); [|discriminate].
  injection E as <-. lia.
Qed.

(** X26. [transcribe_video] cuts a video of duration [d > 0] into
    consecutive segments of 30 seconds: segment [k] starts at [30 k],
    every segment but the last lasts 30 seconds and the last one ends
    at [d], so that there are as many segments as 30-second steps are
    needed to cover [d].  A segment whose extraction or transcription
    fails is kept with an empty text, and the call does not fail.  A
    duration that is not positive gives no segment. *)
Theorem transcribe_video_tiles (video_path : string) (d : Q) :
  get_video_duration video_path = Ok d ->
  exists transcripts,
    transcribe_video sha256_hexdigest get_video_duration
      extract_audio_segment transcribe_audio_file video_path
    = Ok transcripts
    /\ ((d <= 0)%Q -> transcripts = [])
    /\ ((0 < d)%Q ->
        (30 * (inject_Z (len transcripts) - 1) < d)%Q
        /\ (d <= 30 * inject_Z (len transcripts))%Q)
    /\ forall k seg,
         nth_error transcripts k = Some seg ->
         exists length_k,
           timestamp seg = Some (inject_Z (Z.of_nat k) * 30)%Q
           /\ duration seg = Some length_k
           /\ (0 < length_k)%Q
           /\ ((S k < List.length transcripts)%nat -> (length_k == 30)%Q)
           /\ (S k = List.length transcripts ->
               (inject_Z (Z.of_nat k) * 30 + length_k == d)%Q)
           /\ (text seg = Some EmptyString
               \/ exists audio_path said,
                    extract_audio_segment video_path
                      (inject_Z (Z.of_nat k) * 30)%Q length_k
                    = Ok audio_path
                    /\ transcribe_audio_file audio_path = Ok said
                    /\ text seg = Some said
                    /\ hash seg = Some (sha256_hexdigest said)).
Proof.
  intros Hd.
  destruct (transcribe_video_segments video_path d Hd)
    as (n & Hn & -> & Hneg & Hpos).
  eexists. split; [reflexivity|].
  assert (Hlen : len (map (segment_at sha256_hexdigest extract_audio_segment
                             transcribe_audio_file video_path d)
                        (range 0 n)) = n).
  { unfold len. rewrite length_map, range_length. lia. }
  split; [intros H; now rewrite (Hneg H)|].
  split; [now rewrite Hlen|].
  intros k seg Hk.
  rewrite nth_error_map in Hk.
  destruct (nth_error (range 0 n) k) as [i|] eqn:Ei; [|discriminate].
  cbn [option_map] in Hk. injection Hk as <-.
  apply nth_error_range in Ei as [-> Hkn].
  assert (Hd0 : (0 < d)%Q).
  { destruct (Qlt_le_dec 0 d) as [H|H]; [exact H|]. specialize (Hneg H). lia. }
  destruct (Hpos Hd0) as [Hlow Hhigh].
  pose proof (inject_Z_succ_le _ _ Hkn) as Hk1.
  unfold segment_at, transcribe_segment, SEGMENT_DURATION.
  set (x := inject_Z (Z.of_nat k)) in *.
  set (length_k := ApiServer.py_min 30 (d - x * 30)).
  assert (Hmin : (length_k == 30 /\ 30 <= d - x * 30)%Q
                 \/ (length_k == d - x * 30 /\ d - x * 30 < 30)%Q).
  { unfold length_k, ApiServer.py_min.
    destruct (Qlt_bool (d - x * 30) 30) eqn:E.
    - right. apply Qlt_bool_true in E. split; [reflexivity | exact E].
    - left. apply Qlt_bool_false in E. split; [reflexivity | exact E]. }
  exists length_k. rewrite length_map, range_length.
  destruct (extract_audio_segment video_path (x * 30)%Q length_k)
    as [audio_path|] eqn:Ea; cbn [bind];
    [destruct (transcribe_audio_file audio_path) as [said|] eqn:Et|];
    cbn [timestamp duration text hash];
    (split; [reflexivity|]); (split; [reflexivity|]);
    (split; [destruct Hmin as [[-> _]|[-> _]]; lra|]);
    (split; [intros Hlast;
             assert (Hk2 : (x + 1 + 1 <= inject_Z n)%Q)
               by (unfold x; change 1%Q with (inject_Z 1);
                   rewrite <- !inject_Z_plus, <- Zle_Qle; lia);
             destruct Hmin as [[-> _]|[_ Hc]]; lra|]);
    (split; [intros Hlast;
             assert (Hk2 : (inject_Z n == x + 1)%Q)
               by (unfold x; change 1%Q with (inject_Z 1);
                   rewrite <- inject_Z_plus; apply inject_Z_injective; lia);
             destruct Hmin as [[-> Hc]|[-> _]]; [rewrite Hk2 in *|]; lra|]).
  - right. exists audio_path, said. repeat split; reflexivity || assumption.
  - now left.
  - now left.
Qed.

End Transcriber.

Lemma transcribe_video_tiles_witness :
  exists transcripts,
    AudioTranscriber.transcribe_video TranscriptInputs.digest
      TranscriptInputs.seventy_seconds TranscriptInputs.extract_but_second
      TranscriptInputs.whisper_says_hello "clip.mp4"
    = Ok transcripts
    /\ len transcripts = 3
    /\ map AudioTranscriber.text transcripts
       = [Some "hello"; Some EmptyString; Some "hello"]%string.
Proof.
  destruct (transcribe_video_tiles TranscriptInputs.digest
              TranscriptInputs.seventy_seconds
              TranscriptInputs.extract_but_second
              TranscriptInputs.whisper_says_hello "clip.mp4" 70 eq_refl)
    as (transcripts & Hrun & _).
  exists transcripts. split; [exact Hrun|].
  vm_compute in Hrun. injection Hrun as <-. split; reflexivity.
Defined.

(* ================================================================== *)
(** * Results on text_matching.py *)
(* ================================================================== *)

Section TextMatching.
Import AudioTranscriber TextMatcher.

Variable encode_similarity : string -> string -> Q.

Lemma segments_loop_hits (query_text : string) (threshold : Q) :
  forall database_segments acc,
    exists found,
      segments_loop encode_similarity query_text database_segments
        threshold acc = acc ++ found
      /\ (List.length found <= List.length database_segments)%nat
      /\ forall h, In h found ->
           In (hit_segment h) database_segments
           /\ get_text (hit_segment h) = Some (hit_text h)
           /\ hit_similarity h
              = calculate_similarity encode_similarity query_text
                  (hit_text h)
           /\ (threshold <= hit_similarity h)%Q
           /\ hit_timestamp h = get_timestamp (hit_segment h).
Proof.
  induction database_segments as [|seg rest IH]; intros acc;
    cbn [segments_loop].
  - exists []. rewrite app_nil_r. repeat split; try contradiction.
    cbn. lia.
  - destruct (get_text seg) as [seg_text|] eqn:Et.
    + destruct (Qle_bool threshold _) eqn:E.
      * destruct (IH (acc ++ [mkSegmentHit seg
                                (calculate_similarity encode_similarity
                                   query_text seg_text)
                                (get_timestamp seg) seg_text]))
          as (found & -> & Hlen & Hall).
        eexists (_ :: found). rewrite <- app_assoc. split; [reflexivity|].
        split; [cbn [List.length]; lia|].
        intros h [<- | Hh].
        -- cbn [hit_segment hit_text hit_similarity hit_timestamp].
           apply Qle_bool_iff in E. repeat split; auto. now left.
        -- destruct (Hall h Hh) as (H1 & H2). split; [now right | exact H2].
      * destruct (IH acc) as (found & -> & Hlen & Hall).
        exists found. split; [reflexivity|]. split; [cbn [List.length]; lia|].
        intros h Hh. destruct (Hall h Hh) as (H1 & H2).
        split; [now right | exact H2].
    + destruct (IH acc) as (found & -> & Hlen & Hall).
      exists found. split; [reflexivity|]. split; [cbn [List.length]; lia|].
      intros h Hh. destruct (Hall h Hh) as (H1 & H2).
      split; [now right | exact H2].
Qed.

(** [l[:k]] is a prefix of [l], of at most [k] elements when [k] is
    not negative. *)
Lemma slice_prefix {A : Type} (l : list A) (k : Z) :
  exists n, slice l 0 k = firstn n l /\ (0 <= k -> Z.of_nat n <= k).
Proof.
  exists (Z.to_nat (clamp l k)). unfold slice.
  assert (H0 : clamp l 0 = 0).
  { unfold clamp. cbn. pose proof (len_nonneg l). lia. }
  rewrite H0, Z.sub_0_r. cbn [Z.to_nat skipn]. split; [reflexivity|].
  intros Hk. unfold clamp.
  destruct (k <? 0) eqn:E; [apply Z.ltb_lt in E; lia|]. lia.
Qed.

Lemma StronglySorted_firstn {A : Type} (R : A -> A -> Prop) (n : nat) :
  forall l, StronglySorted R l -> StronglySorted R (firstn n l).
Proof.
  induction n as [|n IH]; intros l Hs; [constructor|].
  destruct l as [|x l]; [constructor|].
  cbn [firstn]. inversion Hs as [|? ? Hs' Hall]; subst.
  constructor; [now apply IH | now apply Forall_firstn].
Qed.

Lemma In_firstn {A : Type} (n : nat) (l : list A) (x : A) :
  In x (firstn n l) -> In x l.
Proof.
  intros H. rewrite <- (firstn_skipn n l). apply in_or_app. now left.
Qed.

(** X27. [find_matching_segments] returns hits on database segments
    that carry a text, each with the similarity of the query to that
    text, which is at or above the threshold; the hits are in
    descending order of similarity and, for a [top_k] that is not
    negative, at most [top_k] many.  An empty query matches nothing. *)
Theorem find_matching_segments_hits (query_text : string)
        (database_segments : list segment) (threshold : Q) (top_k : Z) :
  (query_text = EmptyString ->
   find_matching_segments encode_similarity query_text database_segments
     threshold top_k = [])
  /\ (0 <= top_k ->
      len (find_matching_segments encode_similarity query_text
             database_segments threshold top_k) <= top_k)
  /\ StronglySorted (Measures.descending hit_similarity)
       (find_matching_segments encode_similarity query_text
          database_segments threshold top_k)
  /\ forall h,
       In h (find_matching_segments encode_similarity query_text
               database_segments threshold top_k) ->
       In (hit_segment h) database_segments
       /\ get_text (hit_segment h) = Some (hit_text h)
       /\ hit_similarity h
          = calculate_similarity encode_similarity query_text (hit_text h)
       /\ (threshold <= hit_similarity h)%Q
       /\ hit_timestamp h = get_timestamp (hit_segment h).
Proof.
  unfold find_matching_segments.
  split; [intros ->; reflexivity|].
  destruct (SlidingWindowMatcher.is_empty_string query_text).
  { split; [intros; unfold len; cbn; lia|].
    split; [constructor | contradiction]. }
  destruct (segments_loop_hits query_text threshold database_segments [])
    as (found & -> & _ & Hall).
  cbn [app].
  destruct (slice_prefix (sort_desc hit_similarity found) top_k)
    as (n & -> & Hn).
  split; [|split].
  - intros Hk. specialize (Hn Hk). unfold len.
    pose proof (firstn_le_length n (sort_desc hit_similarity found)). lia.
  - apply StronglySorted_firstn, sort_desc_sorted.
  - intros h Hh. apply In_firstn, sort_desc_In in Hh. now apply Hall.
Qed.

Lemma find_start_found (db : list segment) (start : Q) :
  forall s i,
    find_start (enumerate_from s db) start = Some i ->
    s <= i < s + len db
    /\ exists seg t, nth_error db (Z.to_nat (i - s)) = Some seg
                     /\ timestamp seg = Some t /\ (t == start)%Q.
Proof.
  induction db as [|seg db IH]; intros s i H; [discriminate|].
  cbn [enumerate_from find_start] in H. rewrite len_cons.
  pose proof (len_nonneg db) as Hl.
  assert (Hrest : find_start (enumerate_from (s + 1) db) start = Some i ->
                  s <= i < s + (len db + 1)
                  /\ exists seg' t,
                       nth_error (seg :: db) (Z.to_nat (i - s)) = Some seg'
                       /\ timestamp seg' = Some t /\ (t == start)%Q).
  { intros H'. apply IH in H' as (Hr & seg' & t & Hn & Ht & Heq).
    split; [lia|]. exists seg', t.
    replace (Z.to_nat (i - s)) with (S (Z.to_nat (i - (s + 1)))) by lia.
    auto. }
  destruct (timestamp seg) as [t|] eqn:Et; [|now apply Hrest].
  destruct (Qeq_bool t start) eqn:E; [|now apply Hrest].
  injection H as <-. split; [lia|]. exists seg, t.
  rewrite Z.sub_diag. apply Qeq_bool_iff in E. auto.
Qed.

Lemma find_start_missing (db : list segment) (start : Q) :
  forall s,
    find_start (enumerate_from s db) start = None <->
    forall seg t, In seg db -> timestamp seg = Some t -> ~ (t == start)%Q.
Proof.
  induction db as [|seg db IH]; intros s; cbn [enumerate_from find_start].
  - split; [intros _ ? ? [] | reflexivity].
  - split.
    + intros H seg' t [<- | Hin] Ht.
      * rewrite Ht in H. destruct (Qeq_bool t start) eqn:E; [discriminate|].
        intros Heq. apply Qeq_bool_iff in Heq. congruence.
      * destruct (timestamp seg) as [t0|].
        -- destruct (Qeq_bool t0 start); [discriminate|].
           apply (proj1 (IH (s + 1)) H seg' t Hin Ht).
        -- apply (proj1 (IH (s + 1)) H seg' t Hin Ht).
    + intros H.
      assert (Hrest : find_start (enumerate_from (s + 1) db) start = None).
      { apply IH. intros seg' t Hin. apply H. now right. }
      destruct (timestamp seg) as [t|] eqn:Et; [|exact Hrest].
      destruct (Qeq_bool t start) eqn:E; [|exact Hrest].
      apply Qeq_bool_iff in E. exfalso.
      apply (H seg t (or_introl eq_refl) Et E).
Qed.

Lemma getitem_nth_error {A : Type} (l : list A) (i : Z) :
  0 <= i < len l ->
  exists x, getitem l i = Ok x /\ nth_error l (Z.to_nat i) = Some x.
Proof.
  intros Hi. unfold getitem.
  destruct (i <? 0) eqn:E1; [apply Z.ltb_lt in E1; lia|]. rewrite E1.
  destruct (len l <=? i) eqn:E2; [apply Z.leb_le in E2; lia|].
  cbn [orb]. destruct (nth_error l (Z.to_nat i)) as [x|] eqn:E3.
  - now exists x.
  - apply nth_error_None in E3. unfold len in Hi. lia.
Qed.

Lemma getitem_last {A : Type} (l : list A) :
  l <> [] ->
  exists x, getitem l (-1) = Ok x
            /\ nth_error l (List.length l - 1) = Some x.
Proof.
  intros Hne. unfold getitem. cbn [Z.ltb Z.compare].
  assert (Hl : 0 < len l).
  { destruct l; [congruence|]. rewrite len_cons.
    pose proof (len_nonneg l). lia. }
  destruct (-1 + len l <? 0) eqn:E1; [apply Z.ltb_lt in E1; lia|].
  destruct (len l <=? -1 + len l) eqn:E2; [apply Z.leb_le in E2; lia|].
  cbn [orb].
  replace (Z.to_nat (-1 + len l)) with (List.length l - 1)%nat
    by (unfold len; lia).
  destruct (nth_error l (List.length l - 1)) as [x|] eqn:E3.
  - now exists x.
  - apply nth_error_None in E3. unfold len in Hl. lia.
Qed.

(** The run the loop of [_build_match_sequence] adds: entry [k] pairs
    query segment [k] with database segment [db_idx + s + k]. *)
Lemma sequence_loop_aligned (db : list segment) (db_idx : Z)
      (threshold : Q) :
  0 <= db_idx ->
  forall qs s acc,
    0 <= s ->
    exists found,
      sequence_loop encode_similarity (enumerate_from s qs) db db_idx
        threshold acc = Ok (acc ++ found)
      /\ (List.length found <= List.length qs)%nat
      /\ forall k e, nth_error found k = Some e ->
           exists qseg dseg,
             nth_error qs k = Some qseg
             /\ nth_error db (Z.to_nat (db_idx + s) + k) = Some dseg
             /\ get_text qseg = Some (query_text e)
             /\ get_text dseg = Some (db_text e)
             /\ similarity e
                = calculate_similarity encode_similarity (query_text e)
                    (db_text e)
             /\ (threshold <= similarity e)%Q
             /\ query_timestamp e = get_timestamp qseg
             /\ db_timestamp e = get_timestamp dseg
             /\ entry_duration e = get_duration dseg.
Proof.
  intros Hidx. induction qs as [|q qs IH]; intros s acc Hs;
    cbn [enumerate_from sequence_loop].
  - exists []. rewrite app_nil_r. split; [reflexivity|].
    split; [cbn; lia|]. intros [|k] e H; discriminate H.
  - assert (Hstop : exists found : list sequence_entry,
               Ok acc = Ok (acc ++ found)
               /\ (List.length found <= List.length (q :: qs))%nat
               /\ forall k e, nth_error found k = Some e ->
                    exists qseg dseg,
                      nth_error (q :: qs) k = Some qseg
                      /\ nth_error db (Z.to_nat (db_idx + s) + k) = Some dseg
                      /\ get_text qseg = Some (query_text e)
                      /\ get_text dseg = Some (db_text e)
                      /\ similarity e
                         = calculate_similarity encode_similarity
                             (query_text e) (db_text e)
                      /\ (threshold <= similarity e)%Q
                      /\ query_timestamp e = get_timestamp qseg
                      /\ db_timestamp e = get_timestamp dseg
                      /\ entry_duration e = get_duration dseg).
    { exists []. rewrite app_nil_r. split; [reflexivity|].
      split; [cbn; lia|]. intros [|k] e H; discriminate H. }
    destruct (len db <=? db_idx + s) eqn:E; [exact Hstop|].
    apply Z.leb_gt in E.
    destruct (getitem_nth_error db (db_idx + s)) as (dseg & -> & Hd);
      [lia|].
    cbn [bind].
    destruct (get_text q) as [q_text|] eqn:Eq; [|exact Hstop].
    destruct (get_text dseg) as [d_text|] eqn:Ed; [|exact Hstop].
    destruct (Qlt_bool _ threshold) eqn:El; [exact Hstop|].
    apply Qlt_bool_false in El.
    match goal with
    | |- context [sequence_loop _ _ _ _ _ (acc ++ [?e0])] =>
        destruct (IH (s + 1) (acc ++ [e0])) as (found & -> & Hlen & Hall);
          [lia|]; exists (e0 :: found)
    end.
    rewrite <- app_assoc. split; [reflexivity|].
    split; [cbn [List.length]; lia|].
    intros [|k] e Hk.
    + cbn in Hk. injection Hk as <-. exists q, dseg.
      cbn [query_text db_text similarity query_timestamp db_timestamp
           entry_duration nth_error].
      rewrite Nat.add_0_r. repeat split; auto.
    + cbn [nth_error] in Hk.
      destruct (Hall k e Hk) as (qseg & dseg' & H1 & H2 & H3).
      exists qseg, dseg'. split; [exact H1|]. split; [|exact H3].
      replace (Z.to_nat (db_idx + s) + S k)%nat
        with (Z.to_nat (db_idx + (s + 1)) + k)%nat by lia.
      exact H2.
Qed.

Lemma build_match_sequence_spec (qs db : list segment)
      (start threshold : Q) :
  exists sequence,
    _build_match_sequence encode_similarity qs db start threshold
    = Ok sequence
    /\ (List.length sequence <= List.length qs)%nat
    /\ ((forall seg t, In seg db -> timestamp seg = Some t ->
                       ~ (t == start)%Q) -> sequence = [])
    /\ exists db_idx,
         (forall e, nth_error sequence 0 = Some e ->
                    (db_timestamp e == start)%Q)
         /\ forall k e, nth_error sequence k = Some e ->
              exists qseg dseg,
                nth_error qs k = Some qseg
                /\ nth_error db (db_idx + k) = Some dseg
                /\ get_text qseg = Some (query_text e)
                /\ get_text dseg = Some (db_text e)
                /\ similarity e
                   = calculate_similarity encode_similarity (query_text e)
                       (db_text e)
                /\ (threshold <= similarity e)%Q
                /\ query_timestamp e = get_timestamp qseg
                /\ db_timestamp e = get_timestamp dseg
                /\ entry_duration e = get_duration dseg.
Proof.
  unfold _build_match_sequence, enumerate.
  destruct (find_start (enumerate_from 0 db) start) as [db_idx|] eqn:Ef.
  - apply find_start_found in Ef as (Hr & seg0 & t & Hn & Ht & Heq).
    rewrite Z.sub_0_r in Hn.
    destruct (sequence_loop_aligned db db_idx threshold (proj1 Hr) qs 0 [])
      as (found & -> & Hlen & Hall); [lia|].
    cbn [app]. exists found. split; [reflexivity|]. split; [exact Hlen|].
    split.
    { intros Hnone. exfalso. apply (Hnone seg0 t); auto.
      eapply nth_error_In, Hn. }
    exists (Z.to_nat db_idx). rewrite Z.add_0_r in Hall. split.
    + intros e He.
      destruct (Hall 0%nat e He) as (qseg & dseg & _ & Hd & _ & _ & _ & _
                                     & _ & Hts & _).
      rewrite Nat.add_0_r, Hn in Hd. injection Hd as <-.
      rewrite Hts. unfold get_timestamp. now rewrite Ht.
    + exact Hall.
  - exists []. split; [reflexivity|]. split; [cbn; lia|].
    split; [reflexivity|]. exists 0%nat.
    split; [intros e H; discriminate H | intros [|k] e H; discriminate H].
Qed.

(** X28. [_build_match_sequence] never raises.  It returns a run of
    aligned pairs: entry [k] pairs query segment [k] with database
    segment [db_idx + k], both with a text, at a similarity at or
    above the threshold, and the run starts at a database segment
    whose timestamp is the start timestamp.  When no database segment
    has that timestamp the run is empty. *)
Theorem build_match_sequence_aligned (query_segments db_segments : list segment)
        (start_db_timestamp threshold : Q) :
  exists sequence,
    _build_match_sequence encode_similarity query_segments db_segments
      start_db_timestamp threshold = Ok sequence
    /\ (List.length sequence <= List.length query_segments)%nat
    /\ ((forall seg t, In seg db_segments -> timestamp seg = Some t ->
                       ~ (t == start_db_timestamp)%Q) -> sequence = [])
    /\ exists db_idx,
         (forall e, nth_error sequence 0 = Some e ->
                    (db_timestamp e == start_db_timestamp)%Q)
         /\ forall k e, nth_error sequence k = Some e ->
              exists qseg dseg,
                nth_error query_segments k = Some qseg
                /\ nth_error db_segments (db_idx + k) = Some dseg
                /\ get_text qseg = Some (query_text e)
                /\ get_text dseg = Some (db_text e)
                /\ similarity e
                   = calculate_similarity encode_similarity (query_text e)
                       (db_text e)
                /\ (threshold <= similarity e)%Q
                /\ query_timestamp e = get_timestamp qseg
                /\ db_timestamp e = get_timestamp dseg
                /\ entry_duration e = get_duration dseg.
Proof. apply build_match_sequence_spec. Qed.

Lemma sum_at_least (threshold : Q) (xs : list Q) :
  forall acc,
    (forall x, In x xs -> (threshold <= x)%Q) ->
    (acc + threshold * inject_Z (len xs) <= fold_left Qplus xs acc)%Q.
Proof.
  induction xs as [|x xs IH]; intros acc H; cbn [fold_left].
  - unfold len. cbn [List.length Z.of_nat]. change (inject_Z 0) with 0%Q.
    lra.
  - rewrite len_cons, inject_Z_plus. change (inject_Z 1) with 1%Q.
    pose proof (IH (acc + x)%Q (fun y Hy => H y (or_intror Hy))).
    pose proof (H x (or_introl eq_refl)). lra.
Qed.

Lemma np_mean_at_least (threshold : Q) (xs : list Q) (mean : Q) :
  (forall x, In x xs -> (threshold <= x)%Q) ->
  np_mean xs = Some mean -> (threshold <= mean)%Q.
Proof.
  intros H Hm. destruct xs as [|x xs]; [discriminate|].
  unfold np_mean in Hm. injection Hm as <-.
  assert (Hl : (0 < inject_Z (len (x :: xs)))%Q).
  { change 0%Q with (inject_Z 0). rewrite <- Zlt_Qlt, len_cons.
    pose proof (len_nonneg xs). lia. }
  apply Qle_shift_div_l; [exact Hl|].
  pose proof (sum_at_least threshold (x :: xs) 0 H) as Hsum.
  cbn [fold_left] in Hsum. lra.
Qed.

Lemma search_invariant_keep (keys : list string) (threshold : Q)
      (min_consecutive_matches : Z) (state : search_state) :
  TextShapes.search_invariant keys threshold min_consecutive_matches state ->
  exists state',
    Ok state = Ok state'
    /\ TextShapes.search_invariant keys threshold min_consecutive_matches
         state'.
Proof. intros H. now exists state. Qed.

Lemma match_loop_invariant (keys : list string) (video_id : string)
      (qs db : list segment) (i : Z) (threshold : Q)
      (min_consecutive_matches : Z) :
  In video_id keys ->
  forall todo state,
    TextShapes.search_invariant keys threshold min_consecutive_matches
      state ->
    exists state',
      match_loop encode_similarity video_id qs db i threshold
        min_consecutive_matches todo state = Ok state'
      /\ TextShapes.search_invariant keys threshold
           min_consecutive_matches state'.
Proof.
  intros Hkey. induction todo as [|m rest IH]; intros state Hinv;
    cbn [match_loop].
  - now exists state.
  - destruct (build_match_sequence_spec (slice_from qs i) db
                (hit_timestamp m) threshold)
      as (sequence & -> & _ & _ & db_idx & _ & Hall).
    cbn [bind].
    assert (Hsim : forall e, In e sequence -> (threshold <= similarity e)%Q).
    { intros e He. apply In_nth_error in He as [k Hk].
      destruct (Hall k e Hk) as (? & ? & _ & _ & _ & _ & _ & H & _).
      exact H. }
    match goal with
    | |- exists _, bind ?c _ = _ /\ _ =>
        assert (Hstep : exists state',
                   c = Ok state'
                   /\ TextShapes.search_invariant keys threshold
                        min_consecutive_matches state')
    end.
    { destruct (min_consecutive_matches <=? len sequence) eqn:Emin;
        [|now apply search_invariant_keep].
      apply Z.leb_le in Emin.
      destruct (np_mean (map similarity sequence)) as [avg_sim|] eqn:Emean;
        [|now apply search_invariant_keep].
      cbv zeta.
      destruct (Qlt_bool _ _) eqn:Escore;
        [|now apply search_invariant_keep].
      apply Qlt_bool_true in Escore.
      assert (Hne : sequence <> []) by (intros ->; discriminate Emean).
      destruct (getitem_nth_error sequence 0) as (first & -> & Hfirst).
      { destruct sequence; [congruence|]. rewrite len_cons.
        pose proof (len_nonneg sequence). lia. }
      destruct (getitem_last sequence Hne) as (last & -> & Hlast).
      cbn [bind]. eexists. split; [reflexivity|].
      destruct Hinv as [Hscore _]. split; [cbn [snd]; lra|].
      cbn [fst]. intros m0 Hm0. injection Hm0 as <-.
      cbn [TextMatcher.video_id num_matches]. split; [exact Hkey|].
      split; [exact Emin|].
      unfold TextShapes.built_from_sequence.
      cbn [matches num_matches avg_similarity start_timestamp
           end_timestamp].
      repeat split; auto.
      - exists first. now split.
      - exists last. now split. }
    destruct Hstep as (state' & -> & Hinv').
    cbn [bind]. now apply IH.
Qed.

Lemma query_loop_invariant (keys : list string) (video_id : string)
      (qs db : list segment) (threshold : Q)
      (min_consecutive_matches : Z) :
  In video_id keys ->
  forall todo state,
    TextShapes.search_invariant keys threshold min_consecutive_matches
      state ->
    exists state',
      query_loop encode_similarity video_id qs db threshold
        min_consecutive_matches todo state = Ok state'
      /\ TextShapes.search_invariant keys threshold
           min_consecutive_matches state'.
Proof.
  intros Hkey. induction todo as [|[i q] rest IH]; intros state Hinv;
    cbn [query_loop].
  - now exists state.
  - destruct (get_text q) as [q_text|]; [|now apply IH].
    destruct (match_loop_invariant keys video_id qs db i threshold
                min_consecutive_matches Hkey
                (find_matching_segments encode_similarity q_text db
                   threshold 10) state Hinv) as (state' & -> & Hinv').
    cbn [bind]. now apply IH.
Qed.

Lemma database_loop_invariant (keys : list string) (qs : list segment)
      (threshold : Q) (min_consecutive_matches : Z) :
  forall todo state,
    incl (map fst todo) keys ->
    TextShapes.search_invariant keys threshold min_consecutive_matches
      state ->
    exists state',
      database_loop encode_similarity qs threshold min_consecutive_matches
        todo state = Ok state'
      /\ TextShapes.search_invariant keys threshold
           min_consecutive_matches state'.
Proof.
  induction todo as [|[video_id db] rest IH]; intros state Hkeys Hinv;
    cbn [database_loop].
  - now exists state.
  - destruct (query_loop_invariant keys video_id qs db threshold
                min_consecutive_matches (Hkeys _ (or_introl eq_refl))
                (enumerate qs) state Hinv) as (state' & -> & Hinv').
    cbn [bind]. apply IH; [|exact Hinv'].
    intros k Hk. apply Hkeys. now right.
Qed.

(** The search never raises, and a returned match is a match of a
    database video built from one sequence. *)
Lemma find_best_match_in_database_spec (qs : list segment)
      (database : list (string * list segment)) (threshold : Q)
      (min_consecutive_matches : Z) :
  exists r,
    find_best_match_in_database encode_similarity qs database threshold
      min_consecutive_matches = Ok r
    /\ forall m c, r = Some (m, c) ->
         c = classify m
         /\ In (TextMatcher.video_id m) (map fst database)
         /\ min_consecutive_matches <= num_matches m
         /\ TextShapes.built_from_sequence threshold m.
Proof.
  unfold find_best_match_in_database.
  destruct (database_loop_invariant (map fst database) qs threshold
              min_consecutive_matches database (None, 0%Q))
    as ([bm score] & -> & Hinv).
  { now apply incl_refl. }
  { split; [cbn; lra | intros m H; discriminate H]. }
  cbn [bind fst]. destruct bm as [m|].
  - eexists. split; [reflexivity|]. intros m0 c H. injection H as <- <-.
    split; [reflexivity|]. now apply Hinv.
  - exists None. split; [reflexivity|]. intros m c H. discriminate H.
Qed.

Lemma classify_not_low (threshold : Q) (m : best_match) :
  (75 # 100 <= threshold)%Q ->
  (threshold <= avg_similarity m)%Q ->
  2 <= num_matches m ->
  classify m <> HybridVerifier.low.
Proof.
  intros Ht Ha Hn. unfold classify.
  destruct (_ && _); [discriminate|].
  assert (E1 : Qle_bool (75 # 100) (avg_similarity m) = true)
    by (apply Qle_bool_iff; lra).
  assert (E2 : (2 <=? num_matches m) = true) by (apply Z.leb_le; lia).
  rewrite E1, E2. discriminate.
Qed.

Lemma built_from_sequence_mean (threshold : Q) (m : best_match) :
  TextShapes.built_from_sequence threshold m ->
  1 <= num_matches m /\ (threshold <= avg_similarity m)%Q.
Proof.
  intros (Hne & Hnum & Hsim & Hmean & _). split.
  - rewrite Hnum. destruct (matches m); [congruence|].
    rewrite len_cons. pose proof (len_nonneg l). lia.
  - apply (np_mean_at_least threshold (map similarity (matches m)));
      [|exact Hmean].
    intros x Hx. apply in_map_iff in Hx as (e & <- & He). now apply Hsim.
Qed.


End TextMatching.


(* ================================================================== *)
(** * Results on HybridVerifier.verify_clip *)
(* ================================================================== *)

Section Pipeline.
Import AudioTranscriber HybridPipeline.

Variable encode_similarity : string -> string -> Q.

Lemma dict_set_keys (d : list (string * list segment)) (key : string)
      (value : list segment) :
  forall k, In k (map fst (dict_set d key value)) ->
            k = key \/ In k (map fst d).
Proof.
  induction d as [|[k0 v0] d IH]; intros k; cbn [dict_set map fst In].
  - intros [<- | []]. now left.
  - destruct (String.eqb k0 key); cbn [map fst In].
    + intros [<- | H]; right; [now left | now right].
    + intros [<- | H]; [right; now left|].
      destruct (IH k H) as [-> | H']; [now left | right; now right].
Qed.

Lemma dict_set_not_empty (d : list (string * list segment)) (key : string)
      (value : list segment) :
  dict_set d key value <> [].
Proof.
  destruct d as [|[k0 v0] d]; cbn [dict_set]; [discriminate|].
  destruct (String.eqb k0 key); discriminate.
Qed.

Lemma build_text_database_keys (db_videos : list db_video) :
  forall acc k,
    In k (map fst (build_text_database db_videos acc)) ->
    In k (map fst acc)
    \/ exists video, In video db_videos /\ ipfs_cid video = k.
Proof.
  induction db_videos as [|video rest IH]; intros acc k;
    cbn [build_text_database].
  - now left.
  - destruct (transcripts video) as [t|].
    + intros H. destruct (IH _ _ H) as [H' | (v & Hv & Hk)].
      * destruct (dict_set_keys _ _ _ _ H') as [-> | H''];
          [right; exists video; split; [now left | reflexivity] | now left].
      * right. exists v. split; [now right | exact Hk].
    + intros H. destruct (IH _ _ H) as [H' | (v & Hv & Hk)];
        [now left|].
      right. exists v. split; [now right | exact Hk].
Qed.

Lemma build_text_database_empty (db_videos : list db_video) :
  forall acc,
    build_text_database db_videos acc = [] ->
    acc = [] /\ forall video, In video db_videos -> transcripts video = None.
Proof.
  induction db_videos as [|video rest IH]; intros acc;
    cbn [build_text_database].
  - intros ->. split; [reflexivity | contradiction].
  - destruct (transcripts video) as [t|] eqn:Et.
    + intros H. apply IH in H as [H _].
      now apply dict_set_not_empty in H.
    + intros H. apply IH in H as [-> Hall]. split; [reflexivity|].
      intros v [<- | Hv]; [exact Et | now apply Hall].
Qed.

Lemma find_matched_video_found (db_videos : list db_video) (key : string) :
  (exists video, In video db_videos /\ ipfs_cid video = key) ->
  exists matched,
    find_matched_video db_videos key = Some matched
    /\ In matched db_videos /\ ipfs_cid matched = key.
Proof.
  induction db_videos as [|video rest IH]; intros (v & Hv & Hk);
    [contradiction|].
  cbn [find_matched_video].
  destruct (String.eqb (ipfs_cid video) key) eqn:E.
  - apply String.eqb_eq in E. exists video. split; [reflexivity|].
    split; [now left | exact E].
  - destruct Hv as [<- | Hv].
    + apply String.eqb_neq in E. contradiction.
    + destruct IH as (m & Hm & Hin & Hc); [now exists v|].
      exists m. split; [exact Hm|]. split; [now right | exact Hc].
Qed.

Lemma verify_speaker_stage_verdict (cm : HybridVerifier.content_match)
      (db_embeddings : list HybridVerifier.embedding)
      (generate_embeddings : result (list HybridVerifier.embedding))
      (v : HybridVerifier.verdict) :
  HybridVerifier.verify_speaker_stage cm db_embeddings generate_embeddings
  = Ok v ->
  HybridVerifier.content v = cm
  /\ (HybridVerifier.verified v = true <->
      HybridVerifier.speaker_verified v = true
      /\ HybridVerifier.confidence cm <> HybridVerifier.low)
  /\ (HybridVerifier.speaker_verified v = true ->
      (HybridVerifier.SPEAKER_SIMILARITY_THRESHOLD
       <= HybridVerifier.speaker_similarity v)%Q)
  /\ (HybridVerifier.explained v = HybridVerifier.Weak_match ->
      HybridVerifier.confidence cm = HybridVerifier.low
      \/ (HybridVerifier.confidence cm = HybridVerifier.medium
          /\ HybridVerifier.speaker_verified v = false)).
Proof.
  unfold HybridVerifier.verify_speaker_stage.
  destruct generate_embeddings as [clip_embeddings|]; [|discriminate].
  cbn [bind].
  destruct (HybridVerifier.speaker_loop _ _ _ _) as [sims|];
    [|discriminate].
  cbn [bind].
  destruct (VideoVerifier.is_empty sims).
  - destruct (HybridVerifier.confidence cm) eqn:Ec; cbn; intros H;
      injection H as <-; cbn; rewrite ?Ec; repeat split;
      try discriminate; try reflexivity;
      try (intros [H _]; discriminate H); auto.
  - destruct (Qle_bool HybridVerifier.SPEAKER_SIMILARITY_THRESHOLD
                (HybridVerifier.np_mean sims)) eqn:Eq;
      destruct (HybridVerifier.confidence cm) eqn:Ec; cbn; intros H;
      injection H as <-; cbn; rewrite ?Ec; repeat split;
      try discriminate; try reflexivity;
      try (intros [H H']; (discriminate H || congruence));
      try (intros _; now apply Qle_bool_iff in Eq); auto.
Qed.

(** X30. What [verify_clip] of the hybrid verifier can return.  The
    answer "matched video not found" is never given: the video of the
    content match is always found in the database.  "Failed to
    transcribe" is given exactly for an empty transcript, and "no
    transcripts" only when no database video has transcripts.  A
    judged clip rests on at least two consecutive segments with a mean
    text similarity of at least 0.75, so the content confidence is
    never low; the clip is then verified exactly when the speaker is,
    which takes a mean speaker similarity of at least 0.90, and a
    "weak match" means medium content confidence with an unverified
    speaker. *)
Theorem hybrid_verify_clip_outcomes
        (transcribe_video : result (list segment))
        (db_videos : list db_video)
        (generate_embeddings : result (list HybridVerifier.embedding))
        (r : response) :
  verify_clip encode_similarity transcribe_video db_videos
    generate_embeddings = Ok r ->
  r <> Matched_video_not_found
  /\ (r = Failed_to_transcribe_clip <-> transcribe_video = Ok [])
  /\ (r = No_transcripts_in_database ->
      forall video, In video db_videos -> transcripts video = None)
  /\ forall matched content v,
       r = Judged matched content v ->
       In matched db_videos
       /\ ipfs_cid matched = TextMatcher.video_id content
       /\ 2 <= TextMatcher.num_matches content
       /\ (75 # 100 <= TextMatcher.avg_similarity content)%Q
       /\ HybridVerifier.confidence (HybridVerifier.content v)
          = TextMatcher.classify content
       /\ TextMatcher.classify content <> HybridVerifier.low
       /\ (HybridVerifier.verified v = true <->
           HybridVerifier.speaker_verified v = true)
       /\ (HybridVerifier.verified v = true ->
           (90 # 100 <= HybridVerifier.speaker_similarity v)%Q)
       /\ (HybridVerifier.explained v = HybridVerifier.Weak_match ->
           TextMatcher.classify content = HybridVerifier.medium
           /\ HybridVerifier.speaker_verified v = false).
Proof.
  unfold verify_clip.
  destruct transcribe_video as [clip_transcripts|]; [|discriminate].
  cbn [bind].
  destruct clip_transcripts as [|seg0 clip_rest]; cbn [VideoVerifier.is_empty].
  { intros H. injection H as <-. split; [discriminate|].
    split; [split; reflexivity|]. split; discriminate. }
  destruct (build_text_database db_videos []) as [|entry0 entries] eqn:Edb;
    cbn [VideoVerifier.is_empty].
  { intros H. injection H as <-. split; [discriminate|].
    split; [split; discriminate|].
    split; [|discriminate].
    intros _. now apply (build_text_database_empty db_videos []). }
  rewrite <- Edb.
  destruct (find_best_match_in_database_spec encode_similarity
              (seg0 :: clip_rest) (build_text_database db_videos [])
              TEXT_SIMILARITY_THRESHOLD MIN_CONSECUTIVE_MATCHES)
    as (found & -> & Hfound).
  cbn [bind]. destruct found as [[content c]|].
  2:{ intros H. injection H as <-. split; [discriminate|].
      split; [split; discriminate|]. split; discriminate. }
  destruct (Hfound content c eq_refl) as (-> & Hkey & Hmin & Hbuilt).
  cbn [fst].
  destruct (find_matched_video_found db_videos
              (TextMatcher.video_id content))
    as (matched & -> & Hin & Hcid).
  { destruct (build_text_database_keys db_videos [] _ Hkey) as [[] | H].
    exact H. }
  destruct (HybridVerifier.verify_speaker_stage _ _ _) as [v|] eqn:Ev;
    [|discriminate].
  cbn [bind]. intros H. injection H as <-.
  split; [discriminate|]. split; [split; discriminate|].
  split; [discriminate|].
  intros matched' content' v' H. injection H as <- <- <-.
  apply verify_speaker_stage_verdict in Ev
    as (Hcontent & Hverified & Hspeaker & Hweak).
  destruct (built_from_sequence_mean TEXT_SIMILARITY_THRESHOLD content
              Hbuilt) as [_ Havg].
  assert (Hnot_low : TextMatcher.classify content <> HybridVerifier.low).
  { apply (classify_not_low TEXT_SIMILARITY_THRESHOLD);
      [unfold TEXT_SIMILARITY_THRESHOLD; lra | exact Havg | exact Hmin]. }
  cbn [as_content_match HybridVerifier.confidence snd] in *.
  split; [exact Hin|]. split; [exact Hcid|]. split; [exact Hmin|].
  split; [exact Havg|]. split; [now rewrite Hcontent|].
  split; [exact Hnot_low|]. split; [|split].
  - rewrite Hverified. tauto.
  - intros Hv. apply Hspeaker. now apply Hverified.
  - intros Hw. destruct (Hweak Hw) as [Hlow | H]; [contradiction | exact H].
Qed.

End Pipeline.

Lemma hybrid_verify_clip_outcomes_witness :
  exists matched content v,
    HybridPipeline.verify_clip TranscriptInputs.same_text
      (Ok TranscriptInputs.clip) [TranscriptInputs.speech_video]
      (Ok TranscriptInputs.voice)
    = Ok (HybridPipeline.Judged matched content v)
    /\ HybridVerifier.verified v = true
    /\ (90 # 100 <= HybridVerifier.speaker_similarity v)%Q.
Proof.
  destruct (HybridPipeline.verify_clip TranscriptInputs.same_text
              (Ok TranscriptInputs.clip) [TranscriptInputs.speech_video]
              (Ok TranscriptInputs.voice)) as [r|] eqn:Er;
    [|vm_compute in Er; discriminate Er].
  pose proof (hybrid_verify_clip_outcomes TranscriptInputs.same_text
                (Ok TranscriptInputs.clip) [TranscriptInputs.speech_video]
                (Ok TranscriptInputs.voice) r Er) as (_ & _ & _ & Hj).
  vm_compute in Er. injection Er as <-.
  do 3 eexists. split; [reflexivity|].
  destruct (Hj _ _ _ eq_refl) as (_ & _ & _ & _ & _ & _ & _ & Hs & _).
  split; [reflexivity|]. apply Hs. reflexivity.
Defined.
